(** * demo2agent: the workflow execution engine and the JSON guardrail client

    A shallow embedding of [demo2agent/models.py], [demo2agent/orchestrator.py]
    and [demo2agent/llm_json.py], followed by the properties of the engine that
    the specification states.

    Python values are the JSON-like values that flow between steps; a Python
    [dict] is an association list in insertion order (keys are unique by
    construction, as they are in Python); a [float] is an IEEE-754 binary64
    value ([spec_float]); an [int] is an unbounded [Z]. *)

From Stdlib Require Import ZArith List String Ascii Bool Lia SpecFloat.
From Stdlib Require Import DecimalString Decimal.
Import ListNotations.

Set Warnings "-register-all".

Local Open Scope string_scope.
Local Open Scope list_scope.

(* ================================================================== *)
(** ** Python values *)

Module Py.

Inductive pyval : Type :=
| VNone
| VBool (b : bool)
| VInt (z : Z)
| VFloat (f : spec_float)
| VStr (s : string)
| VList (l : list pyval)
| VDict (d : list (string * pyval)).

Definition dict := list (string * pyval).

(** [d.get(k)] / [d[k]] / [k in d]. *)
Fixpoint dict_get {A : Type} (k : string) (d : list (string * A)) : option A :=
  match d with
  | [] => None
  | (k', v) :: r => if String.eqb k k' then Some v else dict_get k r
  end.

Definition dict_in {A : Type} (k : string) (d : list (string * A)) : bool :=
  match dict_get k d with Some _ => true | None => false end.

(** [d[k] = v]: an existing key keeps its position, a new key is appended. *)
Fixpoint dict_set {A : Type} (k : string) (v : A) (d : list (string * A))
  : list (string * A) :=
  match d with
  | [] => [(k, v)]
  | (k', v') :: r =>
      if String.eqb k k' then (k, v) :: r else (k', v') :: dict_set k v r
  end.

Definition dict_keys {A : Type} (d : list (string * A)) : list string :=
  map fst d.

(** The dict display that unpacks [a] and then [b]. *)
Definition dict_merge {A : Type} (a b : list (string * A)) : list (string * A) :=
  fold_left (fun acc kv => dict_set (fst kv) (snd kv) acc) b a.

(** binary64 *)
Definition prec : Z := 53.
Definition emax : Z := 1024.

Definition float_zero : spec_float := S754_zero false.                       (* 0.0 *)
Definition float_one : spec_float := S754_finite false 4503599627370496 (-52). (* 1.0 *)
Definition float_backoff : spec_float :=
  S754_finite false 5404319552844595 (-54).                                    (* 0.3 *)

(** [float(z)] for an int: round to nearest even, [OverflowError] past the
    largest double. *)
Definition float_of_Z (z : Z) : option spec_float :=
  match binary_normalize prec emax z 0 false with
  | S754_infinity _ => None
  | f => Some f
  end.

Definition float_of_bool (b : bool) : spec_float :=
  if b then float_one else float_zero.

(** [max(a, b)] on floats: Python returns [b] only when [b > a]. *)
Definition float_max (a b : spec_float) : spec_float :=
  if SFltb a b then b else a.

(** [f > z] for a float and an int; Python compares the two exactly. *)
Definition float_gt_Z (f : spec_float) (z : Z) : bool :=
  match f with
  | S754_nan => false
  | S754_infinity s => negb s
  | S754_zero _ => (z <? 0)%Z
  | S754_finite s m e =>
      let sm := if s then Z.neg m else Z.pos m in
      if (0 <=? e)%Z then (z <? sm * 2 ^ e)%Z
      else (z * 2 ^ (- e) <? sm)%Z
  end.

(** [type(v).__name__] *)
Definition type_name (v : pyval) : string :=
  match v with
  | VNone => "NoneType"
  | VBool _ => "bool"
  | VInt _ => "int"
  | VFloat _ => "float"
  | VStr _ => "str"
  | VList _ => "list"
  | VDict _ => "dict"
  end.

Definition is_dict (v : pyval) : bool :=
  match v with VDict _ => true | _ => false end.

(** [str(z)] for an int. *)
Definition str_of_Z (z : Z) : string := NilZero.string_of_int (Z.to_int z).

(** ASCII lower-casing, [s.lower()]. *)
Definition lower_ascii (c : ascii) : ascii :=
  let n := nat_of_ascii c in
  if andb (Nat.leb 65 n) (Nat.leb n 90) then ascii_of_nat (n + 32) else c.

Fixpoint lower (s : string) : string :=
  match s with
  | EmptyString => EmptyString
  | String c r => String (lower_ascii c) (lower r)
  end.

(** Python's [str.isspace] on the ASCII range. *)
Definition isspace (c : ascii) : bool :=
  let n := nat_of_ascii c in
  orb (andb (Nat.leb 9 n) (Nat.leb n 13))
      (orb (andb (Nat.leb 28 n) (Nat.leb n 31)) (Nat.eqb n 32)).

Fixpoint lstrip (s : string) : string :=
  match s with
  | EmptyString => EmptyString
  | String c r => if isspace c then lstrip r else s
  end.

Fixpoint rstrip (s : string) : string :=
  match s with
  | EmptyString => EmptyString
  | String c r =>
      match rstrip r with
      | EmptyString => if isspace c then EmptyString else String c EmptyString
      | r' => String c r'
      end
  end.

(** [s.strip()] *)
Definition strip (s : string) : string := rstrip (lstrip s).

Section PyvalInduction.
Variable P : pyval -> Prop.
Hypothesis HNone : P VNone.
Hypothesis HBool : forall b, P (VBool b).
Hypothesis HInt : forall z, P (VInt z).
Hypothesis HFloat : forall f, P (VFloat f).
Hypothesis HStr : forall s, P (VStr s).
Hypothesis HList : forall l, Forall P l -> P (VList l).
Hypothesis HDict : forall d, Forall (fun kv => P (snd kv)) d -> P (VDict d).

(** Induction on a nested value, with the property on all the elements. *)
Fixpoint pyval_nested_ind (v : pyval) : P v :=
  match v with
  | VNone => HNone
  | VBool b => HBool b
  | VInt z => HInt z
  | VFloat f => HFloat f
  | VStr s => HStr s
  | VList l =>
      HList l ((fix go (l : list pyval) : Forall P l :=
                  match l with
                  | [] => Forall_nil P
                  | x :: r => Forall_cons x (pyval_nested_ind x) (go r)
                  end) l)
  | VDict d =>
      HDict d ((fix go (d : list (string * pyval)) : Forall (fun kv => P (snd kv)) d :=
                  match d with
                  | [] => Forall_nil _
                  | kv :: r => Forall_cons kv (pyval_nested_ind (snd kv)) (go r)
                  end) d)
  end.

End PyvalInduction.

(** The string leaves of a nested value. *)
Fixpoint leaves (v : pyval) : list string :=
  match v with
  | VStr s => [s]
  | VList l => flat_map leaves l
  | VDict d => flat_map (fun kv => leaves (snd kv)) d
  | _ => []
  end.

End Py.
Export Py.

(* ================================================================== *)
(** ** models.py *)

Module Models.

(** [StepPolicy]; pydantic checks the three fields to be ints, nothing more. *)
Record StepPolicy : Type := mkStepPolicy {
  max_actions : Z;
  max_seconds : Z;
  retries : Z
}.


Record StepEvidence : Type := mkStepEvidence {
  t : spec_float;
  keyframe_path : option string;
  context_crop_path : option string;
  target_crop_path : option string;
  click_xy : option (Z * Z);
  window_title : option string;
  typed_text_nearby : option string;
  transcript_nearby : option string
}.

(** [Step].  [type], [executor_hint] and the values of [outputs_schema] are
    kept as the strings the engine compares them with; [inputs] is kept as a
    Python value because the engine tests [isinstance(step.inputs, dict)]. *)
Inductive Step : Type := mkStep {
  id : string;
  type : string;
  goal : string;
  inputs : pyval;
  outputs_schema : list (string * string);
  postconditions : list pyval;
  policy : StepPolicy;
  executor_hint : string;
  evidence : option StepEvidence;
  fallbacks : list Step
}.

Record WorkflowSpec : Type := mkWorkflowSpec {
  name : string;
  created_at_iso : string;
  wf_inputs : list (string * string);
  steps : list Step
}.

(** The Python types a generated output model can declare. *)
Inductive pytype : Type := TStr | TFloat | TBool.

(** [(type, Field(default=...))] *)
Definition FieldInfo : Type := (pytype * pyval)%type.

Definition _TYPE_MAP : list (string * FieldInfo) :=
  [ ("string", (TStr, VStr ""));
    ("number", (TFloat, VFloat float_zero));
    ("path", (TStr, VStr ""));
    ("boolean", (TBool, VBool false)) ].

(** The class built by [create_model]: its name and its fields in
    declaration order. *)
Record OutputModel : Type := mkOutputModel {
  model_name : string;
  model_fields : list (string * FieldInfo)
}.

(** The body of the loop of [make_output_model]: the entry of [_TYPE_MAP],
    or a string field for a type it does not list. *)
Definition field_info (t : string) : FieldInfo :=
  match dict_get t _TYPE_MAP with
  | Some fi => fi
  | None => (TStr, VStr "")   (* be permissive; treat unknown as string *)
  end.

Definition schema_field (nt : string * string) : string * FieldInfo :=
  (fst nt, field_info (snd nt)).

(** A field name that [create_model] takes as it is.  pydantic refuses a name
    with a leading underscore, and a name of its protected namespace [model_]
    that a member of [BaseModel] bears ([model_dump], [model_config], ...);
    which names of the namespace those are is the library's business, so every
    name that starts with [_] or with [model_] is left outside the model. *)
Definition field_name_in_model (k : string) : bool :=
  negb (orb (String.prefix "_" k) (String.prefix "model_" k)).

Fixpoint no_nul (s : string) : bool :=
  match s with
  | EmptyString => true
  | String c r => andb (negb (Ascii.eqb c (ascii_of_nat 0))) (no_nul r)
  end.

(** [create_model(name, **fields)]: the class, or [None] where the call is
    outside the model (a field name as above, or a class name that Python's
    [type] refuses); there the source raises from [step.output_model()],
    before any validation. *)
Definition create_model (name : string) (fields : list (string * FieldInfo))
  : option OutputModel :=
  if andb (no_nul name) (forallb (fun f => field_name_in_model (fst f)) fields)
  then Some (mkOutputModel name fields)
  else None.

Definition make_output_model (step_id : string)
           (outputs_schema : list (string * string)) : option OutputModel :=
  match outputs_schema with
  | [] => create_model ("OutputModel_" ++ step_id)%string [("ok", (TStr, VStr ""))]
  | _ => create_model ("OutputModel_" ++ step_id)%string (map schema_field outputs_schema)
  end.

Definition output_model (s : Step) : option OutputModel :=
  make_output_model (id s) (outputs_schema s).

(** The id and the declared outputs of the step are such that
    [step.output_model()] is inside the model. *)
Definition schema_in_model (s : Step) : bool :=
  andb (no_nul ("OutputModel_" ++ id s))
       (forallb (fun kv => field_name_in_model (fst kv)) (outputs_schema s)).

Section StepInduction.
Variable P : Step -> Prop.
Hypothesis HStep :
  forall i ty g inp sch post pol hint ev fbs,
    Forall P fbs -> P (mkStep i ty g inp sch post pol hint ev fbs).

(** Induction on a step, with the property on all its fallbacks. *)
Fixpoint Step_nested_ind (s : Step) : P s :=
  match s with
  | mkStep i ty g inp sch post pol hint ev fbs =>
      HStep i ty g inp sch post pol hint ev fbs
            ((fix go (l : list Step) : Forall P l :=
                match l with
                | [] => Forall_nil P
                | x :: r => Forall_cons x (Step_nested_ind x) (go r)
                end) fbs)
  end.

End StepInduction.


(** The same, with the fallbacks, recursively. *)
Fixpoint step_all_leaves (s : Step) : list string :=
  match s with
  | mkStep _ _ g inp _ post _ _ _ fbs =>
      g :: leaves inp ++ flat_map leaves post ++ flat_map step_all_leaves fbs
  end.

End Models.
Export Models.

(* ================================================================== *)
(** ** Exceptions and results *)

Module Exc.

(** What the engine feeds into the message of an exception it raises.  A
    message is kept as the data the f-string interpolates, not as its text. *)
Inductive message : Type :=
| UndefinedError (path : list string)          (* jinja2: a reference that resolves to nothing *)
| NoneNotCallable                              (* TypeError: the environment's [undefined] is None *)
| EnvironmentConfig                            (* TypeError of jinja2's environment sanity check *)
| TemplateRenderFailed (obj : string)          (* "Template render failed for '{obj}': {e}" *)
| ValidationError (fields : list string)       (* pydantic: the fields that did not validate *)
| OutputValidationFailed (step_id : string) (expected : list string)
                         (got : list string + string)
                                               (* "{id}: executor output failed OutputModel validation..." *)
| WebHintMismatch (step_id : string)           (* "{id}: WEB step must use executor_hint=browser_use/auto" *)
| WebTaskRequired (step_id : string)           (* "{id}: WEB step.inputs.task is required" *)
| DesktopHintMismatch (step_id : string)       (* "{id}: DESKTOP step must use executor_hint=desktop_ax/auto" *)
| DesktopInputsNotObject (step_id : string)    (* "{id}: DESKTOP step.inputs must be an object" *)
| DesktopNeedsTaskOrActions (step_id : string) (* "{id}: DESKTOP needs inputs.task or inputs.actions" *)
| UnsupportedStepType (step_id ty : string)    (* "{id}: Unsupported step type: {type}" *)
| ExceededMaxSeconds (step_id : string)        (* "{id}: exceeded max_seconds" *)
| ExecutorMustReturnDict (step_id ty : string) (* "{id}: executor must return dict, got {type}" *)
| NoGetAttribute (ty : string)                 (* AttributeError: '<ty>' object has no attribute 'get' *)
| FloatConversion (ty : string)                (* TypeError / ValueError / OverflowError of float(x) *)
| IndexError                                   (* wf.steps[i] out of range *)
| External (text : string).                    (* raised by a capability, the repair hook or the OS *)

(** An exception: its message and its [__cause__]. *)
Inductive exn : Type :=
| Exn (m : message) (cause : option exn).

Definition exn_message (e : exn) : message := match e with Exn m _ => m end.

(** [raise X(...)] with no cause. *)
Definition mk_exn (m : message) : exn := Exn m None.

(** [raise e2 from e]: the same exception with [__cause__] set to [e]. *)
Definition raise_from (e2 e : exn) : exn := Exn (exn_message e2) (Some e).

(** [str(e)]: the message alone, without the cause chain. *)
Definition str_exn (e : exn) : message := exn_message e.

(** jinja2's [TemplateError] hierarchy, as far as the messages above go. *)
Definition is_TemplateError (e : exn) : bool :=
  match exn_message e with UndefinedError _ => true | _ => false end.

(** The result of a computation: a value, an exception, or a behaviour of a
    library that the model does not describe (nothing is claimed for it). *)
Inductive outcome (A : Type) : Type :=
| Ok (a : A)
| Raise (e : exn)
| OutOfModel.
Arguments Ok {A} a.
Arguments Raise {A} e.
Arguments OutOfModel {A}.

Definition obind {A B : Type} (m : outcome A) (k : A -> outcome B) : outcome B :=
  match m with
  | Ok a => k a
  | Raise e => Raise e
  | OutOfModel => OutOfModel
  end.

Section MapOutcome.
Context {A B : Type}.
Variable f : A -> outcome B.

(** [[f(x) for x in l]], stopping at the first element that does not yield. *)
Fixpoint omap_list (l : list A) : outcome (list B) :=
  match l with
  | [] => Ok []
  | x :: r => obind (f x) (fun y => obind (omap_list r) (fun ys => Ok (y :: ys)))
  end.

(** [{k: f(v) for k, v in d.items()}] *)
Fixpoint omap_values (d : list (string * A)) : outcome (list (string * B)) :=
  match d with
  | [] => Ok []
  | kv :: r =>
      obind (f (snd kv)) (fun v => obind (omap_values r) (fun r' => Ok ((fst kv, v) :: r')))
  end.

End MapOutcome.

End Exc.
Export Exc.

(* ================================================================== *)
(** ** The Python runtime and the operating system *)

(** What the engine takes from outside: the state of the outside world, the
    clock, [time.sleep], the three float conversions whose text formats are
    the libraries' business, and [print], which writes to the standard output
    and raises when that cannot be written to. *)
Record Runtime : Type := mkRuntime {
  W : Type;
  time_time : W -> spec_float * W;
  time_sleep : spec_float -> W -> outcome unit * W;
  float_of_str : string -> option spec_float;      (* the builtin [float(s)] *)
  lax_float_of_str : string -> option spec_float;  (* pydantic's str-to-float in lax mode *)
  str_of_float : spec_float -> string;             (* [str(f)] *)
  assertions_enabled : bool;                       (* false under [python -O] *)
  print_outputs : dict -> W -> outcome unit * W    (* [print(f"Outputs: {outputs}")] *)
}.

(* ================================================================== *)
(** ** pydantic: validating a mapping against a generated model *)

Module Pydantic.

Section Validate.
Variable RT : Runtime.

(** The strings pydantic reads as booleans, after lower-casing. *)
Definition bool_true_strs : list string := ["1"; "on"; "t"; "true"; "y"; "yes"].
Definition bool_false_strs : list string := ["0"; "off"; "f"; "false"; "n"; "no"].

Definition str_in (s : string) (l : list string) : bool := existsb (String.eqb s) l.

(** One field in pydantic's default (lax) mode: what the declared type accepts
    and what it turns the input into. *)
Definition validate_value (ty : pytype) (v : pyval) : option pyval :=
  match ty, v with
  | TStr, VStr s => Some (VStr s)
  | TStr, _ => None
  | TFloat, VFloat f => Some (VFloat f)
  | TFloat, VInt z => option_map VFloat (float_of_Z z)
  | TFloat, VBool b => Some (VFloat (float_of_bool b))
  | TFloat, VStr s => option_map VFloat (lax_float_of_str RT s)
  | TFloat, _ => None
  | TBool, VBool b => Some (VBool b)
  | TBool, VInt z =>
      if (z =? 0)%Z then Some (VBool false)
      else if (z =? 1)%Z then Some (VBool true) else None
  | TBool, VFloat f =>
      if SFeqb f float_zero then Some (VBool false)
      else if SFeqb f float_one then Some (VBool true) else None
  | TBool, VStr s =>
      if str_in (lower s) bool_true_strs then Some (VBool true)
      else if str_in (lower s) bool_false_strs then Some (VBool false) else None
  | TBool, _ => None
  end.

(** A field of the model against the input mapping: an absent key takes the
    field's default. *)
Definition validate_field (input : dict) (f : string * FieldInfo) : option pyval :=
  match dict_get (fst f) input with
  | None => Some (snd (snd f))
  | Some v => validate_value (fst (snd f)) v
  end.

(** The fields that fail, in declaration order. *)
Definition failing_fields (fields : list (string * FieldInfo)) (input : dict)
  : list string :=
  map fst (filter (fun f => match validate_field input f with
                            | Some _ => false | None => true end) fields).

(** The validated fields, in declaration order (a failing field is skipped;
    [model_validate] uses the result only when none fails). *)
Fixpoint validated_fields (fields : list (string * FieldInfo)) (input : dict) : dict :=
  match fields with
  | [] => []
  | f :: r =>
      match validate_field input f with
      | Some v => (fst f, v) :: validated_fields r input
      | None => validated_fields r input
      end
  end.

(** [Model.model_validate(obj)]: the input must be a mapping; keys that are
    no field of the model are ignored.  The model object is given by its
    field values. *)
Definition model_validate (M : OutputModel) (obj : pyval) : outcome dict :=
  match obj with
  | VDict input =>
      match failing_fields (model_fields M) input with
      | [] => Ok (validated_fields (model_fields M) input)
      | bad => Raise (mk_exn (ValidationError bad))
      end
  | _ => Raise (mk_exn (ValidationError []))
  end.

(** [obj.model_dump()] *)
Definition model_dump (model_obj : dict) : dict := model_obj.

End Validate.

End Pydantic.
Export Pydantic.

(* ================================================================== *)
(** ** jinja2: the part of the template language the workflows use *)

(** The engine hands every string to [env.from_string(s).render(ctx)].  The
    model covers the templates the workflows are written in: literal text and
    [{{ a.b.c }}] references (dotted identifiers, optional blanks inside the
    braces), resolved through mappings.  Everything else the library can do
    (blocks, comments, filters, operators, its literals, its built-in globals
    and the name [self] it binds itself, attributes of Python objects that are
    not mappings, the methods of [dict], the private attributes of its
    undefined object but for [_undefined_name], carriage returns) is
    [OutOfModel]: the model says nothing about it. *)

Module Jinja.

Inductive undefined_class : Type := StrictUndefined.

Record Environment : Type := mkEnvironment {
  undefined : option undefined_class;    (* None is Python's None, not a class *)
  autoescape : bool
}.

(** [Environment(undefined=..., autoescape=...)]: the constructor ends with a
    sanity check that asserts [undefined] to be a class. *)
Definition Environment_new (RT : Runtime) (u : option undefined_class) (a : bool)
  : outcome Environment :=
  match u with
  | None => if assertions_enabled RT then Raise (mk_exn EnvironmentConfig)
            else Ok (mkEnvironment u a)
  | Some _ => Ok (mkEnvironment u a)
  end.

Inductive segment : Type :=
| Lit (c : ascii)
| Var (path : list string).

Definition is_alpha_ (c : ascii) : bool :=
  let n := nat_of_ascii c in
  orb (andb (Nat.leb 65 n) (Nat.leb n 90))
      (orb (andb (Nat.leb 97 n) (Nat.leb n 122)) (Nat.eqb n 95)).

Definition is_digit (c : ascii) : bool :=
  let n := nat_of_ascii c in andb (Nat.leb 48 n) (Nat.leb n 57).

Fixpoint all_chars (p : ascii -> bool) (s : string) : bool :=
  match s with
  | EmptyString => true
  | String c r => andb (p c) (all_chars p r)
  end.

(** [[a-zA-Z_][a-zA-Z0-9_]*] *)
Definition is_identifier (s : string) : bool :=
  match s with
  | EmptyString => false
  | String c r => andb (is_alpha_ c) (all_chars (fun x => orb (is_alpha_ x) (is_digit x)) r)
  end.

(** Split at every dot. *)
Fixpoint split_dots (s : string) : list string :=
  match s with
  | EmptyString => [EmptyString]
  | String c r =>
      if Ascii.eqb c "."%char then EmptyString :: split_dots r
      else match split_dots r with
           | [] => [String c EmptyString]
           | w :: ws => String c w :: ws
           end
  end.

(** Names that are not context variables for jinja2: its literals, its
    operators, the globals every environment starts with, and [self], which
    a template binds to a reference to itself. *)
Definition reserved_names : list string :=
  [ "true"; "false"; "none"; "True"; "False"; "None";
    "not"; "and"; "or"; "in"; "is"; "if"; "else";
    "range"; "dict"; "lipsum"; "cycler"; "joiner"; "namespace"; "self" ].

(** The expression between the braces: a dotted path, or not in the model. *)
Definition parse_expr (e : string) : option (list string) :=
  let path := split_dots (strip e) in
  match path with
  | [] => None
  | x :: _ =>
      if andb (forallb is_identifier path) (negb (str_in x reserved_names))
      then Some path else None
  end.

(** The lexer, one pass over the text: [None] outside an expression,
    [Some acc] inside one, with the text read so far. *)
Fixpoint lex (s : string) (inside : option string) : option (list segment) :=
  match inside with
  | None =>
      match s with
      | EmptyString => Some []
      | String c r =>
          if Ascii.eqb c "{"%char then
            match r with
            | String d r' =>
                if Ascii.eqb d "{"%char then lex r' (Some EmptyString)
                else if orb (Ascii.eqb d "%"%char) (Ascii.eqb d "#"%char) then None
                else option_map (cons (Lit c)) (lex r None)
            | EmptyString => Some [Lit c]
            end
          else option_map (cons (Lit c)) (lex r None)
      end
  | Some acc =>
      match s with
      | EmptyString => None
      | String c r =>
          if Ascii.eqb c "}"%char then
            match r with
            | String d r' =>
                if Ascii.eqb d "}"%char then
                  match parse_expr acc with
                  | Some p => option_map (cons (Var p)) (lex r' None)
                  | None => None
                  end
                else lex r (Some (acc ++ String c EmptyString)%string)
            | EmptyString => None
            end
          else lex r (Some (acc ++ String c EmptyString)%string)
      end
  end.

Definition LF : ascii := ascii_of_nat 10.
Definition CR : ascii := ascii_of_nat 13.

(** The lexer drops one newline at the very end of a template
    ([keep_trailing_newline] is off by default). *)
Fixpoint drop_final_newline (s : string) : string :=
  match s with
  | EmptyString => EmptyString
  | String c r =>
      match r with
      | EmptyString => if Ascii.eqb c LF then EmptyString else s
      | _ => String c (drop_final_newline r)
      end
  end.

(** [env.from_string(s)], inside the model. *)
Definition from_string (s : string) : option (list segment) :=
  if all_chars (fun c => negb (Ascii.eqb c CR)) s
  then lex (drop_final_newline s) None
  else None.

(** Resolving a reference: a value; the undefined object that stands for the
    missing name [name]; an error raised on the way; or something the model
    does not describe. *)
Inductive lookup : Type :=
| Found (v : pyval)
| Undef (name : string)
| Fails
| Unmodelled.

(** The attributes every [dict] has; jinja2 tries [getattr] before the key. *)
Definition dict_attrs : list string :=
  [ "clear"; "copy"; "fromkeys"; "get"; "items"; "keys"; "pop"; "popitem";
    "setdefault"; "update"; "values" ].

Definition python_attr (a : string) : bool :=
  orb (str_in a dict_attrs) (String.prefix "__" a).

(** [environment.undefined(name=...)]: the undefined object for a name that
    is not there; when the environment's [undefined] is None the call itself
    raises. *)
Definition missing (env : Environment) (name : string) : lookup :=
  match undefined env with
  | Some StrictUndefined => Undef name
  | None => Fails
  end.

(** [environment.getattr(obj, a)].  On the undefined object, Python's own
    attribute lookup comes first: [_undefined_name] is the missing name, the
    other private attributes and the special ones are the library's; every
    other attribute goes to [__getattr__], which raises. *)
Definition getattr (env : Environment) (obj : lookup) (a : string) : lookup :=
  match obj with
  | Found (VDict d) =>
      if python_attr a then Unmodelled
      else match dict_get a d with
           | Some v => Found v
           | None => missing env a
           end
  | Found _ => Unmodelled
  | Undef n =>
      if String.eqb a "_undefined_name" then Found (VStr n)
      else if String.prefix "_" a then Unmodelled
      else Fails
  | Fails => Fails
  | Unmodelled => Unmodelled
  end.

(** [a.b.c] in the render context. *)
Definition resolve (env : Environment) (ctx : dict) (path : list string) : lookup :=
  match path with
  | [] => Unmodelled
  | x :: attrs =>
      fold_left (getattr env) attrs
                (match dict_get x ctx with Some v => Found v | None => missing env x end)
  end.

(** The reference came to nothing: the lookup ended in the undefined object,
    or raised on the way. *)
Definition unresolved (l : lookup) : bool :=
  match l with
  | Undef _ | Fails => true
  | _ => false
  end.

(** The template [s] holds the reference [p]. *)
Definition references (s : string) (p : list string) : Prop :=
  exists segs, from_string s = Some segs /\ In (Var p) segs.

(** No opening delimiter of the template language in [s]. *)
Fixpoint no_markup (s : string) : bool :=
  match s with
  | EmptyString => true
  | String c r =>
      if Ascii.eqb c "{"%char then
        match r with
        | String d _ =>
            andb (negb (orb (Ascii.eqb d "{"%char)
                            (orb (Ascii.eqb d "%"%char) (Ascii.eqb d "#"%char))))
                 (no_markup r)
        | EmptyString => true
        end
      else no_markup r
  end.

Fixpoint ends_with_newline (s : string) : bool :=
  match s with
  | EmptyString => false
  | String c r =>
      match r with
      | EmptyString => Ascii.eqb c LF
      | _ => ends_with_newline r
      end
  end.

(** Text that the template language leaves as it is. *)
Definition plain (s : string) : bool :=
  andb (all_chars (fun c => negb (Ascii.eqb c CR)) s)
       (andb (negb (ends_with_newline s)) (no_markup s)).

Section Render.
Variable RT : Runtime.

(** [str(v)] of a value written into the output. *)
Definition py_str (v : pyval) : option string :=
  match v with
  | VStr s => Some s
  | VInt z => Some (str_of_Z z)
  | VBool b => Some (if b then "True" else "False")
  | VNone => Some "None"
  | VFloat f => Some (str_of_float RT f)
  | VList _ | VDict _ => None
  end.

(** What an undefined reference does: [StrictUndefined] raises
    [UndefinedError], from [__getattr__] or when the undefined object is
    written out; with None for the class, calling it is a [TypeError]. *)
Definition on_undefined (env : Environment) (path : list string) : exn :=
  match undefined env with
  | Some StrictUndefined => mk_exn (UndefinedError path)
  | None => mk_exn NoneNotCallable
  end.

Fixpoint render_segments (env : Environment) (ctx : dict) (segs : list segment)
  : outcome string :=
  match segs with
  | [] => Ok EmptyString
  | Lit c :: r => obind (render_segments env ctx r) (fun out => Ok (String c out))
  | Var p :: r =>
      match resolve env ctx p with
      | Found v =>
          match py_str v with
          | Some s => obind (render_segments env ctx r) (fun out => Ok (s ++ out)%string)
          | None => OutOfModel
          end
      | Undef _ | Fails => Raise (on_undefined env p)
      | Unmodelled => OutOfModel
      end
  end.

(** [env.from_string(s).render(ctx)] *)
Definition render (env : Environment) (ctx : dict) (s : string) : outcome string :=
  match from_string s with
  | Some segs => render_segments env ctx segs
  | None => OutOfModel
  end.

End Render.

End Jinja.
Export Jinja.

(* ================================================================== *)
(** ** orchestrator.py *)

Module Orchestrator.

(** [verify]: the body is [pass]; the checks are commented out in the source. *)
Definition verify (step : Step) (outputs : dict) : outcome unit := Ok tt.

Section Engine.
Variable RT : Runtime.

(** A string leaf: a [TemplateError] becomes a [RuntimeError] that names the
    template and chains the library's error; anything else passes through. *)
Definition render_string (env : Environment) (ctx : dict) (obj : string)
  : outcome string :=
  match render RT env ctx obj with
  | Raise e =>
      if is_TemplateError e then Raise (Exn (TemplateRenderFailed obj) (Some e))
      else Raise e
  | r => r
  end.

Fixpoint render_templates (env : Environment) (ctx : dict) (obj : pyval)
  : outcome pyval :=
  match obj with
  | VStr s => obind (render_string env ctx s) (fun r => Ok (VStr r))
  | VDict d => obind (omap_values (render_templates env ctx) d) (fun d' => Ok (VDict d'))
  | VList l => obind (omap_list (render_templates env ctx) l) (fun l' => Ok (VList l'))
  | _ => Ok obj
  end.

Fixpoint _render_step (env : Environment) (ctx : dict) (step : Step) : outcome Step :=
  match step with
  | mkStep i ty g inp schema post pol hint ev fbs =>
      obind (render_string env ctx g) (fun rendered_goal =>
      obind (render_templates env ctx inp) (fun rendered_inputs =>
      obind (omap_list (render_templates env ctx) post) (fun rendered_post =>
      obind (omap_list (_render_step env ctx) fbs) (fun rendered_fallbacks =>
      Ok (mkStep i ty rendered_goal rendered_inputs schema rendered_post
                 pol hint ev rendered_fallbacks)))))
  end.

(** [list(outputs.keys()) if isinstance(outputs, dict) else type(outputs)] *)
Definition got_keys (outputs : pyval) : list string + string :=
  match outputs with
  | VDict d => inl (dict_keys d)
  | v => inr (type_name v)
  end.

Definition _validate_outputs (step : Step) (outputs : pyval) : outcome dict :=
  match output_model step with
  | None => OutOfModel
  | Some OutputModel0 =>
      match model_validate RT OutputModel0 outputs with
      | Ok model_obj => Ok (model_dump model_obj)
      | Raise e =>
          Raise (Exn (OutputValidationFailed (id step) (dict_keys (outputs_schema step))
                                             (got_keys outputs))
                     (Some e))
      | OutOfModel => OutOfModel
      end
  end.

(** [float(x)] *)
Definition py_float (v : pyval) : outcome spec_float :=
  match v with
  | VFloat f => Ok f
  | VInt z =>
      match float_of_Z z with
      | Some f => Ok f
      | None => Raise (mk_exn (FloatConversion "int"))
      end
  | VBool b => Ok (float_of_bool b)
  | VStr s =>
      match float_of_str RT s with
      | Some f => Ok f
      | None => Raise (mk_exn (FloatConversion "str"))
      end
  | v => Raise (mk_exn (FloatConversion (type_name v)))
  end.

(** [float(step.inputs.get("seconds", 1.0))] *)
Definition wait_seconds (step : Step) : outcome spec_float :=
  match inputs step with
  | VDict d =>
      py_float (match dict_get "seconds" d with
                | Some v => v
                | None => VFloat float_one
                end)
  | v => Raise (mk_exn (NoGetAttribute (type_name v)))
  end.

(** A capability: [run(step)], acting on the outside world. *)
Definition capability : Type := Step -> W RT -> outcome pyval * W RT.

(** The repair hook: [hook(wf, step, str(e), ctx)].  It is handed the workflow
    object and may edit its list of steps in place; the list that the loop of
    [run] walks is the list of the workflow [run] was called with, so the hook
    is given the content of that list and answers with the workflow it
    returns and with the content it leaves in that list (or it raises).  It is
    taken not to write into the context it is shown: the assignments of [run]
    are the only writes to it. *)
Definition hook : Type :=
  WorkflowSpec -> list Step -> Step -> message -> dict -> W RT
  -> outcome (WorkflowSpec * list Step) * W RT.

Record Orchestrator : Type := mkOrchestrator {
  web_exec : capability;
  desktop_exec : capability;
  repair_hook : option hook;
  env : Environment
}.

(** [Orchestrator.__init__] *)
Definition Orchestrator_init (web desktop : capability) (rh : option hook)
           (strict_templates : bool) : outcome Orchestrator :=
  obind (Environment_new RT (if strict_templates then Some StrictUndefined else None)
                         false)
        (fun e => Ok (mkOrchestrator web desktop rh e)).

(** What a run does that can be seen from outside, in order.  [EvAttempt],
    [EvPostRepairAttempt] and [EvCommit] mark the places of the source where an
    iteration of the retry loop starts, where the attempt after a repair
    starts, and where [ctx["steps"][step.id]] is assigned. *)
Inductive event : Type :=
| EvAttempt (attempt : nat) (step : Step)
| EvPostRepairAttempt (step : Step)
| EvWebRun (step : Step)
| EvDesktopRun (step : Step)
| EvSleep (secs : spec_float)
| EvRepair (wf : WorkflowSpec) (step : Step) (err : message) (ctx : dict)
| EvCommit (step_id : string) (outputs : dict)
| EvPrint (outputs : dict).

(** The variables of [run] that change, with the outside world: [wf], the
    content [live] of the list of steps that the loop walks, and [ctx]. *)
Record state : Type := mkState {
  world : W RT;
  wf : WorkflowSpec;
  live : list Step;
  ctx : dict
}.

(** A statement of [run]: from a state to a result, the state it leaves and
    the events it produced, in order. *)
Definition M (A : Type) : Type := state -> outcome A * state * list event.

Definition ret {A : Type} (a : A) : M A := fun s => (Ok a, s, []).

Definition bind {A B : Type} (m : M A) (k : A -> M B) : M B :=
  fun s =>
    match m s with
    | (Ok a, s', evs) => let '(r, s'', evs') := k a s' in (r, s'', evs ++ evs')
    | (Raise e, s', evs) => (Raise e, s', evs)
    | (OutOfModel, s', evs) => (OutOfModel, s', evs)
    end.

Definition raise {A : Type} (m : message) : M A := fun s => (Raise (mk_exn m), s, []).

Definition reraise {A : Type} (e : exn) : M A := fun s => (Raise e, s, []).

Definition lift {A : Type} (o : outcome A) : M A := fun s => (o, s, []).

(** [try: m  except Exception as e: h e] *)
Definition try_except {A : Type} (m : M A) (h : exn -> M A) : M A :=
  fun s =>
    match m s with
    | (Raise e, s', evs) => let '(r, s'', evs') := h e s' in (r, s'', evs ++ evs')
    | r => r
    end.

Definition log (ev : event) : M unit := fun s => (Ok tt, s, [ev]).

Definition get_ctx : M dict := fun s => (Ok (ctx s), s, []).
Definition get_wf : M WorkflowSpec := fun s => (Ok (wf s), s, []).
Definition get_live : M (list Step) := fun s => (Ok (live s), s, []).

Definition set_wf (w : WorkflowSpec) : M unit :=
  fun s => (Ok tt, mkState (world s) w (live s) (ctx s), []).

Definition set_live (l : list Step) : M unit :=
  fun s => (Ok tt, mkState (world s) (wf s) l (ctx s), []).

(** An action on the outside world. *)
Definition extern {A : Type} (f : W RT -> outcome A * W RT) : M A :=
  fun s => let (r, w') := f (world s) in
           (r, mkState w' (wf s) (live s) (ctx s), []).

(** The fuel of the loop over the steps is used up. *)
Definition out_of_fuel {A : Type} : M A := fun s => (OutOfModel, s, []).

Notation "x <- m ;; k" := (bind m (fun x => k))
  (at level 61, m at next level, right associativity).
Notation "m ;;; k" := (bind m (fun _ => k))
  (at level 61, right associativity).

(** [time.time()] *)
Definition now : M spec_float :=
  extern (fun w => let (t, w') := time_time RT w in (Ok t, w')).

(** [time.sleep(secs)] *)
Definition sleep (secs : spec_float) : M unit :=
  log (EvSleep secs) ;;; extern (time_sleep RT secs).

Definition call_web (o : Orchestrator) (step : Step) : M pyval :=
  log (EvWebRun step) ;;; extern (web_exec o step).

Definition call_desktop (o : Orchestrator) (step : Step) : M pyval :=
  log (EvDesktopRun step) ;;; extern (desktop_exec o step).

(** The WAIT branch, the same text in both attempts of the source. *)
Definition run_wait (step : Step) : M pyval :=
  secs <- lift (wait_seconds step) ;;
  sleep (float_max float_zero secs) ;;;
  ret (VDict [("waited_seconds", VFloat secs)]).

(** [ctx["steps"]]; the key is there from the first line of [run] on. *)
Definition ctx_steps (c : dict) : dict :=
  match dict_get "steps" c with
  | Some (VDict d) => d
  | _ => []
  end.

(** The context after [ctx["steps"][step_id] = outputs]. *)
Definition ctx_store (c : dict) (step_id : string) (outputs : dict) : dict :=
  dict_set "steps" (VDict (dict_set step_id (VDict outputs) (ctx_steps c))) c.

(** [ctx["steps"][step.id] = outputs] *)
Definition commit (step_id : string) (outputs : dict) : M unit :=
  fun s =>
    (Ok tt, mkState (world s) (wf s) (live s) (ctx_store (ctx s) step_id outputs),
     [EvCommit step_id outputs]).

Definition has_key (k : string) (v : pyval) : bool :=
  match v with
  | VDict d => dict_in k d
  | _ => false
  end.

(** Lines 139-162: the checks and the call of the capability. *)
Definition dispatch (o : Orchestrator) (step : Step) : M pyval :=
  if String.eqb (type step) "WEB" then
    if negb (str_in (executor_hint step) ["browser_use"; "auto"])
    then raise (WebHintMismatch (id step))
    else if orb (negb (is_dict (inputs step))) (negb (has_key "task" (inputs step)))
    then raise (WebTaskRequired (id step))
    else call_web o step
  else if String.eqb (type step) "DESKTOP" then
    if negb (str_in (executor_hint step) ["desktop_ax"; "auto"])
    then raise (DesktopHintMismatch (id step))
    else if negb (is_dict (inputs step))
    then raise (DesktopInputsNotObject (id step))
    else if andb (negb (has_key "task" (inputs step)))
                 (negb (has_key "actions" (inputs step)))
    then raise (DesktopNeedsTaskOrActions (id step))
    else call_desktop o step
  else if String.eqb (type step) "WAIT" then run_wait step
  else raise (UnsupportedStepType (id step) (type step)).

(** Lines 170-177 and 208-210, the same three statements in both attempts:
    validate, verify, store. *)
Definition validate_and_store (step : Step) (raw_outputs : pyval) : M dict :=
  outputs <- lift (_validate_outputs step raw_outputs) ;;
  lift (verify step outputs) ;;;
  commit (id step) outputs ;;;
  ret outputs.

(** Lines 137-177: one attempt up to the assignment, the stage of the
    capability and of the validation. *)
Definition attempt_stage (o : Orchestrator) (step : Step) : M dict :=
  t0 <- now ;;
  raw_outputs <- dispatch o step ;;
  t1 <- now ;;
  if float_gt_Z (SFsub prec emax t1 t0) (max_seconds (policy step))
  then raise (ExceededMaxSeconds (id step))
  else if negb (is_dict raw_outputs)
  then raise (ExecutorMustReturnDict (id step) (type_name raw_outputs))
  else validate_and_store step raw_outputs.

(** Line 178: [print(f"Outputs: {outputs}")], after the assignment and still
    inside the [try]. *)
Definition print_line (outputs : dict) : M unit :=
  log (EvPrint outputs) ;;; extern (print_outputs RT outputs).

(** Lines 137-180: the body of the [try] of one attempt. *)
Definition attempt_body (o : Orchestrator) (step : Step) : M unit :=
  outputs <- attempt_stage o step ;;
  print_line outputs.

(** Lines 197-206: the call of the capability in the attempt after a repair. *)
Definition dispatch_after_repair (o : Orchestrator) (step : Step) : M pyval :=
  if String.eqb (type step) "WEB" then call_web o step
  else if String.eqb (type step) "DESKTOP" then call_desktop o step
  else if String.eqb (type step) "WAIT" then run_wait step
  else raise (UnsupportedStepType (id step) (type step)).

(** Lines 197-210: the body of the [try] of the attempt after a repair. *)
Definition attempt_after_repair_body (o : Orchestrator) (step : Step) : M unit :=
  raw_outputs <- dispatch_after_repair o step ;;
  validate_and_store step raw_outputs ;;;
  ret tt.

(** Lines 196-214: the attempt after a repair; [e] is the error that led to
    the repair. *)
Definition attempt_after_repair (o : Orchestrator) (step : Step) (e : exn) : M unit :=
  try_except
    (attempt_after_repair_body o step)
    (fun e2 => reraise (raise_from e2 e)).

(** Lines 191-212: the repair hook, the new step and its one attempt. *)
Definition repair (o : Orchestrator) (h : hook) (i : nat) (step : Step) (e : exn)
  : M Step :=
  w <- get_wf ;;
  l <- get_live ;;
  c <- get_ctx ;;
  log (EvRepair w step (str_exn e) c) ;;;
  r <- extern (h w l step (str_exn e) c) ;;
  set_wf (fst r) ;;;
  set_live (snd r) ;;;
  step0 <- lift (match nth_error (steps (fst r)) i with
                 | Some s0 => Ok s0
                 | None => Raise (mk_exn IndexError)
                 end) ;;
  step' <- lift (_render_step (env o) c step0) ;;
  log (EvPostRepairAttempt step') ;;;
  attempt_after_repair o step' e ;;;
  ret step'.

(** What the handler of the retry loop does once the retries are used up. *)
Definition after_retries (o : Orchestrator) (i : nat) (step : Step) (e : exn)
  : M (option exn * Step) :=
  match repair_hook o with
  | Some h => step' <- repair o h i step e ;; ret (None, step')
  | None => reraise e
  end.

(** Lines 135-216: [for attempt in range(step.policy.retries + 1)], entered at
    iteration [attempt] with [remaining] iterations to go.  The result is
    [last_err] and [step] as the loop leaves them. *)
Fixpoint retry_loop (o : Orchestrator) (i : nat) (step : Step)
         (last_err : option exn) (attempt remaining : nat)
  : M (option exn * Step) :=
  match remaining with
  | O => ret (last_err, step)
  | S remaining' =>
      log (EvAttempt attempt step) ;;;
      try_except
        (attempt_body o step ;;; ret (None, step))
        (fun e =>
           if (Z.of_nat attempt <? retries (policy step))%Z then
             sleep float_backoff ;;;
             retry_loop o i step (Some e) (S attempt) remaining'
           else after_retries o i step e)
  end.

(** Lines 132-219: one iteration of the loop over the steps. *)
Definition run_step (o : Orchestrator) (i : nat) (step0 : Step) : M unit :=
  c <- get_ctx ;;
  step <- lift (_render_step (env o) c step0) ;;
  r <- retry_loop o i step None 0 (Z.to_nat (retries (policy step) + 1)) ;;
  c' <- get_ctx ;;
  match fst r with
  | Some e => if negb (dict_in (id (snd r)) (ctx_steps c')) then reraise e else ret tt
  | None => ret tt
  end.

(** [for i, step0 in enumerate(wf.steps)], from index [i] on: the iterator
    holds the list object and reads it anew at every turn, so it sees what a
    repair hook has left in it, and it stops at the first index past its end.
    A hook that makes the list grow can keep the loop going for ever; [fuel]
    bounds the turns that are followed. *)
Fixpoint run_steps (fuel : nat) (o : Orchestrator) (i : nat) : M unit :=
  match fuel with
  | O => out_of_fuel
  | S fuel' =>
      l <- get_live ;;
      match nth_error l i with
      | None => ret tt
      | Some step0 => run_step o i step0 ;;; run_steps fuel' o (S i)
      end
  end.

(** [Orchestrator.run(wf, inputs)] in the world [w]. *)
Definition run (o : Orchestrator) (fuel : nat) (wf0 : WorkflowSpec) (inputs0 : dict)
           (w : W RT) : outcome dict * state * list event :=
  (run_steps fuel o 0 ;;; get_ctx)
    (mkState w wf0 (steps wf0) (dict_set "steps" (VDict []) inputs0)).

End Engine.

(** The events of the call of a capability for [step]: none (a check failed
    first), or the one call. *)
Definition call_events (step : Step) (evs : list event) : Prop :=
  evs = [] \/ evs = [EvWebRun step] \/ evs = [EvDesktopRun step] \/
  exists secs, evs = [EvSleep secs].

(** The events of failed attempts number [a], [a+1], ... of the retry loop on
    [step], given the events of each attempt: every attempt but the last is
    followed by the backoff. *)
Fixpoint attempts_trace (step : Step) (a : nat) (bodies : list (list event))
  : list event :=
  match bodies with
  | [] => []
  | b :: bs =>
      EvAttempt a step :: b ++
      match bs with
      | [] => []
      | _ => EvSleep float_backoff :: attempts_trace step (S a) bs
      end
  end.

(** The iterations of the retry loop that a trace shows. *)
Fixpoint attempts_of (evs : list event) : list (nat * Step) :=
  match evs with
  | [] => []
  | EvAttempt a step :: r => (a, step) :: attempts_of r
  | _ :: r => attempts_of r
  end.

(** The assignments to [ctx["steps"]] that a trace shows. *)
Fixpoint commits_of (evs : list event) : list (string * pyval) :=
  match evs with
  | [] => []
  | EvCommit k out :: r => (k, VDict out) :: commits_of r
  | _ :: r => commits_of r
  end.

(** The calls of the repair hook that a trace shows. *)
Fixpoint repairs_of (evs : list event) : list event :=
  match evs with
  | [] => []
  | EvRepair w st m c :: r => EvRepair w st m c :: repairs_of r
  | _ :: r => repairs_of r
  end.

Arguments world {RT} s.
Arguments wf {RT} s.
Arguments live {RT} s.
Arguments ctx {RT} s.
Arguments mkState {RT} world wf live ctx.
Arguments web_exec {RT} o.
Arguments desktop_exec {RT} o.
Arguments repair_hook {RT} o.
Arguments env {RT} o.
Arguments mkOrchestrator {RT} web_exec desktop_exec repair_hook env.

(** Every attempt on [step] fails in the stage of the capability and of the
    validation, whatever the outside world is like. *)
Definition always_fails (RT : Runtime) (o : Orchestrator RT) (step : Step) : Prop :=
  forall s : state RT, exists e, fst (fst (attempt_stage RT o step s)) = Raise e.

(** [print] returns: the standard output can be written to. *)
Definition print_returns (RT : Runtime) : Prop :=
  forall (out : dict) (w : W RT), fst (print_outputs RT out w) = Ok tt.

(** The backoff [time.sleep(0.3)] returns. *)
Definition backoff_returns (RT : Runtime) : Prop :=
  forall w : W RT, fst (time_sleep RT float_backoff w) = Ok tt.

(** The repair hook leaves the step ids as they are, in the workflow it
    returns and in the list that the loop walks. *)
Definition hook_keeps_ids (RT : Runtime) (o : Orchestrator RT) : Prop :=
  forall (h : hook RT) (w0 w1 : WorkflowSpec) (l0 l1 : list Step) (st : Step)
         (m : message) (c : dict) (x x' : W RT),
    repair_hook o = Some h ->
    h w0 l0 st m c x = (Ok (w1, l1), x') ->
    map id (steps w1) = map id (steps w0) /\ map id l1 = map id l0.

(** The repair hook leaves the list that the loop walks as it is. *)
Definition hook_keeps_list (RT : Runtime) (o : Orchestrator RT) : Prop :=
  forall (h : hook RT) (w0 w1 : WorkflowSpec) (l0 l1 : list Step) (st : Step)
         (m : message) (c : dict) (x x' : W RT),
    repair_hook o = Some h ->
    h w0 l0 st m c x = (Ok (w1, l1), x') ->
    l1 = l0.

(** The trace shows an attempt on [st]: an iteration of the retry loop, or the
    attempt after a repair. *)
Definition attempted (st : Step) (evs : list event) : Prop :=
  (exists a, In (EvAttempt a st) evs) \/ In (EvPostRepairAttempt st) evs.

(** [out] is what the validation made of a mapping [raw] that the capability
    returned for [st] in an attempt that the trace shows, and it passed
    [verify]. *)
Definition checked_output (RT : Runtime) (o : Orchestrator RT) (evs : list event)
           (st : Step) (out : dict) : Prop :=
  attempted st evs /\
  exists (raw : pyval) (s1 s2 : state RT) (cevs : list event),
    (dispatch RT o st s1 = (Ok raw, s2, cevs) \/
     dispatch_after_repair RT o st s1 = (Ok raw, s2, cevs)) /\
    _validate_outputs RT st raw = Ok out /\
    verify st out = Ok tt.

(** What one iteration of the loop over the steps can do to the context:
    nothing, or one assignment under the id of the step, of a mapping that
    passed validation and [verify]. *)
Definition stored_once {RT : Runtime} (o : Orchestrator RT) (step_id : string)
           (s s' : state RT) (evs : list event) : Prop :=
  exists st out,
    id st = step_id /\
    checked_output RT o evs st out /\
    ctx s' = ctx_store (ctx s) step_id out /\
    commits_of evs = [(step_id, VDict out)].

Definition untouched {RT : Runtime} (s s' : state RT) (evs : list event) : Prop :=
  ctx s' = ctx s /\ commits_of evs = [].

(** An entry of [ctx["steps"]] that went through validation and [verify]: the
    validated output of an attempt of the run on a step with that id. *)
Definition checked_entry (RT : Runtime) (o : Orchestrator RT) (evs : list event)
           (kv : string * pyval) : Prop :=
  exists st out,
    id st = fst kv /\ snd kv = VDict out /\ checked_output RT o evs st out.

End Orchestrator.

(* ================================================================== *)
(** ** llm_json.py *)

Module LLMJson.

(** Exceptions, as far as the client looks at them: [JSONGuardrailError] with
    its message, or any other exception with its [str]. *)
Inductive error : Type :=
| JSONGuardrailError (msg : string)
| OtherError (text : string).

Definition str_error (e : error) : string :=
  match e with
  | JSONGuardrailError msg => msg
  | OtherError text => text
  end.

Inductive result (A : Type) : Type :=
| Return (a : A)
| Throw (e : error).
Arguments Return {A} a.
Arguments Throw {A} e.

Definition nl : string := String (ascii_of_nat 10) EmptyString.

(** [UserContent = Union[str, Sequence[ContentPart]]] *)
Inductive UserContent : Type :=
| UCStr (s : string)
| UCParts (parts : list pyval).

Record Message : Type := mkMessage {
  role : string;
  content : UserContent
}.

Definition _as_input (system : string) (user_content : UserContent) : list Message :=
  let user_msg :=
    match user_content with
    | UCStr s => mkMessage "user" (UCStr s)
    | UCParts parts => mkMessage "user" (UCParts parts)
    end in
  [mkMessage "system" (UCStr system); user_msg].

Record JSONCallConfig : Type := mkJSONCallConfig {
  model : string;
  retries : Z;
  strict_schema : bool;
  max_output_tokens : option Z;
  top_p : option spec_float;
  store : option bool
}.

(** [text={"format": {...}}] *)
Record TextFormat : Type := mkTextFormat {
  format_type : string;
  format_name : option string;
  format_strict : bool;
  format_schema : dict
}.

(** The keyword arguments of [responses.create]. *)
Record Request : Type := mkRequest {
  req_model : string;
  req_input : list Message;
  req_text : option TextFormat;
  req_max_output_tokens : option Z;
  req_top_p : option spec_float;
  req_store : option bool
}.

(** What the client reads of a response: [output_parsed] and [output_text],
    each None when the attribute is missing or None. *)
Record Response : Type := mkResponse {
  output_parsed : option pyval;
  output_text : option string
}.

Definition _create_request (cfg : JSONCallConfig) (system : string)
           (user_content : UserContent) (schema_name : option string)
           (schema : option dict) : Request :=
  mkRequest (model cfg)
            (_as_input system user_content)
            (match schema with
             | Some (kv :: r) =>
                 Some (mkTextFormat "json_schema" schema_name (strict_schema cfg) (kv :: r))
             | _ => None
             end)
            (max_output_tokens cfg) (top_p cfg) (store cfg).

(** [str(last_err)], with None for no error yet. *)
Definition str_last_err (last_err : option error) : string :=
  match last_err with
  | Some e => str_error e
  | None => "None"
  end.

(** Lines 118-128 *)
Definition repair_prefix (attempt : nat) (last_err : option error)
           (last_text : option string) (extra_repair_instructions : option string)
  : string :=
  match attempt with
  | O => ""
  | S _ =>
      ("Your previous output failed validation." ++ nl ++
       "Validation error:" ++ nl ++ str_last_err last_err ++ nl ++ nl ++
       "Return ONLY corrected JSON that matches the schema." ++ nl ++
       match extra_repair_instructions with
       | Some (String c x) =>
           nl ++ "Extra constraints:" ++ nl ++ String c x ++ nl
       | _ => ""
       end ++
       match last_text with
       | Some (String c x) =>
           nl ++ "Previous invalid output:" ++ nl ++ String c x ++ nl
       | _ => ""
       end)%string
  end.

(** Lines 131-138 *)
Definition prepend_repair (prefix : string) (user_content : UserContent) : UserContent :=
  match user_content with
  | UCStr s => UCStr (prefix ++ s)%string
  | UCParts parts =>
      UCParts ((match prefix with
                | EmptyString => []
                | _ => [VDict [("type", VStr "input_text"); ("text", VStr prefix)]]
                end) ++ parts)
  end.

(** Lines 118-146: the request of iteration [attempt], given what the
    previous iteration left in [last_err] and [last_text]. *)
Definition request_at (cfg : JSONCallConfig) (system : string)
           (user_content : UserContent) (schema_name : option string)
           (json_schema : option dict) (extra_repair_instructions : option string)
           (attempt : nat) (last_err : option error) (last_text : option string)
  : Request :=
  _create_request cfg system
                  (prepend_repair
                     (repair_prefix attempt last_err last_text extra_repair_instructions)
                     user_content)
                  schema_name json_schema.

(** How one iteration of the loop ends. *)
Inductive attempt_end (T : Type) : Type :=
| Validated (v : T)                                (* [return validator(parsed)] *)
| Failed (last_err : error) (last_text : string)   (* [continue] *)
| Crashed (e : error).                             (* [responses.create] raised *)
Arguments Validated {T} v.
Arguments Failed {T} last_err last_text.
Arguments Crashed {T} e.

Section Caller.
Variable World : Type.
Variable T : Type.
(** [client.responses.create] applied to the keyword arguments *)
Variable create : Request -> World -> result Response * World.
(** [json.loads] *)
Variable json_loads : string -> result pyval.

(** Line 150: [(getattr(resp, "output_text", "") or "").strip()] *)
Definition response_text (resp : Response) : string :=
  strip (match output_text resp with Some x => x | None => "" end).

(** Lines 149-158: the parsed output if the response has one, else the text
    through [json.loads]. *)
Definition response_parsed (resp : Response) (text : string) : result pyval :=
  match output_parsed resp with
  | Some VNone | None =>
      match json_loads text with
      | Return p => Return p
      | Throw e =>
          Throw (JSONGuardrailError ("JSON parse failed: " ++ str_error e)%string)
      end
  | Some p => Return p
  end.

(** Lines 152-168: what becomes of the parsed output. *)
Definition judge (validator : dict -> World -> result T * World)
           (text : string) (parsed : result pyval) (w : World)
  : attempt_end T * World :=
  match parsed with
  | Throw e => (Failed e text, w)
  | Return (VDict d) =>
      match validator d w with
      | (Return v, w') => (Validated v, w')
      | (Throw e, w') => (Failed e text, w')
      end
  | Return p =>
      (Failed (JSONGuardrailError
                 ("Expected JSON object, got <class '" ++ type_name p ++ "'>")%string)
              text,
       w)
  end.

(** Lines 118-168: one iteration; the request it sends and how it ends. *)
Definition attempt_once (cfg : JSONCallConfig) (system : string)
           (user_content : UserContent) (schema_name : option string)
           (json_schema : option dict)
           (validator : dict -> World -> result T * World)
           (extra_repair_instructions : option string)
           (last_err : option error) (last_text : option string) (attempt : nat)
           (w : World) : Request * attempt_end T * World :=
  let req := request_at cfg system user_content schema_name json_schema
                        extra_repair_instructions attempt last_err last_text in
  match create req w with
  | (Throw e, w1) => (req, Crashed e, w1)
  | (Return resp, w1) =>
      let text := response_text resp in
      let (en, w2) := judge validator text (response_parsed resp text) w1 in
      (req, en, w2)
  end.

(** How an iteration can end: with the validator's value; failed because the
    text did not parse, or the parsed value is no object, or the validator
    raised; or with the exception of the request itself. *)
Definition explained (validator : dict -> World -> result T * World)
           (en : attempt_end T) : Prop :=
  match en with
  | Validated v => exists d w1 w2, validator d w1 = (Return v, w2)
  | Failed err text =>
      (exists e, json_loads text = Throw e /\
                 err = JSONGuardrailError ("JSON parse failed: " ++ str_error e)%string) \/
      (exists pv, (forall d, pv <> VDict d) /\
                  err = JSONGuardrailError
                          ("Expected JSON object, got <class '" ++ type_name pv ++ "'>")%string) \/
      (exists d w1 w2, validator d w1 = (Throw err, w2))
  | Crashed e => exists rq w1 w2, create rq w1 = (Throw e, w2)
  end.



(** The message of the error that ends an exhausted loop. *)
Definition exhausted_message (cfg : JSONCallConfig) (last_err : option error) : string :=
  ("Failed to produce valid JSON after " ++ str_of_Z (retries cfg + 1) ++
   " attempts. Last error: " ++ str_last_err last_err)%string.

(** [for attempt in range(cfg.retries + 1)], from iteration [attempt] on, with
    the list of the iterations made. *)
Fixpoint attempts (cfg : JSONCallConfig) (system : string)
         (user_content : UserContent) (schema_name : option string)
         (json_schema : option dict)
         (validator : dict -> World -> result T * World)
         (extra_repair_instructions : option string)
         (last_err : option error) (last_text : option string)
         (attempt remaining : nat) (w : World)
  : result T * World * list (Request * attempt_end T) :=
  match remaining with
  | O => (Throw (JSONGuardrailError (exhausted_message cfg last_err)), w, [])
  | S remaining' =>
      match attempt_once cfg system user_content schema_name json_schema validator
                         extra_repair_instructions last_err last_text attempt w with
      | (req, Validated v, w') => (Return v, w', [(req, Validated v)])
      | (req, Crashed e, w') => (Throw e, w', [(req, Crashed e)])
      | (req, Failed e text, w') =>
          match attempts cfg system user_content schema_name json_schema validator
                         extra_repair_instructions (Some e) (Some text)
                         (S attempt) remaining' w' with
          | (r, w'', tr) => (r, w'', (req, Failed e text) :: tr)
          end
      end
  end.

(** [LLMJsonCaller.call_json] *)
Definition call_json (cfg : JSONCallConfig) (system : string)
           (user_content : UserContent) (schema_name : option string)
           (json_schema : option dict)
           (validator : dict -> World -> result T * World)
           (extra_repair_instructions : option string) (w : World)
  : result T * World * list (Request * attempt_end T) :=
  attempts cfg system user_content schema_name json_schema validator
           extra_repair_instructions None None 0 (Z.to_nat (retries cfg + 1)) w.

End Caller.

(** A list of iterations in which each request is the one of its iteration,
    built from the error and the text the iteration before it failed with. *)
Fixpoint chained {T : Type}
         (req_at : nat -> option error -> option string -> Request)
         (attempt : nat) (last_err : option error) (last_text : option string)
         (tr : list (Request * attempt_end T)) : Prop :=
  match tr with
  | [] => True
  | re :: tl =>
      fst re = req_at attempt last_err last_text /\
      match tl with
      | [] => True
      | _ => exists err text,
               snd re = Failed err text /\
               chained req_at (S attempt) (Some err) (Some text) tl
      end
  end.

(** How the last iteration of a list ended. *)
Fixpoint last_end {T : Type} (tr : list (Request * attempt_end T))
  : option (attempt_end T) :=
  match tr with
  | [] => None
  | re :: tl =>
      match tl with
      | [] => Some (snd re)
      | _ => last_end tl
      end
  end.

End LLMJson.

(* ================================================================== *)
(** ** The specification's vocabulary *)

Module Spec.

(** The zero value of a declared primitive type. *)
Definition zero_value (ty : string) : option pyval :=
  if String.eqb ty "string" then Some (VStr "")
  else if String.eqb ty "path" then Some (VStr "")
  else if String.eqb ty "number" then Some (VFloat float_zero)
  else if String.eqb ty "boolean" then Some (VBool false)
  else None.

(** A value of the declared primitive type: a string for string and path, a
    float for number, a boolean for boolean. *)
Definition has_declared_type (ty : string) (v : pyval) : bool :=
  match v with
  | VStr _ => orb (String.eqb ty "string") (String.eqb ty "path")
  | VFloat _ => String.eqb ty "number"
  | VBool _ => String.eqb ty "boolean"
  | _ => false
  end.

(** [a] occurs in [b]. *)
Definition embeds (a b : string) : Prop :=
  exists p q : string, b = (p ++ a ++ q)%string.

End Spec.
Export Spec.

(* ================================================================== *)
(** ** A small world to run the engine in *)

Import Orchestrator.

Module Fixtures.

(** A runtime with no outside state: the clock stands still, sleeping returns
    at once, and no string reads as a float. *)
Definition still_runtime : Runtime :=
  mkRuntime unit
            (fun w => (float_zero, w))
            (fun _ w => (Ok tt, w))
            (fun _ => None)
            (fun _ => None)
            (fun _ => "0.0")
            true
            (fun _ w => (Ok tt, w)).

Definition plain_step (i ty g : string) (inp : pyval)
           (schema : list (string * string)) (r : Z) (hint : string) : Step :=
  mkStep i ty g inp schema [] (mkStepPolicy 12 60 r) hint None [].

Definition start (wf0 : WorkflowSpec) (inputs0 : dict) : state still_runtime :=
  mkState (RT := still_runtime) tt wf0 (steps wf0) (dict_set "steps" (VDict []) inputs0).

(** A capability that raises on every call, and one that returns [{}]. *)
Definition failing_capability : capability still_runtime :=
  fun _ w => (Raise (mk_exn (External "boom")), w).

Definition empty_capability : capability still_runtime :=
  fun _ w => (Ok (VDict []), w).

Definition strict_env : Environment := mkEnvironment (Some StrictUndefined) false.

(** A repair hook that returns the workflow as it got it. *)
Definition same_workflow_hook : hook still_runtime :=
  fun wf0 l _ _ _ w => (Ok (wf0, l), w).

(** A WEB step with a task, two retries. *)
Definition web_step : Step :=
  plain_step "web_1" "WEB" "search" (VDict [("task", VStr "{{ user_text }}")])
             [("url", "string")] 2 "auto".

Definition web_step_rendered : Step :=
  plain_step "web_1" "WEB" "search" (VDict [("task", VStr "pizza")])
             [("url", "string")] 2 "auto".

Definition web_workflow : WorkflowSpec := mkWorkflowSpec "demo" "" [] [web_step].

(** The specification's two-step workflow: wait a second, then search. *)
Definition wait_step : Step :=
  plain_step "wait_1" "WAIT" "wait" (VDict [("seconds", VInt 1)])
             [("waited_seconds", "number")] 0 "auto".

Definition two_step_workflow : WorkflowSpec :=
  mkWorkflowSpec "demo" "" [("user_text", "string")] [wait_step; web_step].

End Fixtures.
Export Fixtures.

(* ================================================================== *)
(** ** Reading a trace and a context *)

Module Trace.

(** A call of the web or of the desktop capability. *)
Definition is_call (ev : event) : bool :=
  match ev with
  | EvWebRun _ | EvDesktopRun _ => true
  | _ => false
  end.

(** The start of the attempt that follows a repair. *)
Definition is_post_attempt (ev : event) : bool :=
  match ev with
  | EvPostRepairAttempt _ => true
  | _ => false
  end.


(** How many events of a kind a trace shows. *)
Definition count (p : event -> bool) (evs : list event) : nat :=
  List.length (filter p evs).

(** What a statement of [run] may do to the context: nothing, or one
    assignment to [ctx["steps"]]. *)
Definition ctx_step (c c' : dict) : Prop :=
  c' = c \/ exists k out, c' = ctx_store c k out.

(** The context after the assignments that a trace shows, made in order. *)
Definition replay (c : dict) (commits : list (string * pyval)) : dict :=
  fold_left (fun acc kv =>
               match snd kv with
               | VDict out => ctx_store acc (fst kv) out
               | _ => acc
               end) commits c.

(** Two values of the same shape: the same keys in the same order, lists of
    the same length, a string where there is a string, and everything that is
    no string, list or mapping the same. *)
Fixpoint same_shape (v v' : pyval) {struct v} : Prop :=
  match v, v' with
  | VStr _, VStr _ => True
  | VList l, VList l' =>
      (fix go (l l' : list pyval) {struct l} : Prop :=
         match l, l' with
         | [], [] => True
         | x :: r, x' :: r' => same_shape x x' /\ go r r'
         | _, _ => False
         end) l l'
  | VDict d, VDict d' =>
      (fix go (d d' : list (string * pyval)) {struct d} : Prop :=
         match d, d' with
         | [], [] => True
         | kx :: r, kx' :: r' =>
             fst kx = fst kx' /\ same_shape (snd kx) (snd kx') /\ go r r'
         | _, _ => False
         end) d d'
  | VStr _, _ | VList _, _ | VDict _, _ => False
  | _, _ => v = v'
  end.

(** The iterations of the retry loop that the policies of the steps allow in
    all. *)
Definition budget (l : list Step) : nat :=
  list_sum (map (fun st => Z.to_nat (retries (policy st) + 1)) l).

(** The context [c'] holds what [c] holds under every key but [steps], with
    the keys in the same order. *)
Definition same_inputs (c c' : dict) : Prop :=
  dict_keys c' = dict_keys c /\
  forall k, k <> "steps" -> dict_get k c' = dict_get k c.

End Trace.
Export Trace.

(* ================================================================== *)
(** ** More worlds to run the engine in *)

Module Worlds.

(** A runtime whose clock moves on by 100 seconds at every reading. *)
Definition ticking_runtime : Runtime :=
  mkRuntime Z
            (fun w => (binary_normalize prec emax w 0 false, (w + 100)%Z))
            (fun _ w => (Ok tt, w))
            (fun _ => None)
            (fun _ => None)
            (fun _ => "0.0")
            true
            (fun _ w => (Ok tt, w)).

(** A capability that returns [{"url": "x"}] whatever the step. *)
Definition steady_capability : capability ticking_runtime :=
  fun _ w => (Ok (VDict [("url", VStr "x")]), w).

(** A repair hook that answers with a workflow without steps. *)
Definition dropping_hook : hook still_runtime :=
  fun wf0 l _ _ _ w =>
    (Ok (mkWorkflowSpec (name wf0) (created_at_iso wf0) (wf_inputs wf0) [], l), w).

(** A capability that returns a list. *)
Definition list_capability : capability still_runtime :=
  fun _ w => (Ok (VList []), w).

(** A runtime whose standard output is closed: [print] raises. *)
Definition mute_runtime : Runtime :=
  mkRuntime unit
            (fun w => (float_zero, w))
            (fun _ w => (Ok tt, w))
            (fun _ => None)
            (fun _ => None)
            (fun _ => "0.0")
            true
            (fun _ w => (Raise (mk_exn (External "I/O operation on closed file.")), w)).

(** Two steps [a] and [b]; a capability that serves every step but [b]; and
    a repair hook that answers with the two steps in the other order. *)
Definition step_a : Step :=
  plain_step "a" "WEB" "first" (VDict [("task", VStr "one")]) [] 0 "auto".

Definition step_b : Step :=
  plain_step "b" "WEB" "second" (VDict [("task", VStr "two")]) [] 0 "auto".

Definition guarded_capability : capability still_runtime :=
  fun st w => if String.eqb (id st) "b"
              then (Raise (mk_exn (External "boom")), w)
              else (Ok (VDict []), w).

Definition renaming_hook : hook still_runtime :=
  fun wf0 l _ _ _ w =>
    (Ok (mkWorkflowSpec (name wf0) (created_at_iso wf0) (wf_inputs wf0) [step_b; step_a],
         l), w).

(** A runtime whose world is the list of the sleeps made, the last one
    first. *)
Definition sleeping_runtime : Runtime :=
  mkRuntime (list spec_float)
            (fun w => (float_zero, w))
            (fun secs w => (Ok tt, secs :: w))
            (fun _ => None)
            (fun _ => None)
            (fun _ => "0.0")
            true
            (fun _ w => (Ok tt, w)).

End Worlds.
Export Worlds.

(* ================================================================== *)
(** ** llm_segmenter.py *)

Module Segmenter.
Import LLMJson.

Record SegmenterConfig : Type := mkSegmenterConfig {
  seg_model : string;
  sample_fps : option spec_float;
  sample_every_s : spec_float;
  max_frames : Z;
  max_w : Z;
  jpeg_quality : Z;
  target_min_segments : Z;
  target_max_segments : Z
}.

(** [isinstance(v, (int, float))] of [s.get(key)]: a bool is an int. *)
Definition is_number (v : option pyval) : bool :=
  match v with
  | Some (VInt _) | Some (VFloat _) | Some (VBool _) => true
  | _ => false
  end.

(** The [AttributeError] of [s.get] on something that is no mapping. *)
Definition no_get (v : pyval) : error :=
  OtherError ("'" ++ type_name v ++ "' object has no attribute 'get'")%string.

(** The loop of [_validate_visual]: the first segment that raises. *)
Fixpoint visual_loop (segs : list pyval) : option error :=
  match segs with
  | [] => None
  | s :: r =>
      match s with
      | VDict sd =>
          if orb (negb (is_number (dict_get "t_start" sd)))
                 (negb (is_number (dict_get "t_end" sd)))
          then Some (OtherError "t_start/t_end must be numbers")
          else visual_loop r
      | _ => Some (no_get s)
      end
  end.

Definition _validate_visual (d : dict) : result dict :=
  match dict_get "segments" d with
  | Some (VList (x :: r)) =>
      match visual_loop (x :: r) with
      | Some e => Throw e
      | None => Return d
      end
  | _ => Throw (OtherError "segments must be a non-empty list")
  end.

Definition surfaces : list string := ["WEB"; "DESKTOP"; "WAIT"; "AUTO"].

(** [v in ("WEB", "DESKTOP", "WAIT", "AUTO")] of [s.get("surface")] *)
Definition is_surface (v : option pyval) : bool :=
  match v with
  | Some (VStr x) => str_in x surfaces
  | _ => false
  end.

(** [isinstance(v, list) and v] of [s.get("merge_of")] *)
Definition is_nonempty_list (v : option pyval) : bool :=
  match v with
  | Some (VList (_ :: _)) => true
  | _ => false
  end.

Fixpoint aligned_loop (segs : list pyval) : option error :=
  match segs with
  | [] => None
  | s :: r =>
      match s with
      | VDict sd =>
          if negb (is_surface (dict_get "surface" sd))
          then Some (OtherError "invalid surface")
          else if negb (is_nonempty_list (dict_get "merge_of" sd))
          then Some (OtherError "merge_of must be non-empty list")
          else aligned_loop r
      | _ => Some (no_get s)
      end
  end.

Definition _validate_aligned (d : dict) : result dict :=
  match dict_get "segments" d with
  | Some (VList (x :: r)) =>
      match aligned_loop (x :: r) with
      | Some e => Throw e
      | None => Return d
      end
  | _ => Throw (OtherError "segments must be a non-empty list")
  end.

Section Segmenting.
Variable World : Type.
(** [client.responses.create], [json.loads], [json.dumps(obj,
    ensure_ascii=False)], the format [{t:.3f}], and the sampling of the video
    (OpenCV), which yields the frames as time stamp and data URL. *)
Variable create : Request -> World -> result Response * World.
Variable json_loads : string -> result pyval.
Variable json_dumps : pyval -> string.
Variable format_3f : spec_float -> string.
Variable sample_video_frames :
  string -> SegmenterConfig -> World -> result (list (spec_float * string)) * World.
(** The module's constants: the two prompts, the two schemas, and the text
    of the executor catalogue. *)
Variable SYSTEM_VISUAL : string.
Variable SYSTEM_ALIGN : string.
Variable VISUAL_SCHEMA : dict.
Variable ALIGNED_SCHEMA : dict.
Variable executor_catalog_text : string.

Definition opt_str (s : option string) : pyval :=
  match s with
  | Some x => VStr x
  | None => VNone
  end.

Definition call_cfg (cfg : SegmenterConfig) : JSONCallConfig :=
  mkJSONCallConfig (seg_model cfg) 2 true None None None.

Definition visual_meta (cfg : SegmenterConfig) (user_text : option string)
           (frames : list (spec_float * string)) : pyval :=
  VDict [("user_text", opt_str user_text);
         ("target_min_segments", VInt (target_min_segments cfg));
         ("target_max_segments", VInt (target_max_segments cfg));
         ("frames", VList (map (fun f => VDict [("t", VFloat (fst f))]) frames))].

Definition frame_parts (f : spec_float * string) : list pyval :=
  [VDict [("type", VStr "input_text");
          ("text", VStr ("frame_t=" ++ format_3f (fst f))%string)];
   VDict [("type", VStr "input_image"); ("image_url", VStr (snd f))]].

Definition visual_content (cfg : SegmenterConfig) (user_text : option string)
           (frames : list (spec_float * string)) : list pyval :=
  VDict [("type", VStr "input_text");
         ("text", VStr (json_dumps (visual_meta cfg user_text frames)))]
  :: flat_map frame_parts frames.

(** What a phase yields: its result, the world it leaves, and the requests
    it made. *)
Definition phase : Type := result dict * World * list (Request * attempt_end dict).

(** [LLMSegmenter._segment_visual] *)
Definition _segment_visual (cfg : SegmenterConfig) (video_path : string)
           (user_text : option string) (w : World) : phase :=
  match sample_video_frames video_path cfg w with
  | (Throw e, w1) => (Throw e, w1, [])
  | (Return frames, w1) =>
      call_json World dict create json_loads (call_cfg cfg) SYSTEM_VISUAL
                (UCParts (visual_content cfg user_text frames))
                (Some "VisualSegments") (Some VISUAL_SCHEMA)
                (fun d w' => (_validate_visual d, w')) None w1
  end.

Definition align_payload (visual_segments : dict) (user_text : option string) : pyval :=
  VDict [("user_text", opt_str user_text);
         ("executor_catalog_text", VStr executor_catalog_text);
         ("visual_segments", VDict visual_segments)].

(** [LLMSegmenter._align_to_executors] *)
Definition _align_to_executors (cfg : SegmenterConfig) (visual_segments : dict)
           (user_text : option string) (w : World) : phase :=
  call_json World dict create json_loads (call_cfg cfg) SYSTEM_ALIGN
            (UCStr (json_dumps (align_payload visual_segments user_text)))
            (Some "AlignedSegments") (Some ALIGNED_SCHEMA)
            (fun d w' => (_validate_aligned d, w')) None w.

(** [LLMSegmenter.segment]: the result, the world, and the requests of the
    two phases. *)
Definition segment (cfg : SegmenterConfig) (video_path : string)
           (user_text : option string) (w : World)
  : result dict * World * list (Request * attempt_end dict)
      * list (Request * attempt_end dict) :=
  match _segment_visual cfg video_path user_text w with
  | (Throw e, w1, tr1) => (Throw e, w1, tr1, [])
  | (Return visual, w1, tr1) =>
      let '(r, w2, tr2) := _align_to_executors cfg visual user_text w1 in
      (r, w2, tr1, tr2)
  end.

End Segmenting.

End Segmenter.

(* ================================================================== *)
(** ** executors/macos_ax_desktop_executor.py *)

Module Desktop.
Import LLMJson.

(** [0.05], [0.1], [0.15], [0.2] and [0.6] as binary64. *)
Definition float_005 : spec_float := S754_finite false 7205759403792794 (-57).
Definition float_01 : spec_float := S754_finite false 7205759403792794 (-56).
Definition float_015 : spec_float := S754_finite false 5404319552844595 (-55).
Definition float_02 : spec_float := S754_finite false 7205759403792794 (-55).
Definition float_06 : spec_float := S754_finite false 5404319552844595 (-53).

(** The double quote, which the scripts are full of. *)
Definition dq : string := String (ascii_of_nat 34) EmptyString.

(** [bool(v)] *)
Definition truthy (v : pyval) : bool :=
  match v with
  | VNone => false
  | VBool b => b
  | VInt z => negb (z =? 0)%Z
  | VFloat f => negb (SFeqb f float_zero)
  | VStr s => negb (String.eqb s "")
  | VList l => match l with [] => false | _ => true end
  | VDict d => match d with [] => false | _ => true end
  end.

(** [a or b] *)
Definition py_or (a b : pyval) : pyval := if truthy a then a else b.

(** [d.get(k)] *)
Definition get (k : string) (d : dict) : pyval :=
  match dict_get k d with
  | Some v => v
  | None => VNone
  end.

(** [v == s] for a string literal [s] *)
Definition is_str (v : pyval) (s : string) : bool :=
  match v with
  | VStr x => String.eqb x s
  | _ => false
  end.

(** What the module takes from outside: Python's [str], the four string
    methods it uses, [json.dumps] with and without [ensure_ascii=False], the
    codec [unicode_escape],
    [subprocess.run] of [osascript -e script] (return code, stdout, stderr),
    [int] of a string, the three accessibility calls, the client of the
    planner, [json.loads], and the two long constants of the module: the
    planner's prompt and the JSON schema of [DesktopActionPlan]. *)
Record Host (RT : Runtime) : Type := mkHost {
  str_of : pyval -> string;
  upper : string -> string;
  lower_of : string -> string;
  isalpha : string -> bool;
  len : string -> nat;
  json_dumps : pyval -> string;
  json_dumps_raw : pyval -> string;
  unicode_escape : string -> outcome string;
  subprocess_run : string -> W RT -> outcome (Z * string * string) * W RT;
  int_of_str : string -> option Z;
  AXElem : Type;
  ax_focused : Z -> W RT -> (Z * option AXElem) * W RT;
  ax_set_value : AXElem -> string -> W RT -> Z * W RT;
  ax_press : AXElem -> W RT -> Z * W RT;
  responses_create : Request -> W RT -> result Response * W RT;
  json_loads : string -> result pyval;
  PLANNER_SYSTEM : string;
  PLAN_SCHEMA : dict
}.
Arguments str_of {RT} h v.
Arguments upper {RT} h s.
Arguments lower_of {RT} h s.
Arguments isalpha {RT} h s.
Arguments len {RT} h s.
Arguments json_dumps {RT} h v.
Arguments json_dumps_raw {RT} h v.
Arguments unicode_escape {RT} h s.
Arguments subprocess_run {RT} h script w.
Arguments int_of_str {RT} h s.
Arguments AXElem {RT} h.
Arguments ax_focused {RT} h pid w.
Arguments ax_set_value {RT} h elem value w.
Arguments ax_press {RT} h elem w.
Arguments responses_create {RT} h rq w.
Arguments json_loads {RT} h s.
Arguments PLANNER_SYSTEM {RT} h.
Arguments PLAN_SCHEMA {RT} h.

Record DesktopPlannerConfig : Type := mkDesktopPlannerConfig {
  planner_model : string;
  planner_max_actions : Z
}.

(** The names of the modifier keys, upper-cased. *)
Definition modifier_names : list string :=
  ["CMD"; "COMMAND"; "CTRL"; "CONTROL"; "ALT"; "OPTION"; "SHIFT"].

Section Planner.
Variable RT : Runtime.
Variable H : Host RT.

(** [any(str(k).upper() == "SHIFT" for k in keys)] *)
Definition want_shift (keys : list string) : bool :=
  existsb (fun k => String.eqb (upper H k) "SHIFT") keys.

(** The condition under which the planner's validator turns a key down, and
    under which [_keystroke] lower-cases it (there without the last
    conjunct). *)
Definition is_single_letter (k : string) (shift : bool) : bool :=
  andb (Nat.eqb (len H k) 1) (andb (isalpha H k) (negb shift)).

(** Lines 244-251: the loop over the keys of one keystroke action. *)
Fixpoint check_keys (keys : list pyval) (shift : bool) : option error :=
  match keys with
  | [] => None
  | k :: r =>
      if str_in (upper H (str_of H k)) modifier_names then check_keys r shift
      else if andb (is_single_letter (str_of H k) shift)
                   (negb (String.eqb (str_of H k) (lower_of H (str_of H k))))
      then Some (OtherError
                   "Letter keystroke keys must be lowercase unless SHIFT is explicitly included")
      else check_keys r shift
  end.

(** Lines 236-251: the loop over the actions. *)
Fixpoint check_actions (actions : list pyval) : option error :=
  match actions with
  | [] => None
  | a :: r =>
      match a with
      | VDict ad =>
          if is_str (get "type" ad) "keystroke" then
            match get "keys" ad with
            | VList (k :: ks) =>
                match check_keys (k :: ks)
                                 (want_shift (map (str_of H) (k :: ks))) with
                | Some e => Some e
                | None => check_actions r
                end
            | _ => Some (OtherError "keystroke requires keys array")
            end
          else check_actions r
      | _ => Some (OtherError "Each action must be an object")
      end
  end.

(** [_validate_planner_output(data, max_actions)], for the mapping that
    [call_json] hands to its validator. *)
Definition _validate_planner_output (data : dict) (max_actions : Z) : result dict :=
  match get "actions" data with
  | VList (a :: r) =>
      if (max_actions <? Z.of_nat (List.length (a :: r)))%Z
      then Throw (OtherError ("Too many actions: "
                              ++ str_of_Z (Z.of_nat (List.length (a :: r)))
                              ++ " > " ++ str_of_Z max_actions)%string)
      else match check_actions (a :: r) with
           | Some e => Throw e
           | None => Return data
           end
  | _ => Throw (OtherError "Planner output must include non-empty actions list")
  end.

(** Statements that act on the outside world. *)
Definition X (A : Type) : Type := W RT -> outcome A * W RT.

Definition xret {A : Type} (a : A) : X A := fun w => (Ok a, w).

Definition xbind {A B : Type} (m : X A) (k : A -> X B) : X B :=
  fun w =>
    match m w with
    | (Ok a, w') => k a w'
    | (Raise e, w') => (Raise e, w')
    | (OutOfModel, w') => (OutOfModel, w')
    end.

Definition xraise {A : Type} (m : message) : X A := fun w => (Raise (mk_exn m), w).

Definition xlift {A : Type} (o : outcome A) : X A := fun w => (o, w).

(** [time.sleep(secs)] *)
Definition xsleep (secs : spec_float) : X unit := time_sleep RT secs.

Notation "x <- m ;; k" := (xbind m (fun x => k))
  (at level 61, m at next level, right associativity).
Notation "m ;;; k" := (xbind m (fun _ => k))
  (at level 61, right associativity).

(** [_osascript(script)]; the [print] of the script is left out. *)
Definition _osascript (script : string) : X string :=
  decoded <- xlift (unicode_escape H script) ;;
  p <- subprocess_run H decoded ;;
  let '(returncode, stdout, stderr) := p in
  if negb (returncode =? 0)%Z
  then xraise (External ("osascript failed: " ++ strip stderr)%string)
  else xret (strip stdout).

Definition system_events : string :=
  ("tell application " ++ dq ++ "System Events" ++ dq)%string.

Definition _spotlight_open : X unit :=
  _osascript (system_events ++ " to key code 49 using {command down}")%string ;;;
  xsleep float_02.

Definition _spotlight_launch (query : string) : X unit :=
  _osascript (system_events ++ nl ++
              "  keystroke " ++ json_dumps H (VStr query) ++ nl ++
              "  key code 36" ++ nl ++
              "end tell")%string ;;;
  xsleep float_06.

Definition _activate_app (app : string) : X unit :=
  _osascript ("tell application " ++ json_dumps H (VStr app) ++ " to activate")%string ;;;
  xsleep float_backoff.

(** The modifier that a key stands for, if it is one. *)
Definition modifier (ku : string) : option string :=
  if str_in ku ["CMD"; "COMMAND"] then Some "command down"
  else if str_in ku ["CTRL"; "CONTROL"] then Some "control down"
  else if str_in ku ["ALT"; "OPTION"] then Some "option down"
  else if String.eqb ku "SHIFT" then Some "shift down"
  else None.

(** Lines 80-92: the modifiers in order, and the last key that is none. *)
Fixpoint keystroke_loop (keys : list string) (mods : list string) (key : option string)
  : list string * option string :=
  match keys with
  | [] => (mods, key)
  | k :: r =>
      match modifier (upper H k) with
      | Some m => keystroke_loop r (mods ++ [m]) key
      | None => keystroke_loop r mods (Some k)
      end
  end.

(** Lines 97-99 *)
Definition normalize_key (key : string) (shift : bool) : string :=
  if is_single_letter key shift then lower_of H key else key.

(** Lines 77-105: the script that [_keystroke] runs. *)
Definition keystroke_script (keys : list string) : outcome string :=
  let shift := want_shift keys in
  match keystroke_loop keys [] None with
  | (_, None) => Raise (mk_exn (External "keystroke requires a non-modifier key"))
  | (mods, Some key) =>
      let mods_part :=
        match mods with
        | [] => ""
        | _ => (" using {" ++ String.concat ", " mods ++ "}")%string
        end in
      Ok (system_events ++ " to keystroke "
          ++ json_dumps H (VStr (normalize_key key shift)) ++ mods_part)%string
  end.

Definition _keystroke (keys : list string) : X unit :=
  script <- xlift (keystroke_script keys) ;;
  _osascript script ;;;
  xsleep float_01.

Definition _type_text (text : string) : X unit :=
  _osascript (system_events ++ " to keystroke " ++ json_dumps H (VStr text))%string ;;;
  xsleep float_01.

Definition _paste_text (text : string) : X unit :=
  _osascript ("set the clipboard to " ++ json_dumps H (VStr text))%string ;;;
  xsleep float_005 ;;;
  _keystroke ["CMD"; "v"] ;;;
  xsleep float_015.

Definition _frontmost_app_name : X string :=
  _osascript (system_events
              ++ " to get name of first application process whose frontmost is true")%string.

(** [_front_window_title]: any exception becomes the empty title. *)
Definition _front_window_title (app_name : string) : X string :=
  fun w =>
    match _osascript (system_events ++ " to tell process "
                      ++ json_dumps H (VStr app_name)
                      ++ " to get title of front window")%string w with
    | (Raise _, w') => (Ok "", w')
    | r => r
    end.

Definition _focused_ui_element (app_name : pyval) : X (option (AXElem H)) :=
  out <- _osascript (system_events
                     ++ " to get unix id of first process whose name is "
                     ++ json_dumps H app_name)%string ;;
  match int_of_str H out with
  | None => xraise (External "invalid literal for int() with base 10")
  | Some pid =>
      fun w =>
        let '((err, focused), w') := ax_focused H pid w in
        (Ok (if negb (err =? 0)%Z then None else focused), w')
  end.

Definition _ax_set_value (elem : AXElem H) (value : string) : X unit :=
  fun w =>
    let '(err, w') := ax_set_value H elem value w in
    if negb (err =? 0)%Z
    then (Raise (mk_exn (External ("AX set value failed: " ++ str_of_Z err)%string)), w')
    else (Ok tt, w').

Definition _ax_press (elem : AXElem H) : X unit :=
  fun w =>
    let '(err, w') := ax_press H elem w in
    if negb (err =? 0)%Z
    then (Raise (mk_exn (External ("AX press failed: " ++ str_of_Z err)%string)), w')
    else (Ok tt, w').

(** [time.sleep(max(0.0, sleep_s))], the end of every branch of
    [_run_action]. *)
Definition rest (sleep_s : spec_float) : X unit :=
  xsleep (float_max float_zero sleep_s).

(** [MacOSAXDesktopExecutor._run_action] *)
Definition _run_action (action : pyval) (app_name : pyval) : X unit :=
  match action with
  | VDict a =>
      let t := get "type" a in
      sleep_s <- xlift (py_float RT (match dict_get "sleep" a with
                                     | Some v => v
                                     | None => VFloat float_005
                                     end)) ;;
      if is_str t "spotlight_open" then
        _spotlight_open ;;; rest sleep_s
      else if is_str t "spotlight_launch" then
        let q := get "query" a in
        if negb (truthy q) then xraise (External "spotlight_launch requires query")
        else _spotlight_launch (str_of H q) ;;; rest sleep_s
      else if is_str t "activate_app" then
        let app := py_or (get "app" a) app_name in
        if negb (truthy app) then xraise (External "activate_app requires app")
        else _activate_app (str_of H app) ;;; rest sleep_s
      else if is_str t "keystroke" then
        match get "keys" a with
        | VList (k :: ks) => _keystroke (map (str_of H) (k :: ks)) ;;; rest sleep_s
        | _ => xraise (External "keystroke requires keys array")
        end
      else if is_str t "type_text" then
        match get "text" a with
        | VNone => xraise (External "type_text requires text")
        | txt => _type_text (str_of H txt) ;;; rest sleep_s
        end
      else if is_str t "paste_text" then
        match get "text" a with
        | VNone => xraise (External "paste_text requires text")
        | txt => _paste_text (str_of H txt) ;;; rest sleep_s
        end
      else if is_str t "set_focused_value" then
        match get "value" a with
        | VNone => xraise (External "set_focused_value requires value")
        | val =>
            if negb (truthy app_name)
            then xraise (External
                           "set_focused_value requires an app (inputs.app or planner app)")
            else
              focused <- _focused_ui_element app_name ;;
              match focused with
              | None => xraise (External "No focused UI element")
              | Some elem => _ax_set_value elem (str_of H val) ;;; rest sleep_s
              end
        end
      else if is_str t "press_focused" then
        if negb (truthy app_name)
        then xraise (External "press_focused requires an app (inputs.app or planner app)")
        else
          focused <- _focused_ui_element app_name ;;
          match focused with
          | None => xraise (External "No focused UI element")
          | Some elem => _ax_press elem ;;; rest sleep_s
          end
      else xraise (External ("Unsupported action type: " ++ str_of H t)%string)
  | v => xraise (NoGetAttribute (type_name v))
  end.

(** [for a in actions: self._run_action(a, app_hint)] *)
Fixpoint run_actions (actions : list pyval) (app_hint : pyval) : X unit :=
  match actions with
  | [] => xret tt
  | a :: r => _run_action a app_hint ;;; run_actions r app_hint
  end.

Definition extra_repair_instructions : string :=
  ("Return ONLY JSON. Keep action count <= max_actions. " ++
   "All letter keys in keystroke must be lowercase unless SHIFT is explicitly included.")%string.

(** Lines 276-280: the task, from the inputs or from the goal. *)
Definition planner_task (step : Step) : string :=
  let task :=
    match inputs step with
    | VDict d => strip (str_of H (py_or (get "task" d) (VStr "")))
    | _ => ""
    end in
  if String.eqb task "" then strip (goal step) else task.

Definition planner_payload (pc : DesktopPlannerConfig) (step : Step) (app_hint : pyval)
  : pyval :=
  VDict [("task", VStr (planner_task step));
         ("app_hint", app_hint);
         ("expected_outputs", VDict (map (fun kt => (fst kt, VStr (snd kt)))
                                         (outputs_schema step)));
         ("postconditions", VList (postconditions step));
         ("max_actions", VInt (planner_max_actions pc))].

(** [MacOSAXDesktopExecutor._plan_actions_from_task], with the requests it
    made. *)
Definition _plan_actions_from_task (pc : DesktopPlannerConfig) (step : Step)
           (app_hint : pyval) (w : W RT)
  : result dict * W RT * list (Request * attempt_end dict) :=
  call_json (W RT) dict (responses_create H) (json_loads H)
            (mkJSONCallConfig (planner_model pc) 2 true None None None)
            (PLANNER_SYSTEM H)
            (UCStr (json_dumps_raw H (planner_payload pc step app_hint)))
            (Some "DesktopActionPlan") (Some (PLAN_SCHEMA H))
            (fun d w' => (_validate_planner_output d (planner_max_actions pc), w'))
            (Some extra_repair_instructions) w.

(** The value made for a declared output that cannot be observed. *)
Definition blank (typ : string) : pyval :=
  if String.eqb typ "number" then VFloat float_zero
  else if String.eqb typ "boolean" then VBool false
  else VStr "".

(** Lines 311-322: the loop of [_make_outputs]. *)
Fixpoint make_outputs_loop (front_app : string) (schema : list (string * string))
         (out : dict) : X dict :=
  match schema with
  | [] => xret out
  | (k, typ) :: r =>
      if str_in k ["front_app"; "frontmost_app"] then
        make_outputs_loop front_app r (dict_set k (VStr front_app) out)
      else if str_in k ["window_title"; "front_window_title"] then
        title <- _front_window_title front_app ;;
        make_outputs_loop front_app r (dict_set k (VStr title) out)
      else make_outputs_loop front_app r (dict_set k (blank typ) out)
  end.

(** [MacOSAXDesktopExecutor._make_outputs] *)
Definition _make_outputs (step : Step) : X dict :=
  front_app <- _frontmost_app_name ;;
  make_outputs_loop front_app (outputs_schema step) [].

(** Lines 326-338: the actions to run and the application they are for, from
    the inputs or from the planner. *)
Definition plan (pc : DesktopPlannerConfig) (step : Step) : X (list pyval * pyval) :=
  let inputs := py_or (inputs step) (VDict []) in
  let app_hint :=
    match inputs with
    | VDict d => py_or (get "app" d) (get "app_name" d)
    | _ => VNone
    end in
  match inputs with
  | VDict d =>
      match get "actions" d with
      | VList l => xret (l, app_hint)
      | _ => fun w =>
          match _plan_actions_from_task pc step app_hint w with
          | (Return planned, w', _) =>
              (Ok (match py_or (get "actions" planned) (VList []) with
                   | VList l => l
                   | _ => []
                   end,
                   if andb (truthy (get "app" planned)) (negb (truthy app_hint))
                   then VStr (str_of H (get "app" planned)) else app_hint), w')
          | (Throw e, w', _) => (Raise (mk_exn (External (str_error e))), w')
          end
      end
  | _ => fun w =>
      match _plan_actions_from_task pc step app_hint w with
      | (Return planned, w', _) =>
          (Ok (match py_or (get "actions" planned) (VList []) with
               | VList l => l
               | _ => []
               end,
               if andb (truthy (get "app" planned)) (negb (truthy app_hint))
               then VStr (str_of H (get "app" planned)) else app_hint), w')
      | (Throw e, w', _) => (Raise (mk_exn (External (str_error e))), w')
      end
  end.

(** [MacOSAXDesktopExecutor.run] *)
Definition run (pc : DesktopPlannerConfig) (step : Step) : X pyval :=
  pa <- plan pc step ;;
  run_actions (fst pa) (snd pa) ;;;
  out <- _make_outputs step ;;
  xret (VDict out).

End Planner.

(** The string methods on ASCII text. *)
Definition ascii_upper_char (c : ascii) : ascii :=
  let n := nat_of_ascii c in
  if andb (Nat.leb 97 n) (Nat.leb n 122) then ascii_of_nat (n - 32) else c.

Fixpoint ascii_upper (s : string) : string :=
  match s with
  | EmptyString => EmptyString
  | String c r => String (ascii_upper_char c) (ascii_upper r)
  end.

Definition ascii_letter (c : ascii) : bool :=
  let n := nat_of_ascii c in
  orb (andb (Nat.leb 65 n) (Nat.leb n 90)) (andb (Nat.leb 97 n) (Nat.leb n 122)).

Definition ascii_isalpha (s : string) : bool :=
  match s with
  | EmptyString => false
  | _ => all_chars ascii_letter s
  end.

(** A desktop on which every script succeeds and prints [Notes], for a
    runtime without outside state. *)
Definition quiet_host : Host still_runtime :=
  mkHost still_runtime
         (fun v => match py_str still_runtime v with Some s => s | None => "" end)
         ascii_upper lower ascii_isalpha String.length
         (fun v => match v with
                   | VStr s => (dq ++ s ++ dq)%string
                   | _ => "null"
                   end)
         (fun v => match v with
                   | VStr s => (dq ++ s ++ dq)%string
                   | _ => "null"
                   end)
         (fun s => Ok s)
         (fun _ w => (Ok (0%Z, "Notes", ""), w))
         (fun _ => None)
         unit
         (fun _ w => ((0%Z, None), w))
         (fun _ _ w => (0%Z, w))
         (fun _ w => (0%Z, w))
         (fun _ w => (Throw (OtherError "offline"), w))
         (fun _ => Throw (OtherError "no JSON"))
         "planner"
         [].

End Desktop.

(* ================================================================== *)
(** ** test_step.py *)

Module TestStep.

(** [get_step_by_id]: the first step with the id. *)
Fixpoint find_step (l : list Step) (step_id : string) : option Step :=
  match l with
  | [] => None
  | step :: r => if String.eqb (id step) step_id then Some step else find_step r step_id
  end.

Definition get_step_by_id (wf : WorkflowSpec) (step_id : string) : outcome Step :=
  match find_step (steps wf) step_id with
  | Some step => Ok step
  | None =>
      Raise (mk_exn (External ("Step '" ++ step_id ++ "' not found in workflow")%string))
  end.

(** The loop of [build_runtime_inputs] over [wf.inputs.items()]. *)
Fixpoint build_loop (user_inputs : dict) (declared : list (string * string))
         (runtime : dict) : dict :=
  match declared with
  | [] => runtime
  | (key, _) :: r =>
      build_loop user_inputs r
                 (dict_set key
                           (match dict_get key user_inputs with
                            | Some v => v
                            | None => VNone
                            end)
                           runtime)
  end.

Definition build_runtime_inputs (user_inputs : dict) (wf : WorkflowSpec) : dict :=
  build_loop user_inputs (wf_inputs wf) [].

(** The context that [test_step] renders with. *)
Definition test_ctx (wf : WorkflowSpec) (user_inputs : dict)
           (previous_outputs : option dict) : dict :=
  [("inputs", VDict (build_runtime_inputs user_inputs wf));
   ("steps", VDict (match previous_outputs with
                    | Some d => d
                    | None => []
                    end))].

Section Tool.
Variable RT : Runtime.
(** The executors the tool builds and runs:
    [BrowserUseWebExecutor(use_cloud=False)], [PlaywrightWebExecutor()] and
    [MacOSAXDesktopExecutor()]. *)
Variable browser_use : capability RT.
Variable playwright : capability RT.
Variable desktop_ax : capability RT.

(** Lines 116-148: the body of the [try], up to [outputs]. *)
Definition execute (step : Step) (w : W RT) : outcome pyval * W RT :=
  if String.eqb (type step) "WEB" then
    let hint := if String.eqb (executor_hint step) "" then "auto"
                else executor_hint step in
    if str_in hint ["auto"; "browser_use"] then browser_use step w
    else if String.eqb hint "playwright" then playwright step w
    else browser_use step w
  else if String.eqb (type step) "DESKTOP" then desktop_ax step w
  else if String.eqb (type step) "WAIT" then
    match wait_seconds RT step with
    | Ok seconds =>
        match time_sleep RT seconds w with
        | (Ok _, w') => (Ok (VDict [("waited_seconds", VFloat seconds)]), w')
        | (Raise e, w') => (Raise e, w')
        | (OutOfModel, w') => (OutOfModel, w')
        end
    | Raise e => (Raise e, w)
    | OutOfModel => (OutOfModel, w)
    end
  else (Raise (mk_exn (External ("Unknown step type: " ++ type step)%string)), w).

(** [test_step]: the outputs of the step, or None when running it raised;
    the printing is left out. *)
Definition test_step (wf : WorkflowSpec) (step_id : string) (user_inputs : dict)
           (previous_outputs : option dict) (w : W RT)
  : outcome (option pyval) * W RT :=
  match get_step_by_id wf step_id with
  | Ok step0 =>
      let ctx := test_ctx wf user_inputs previous_outputs in
      match obind (Environment_new RT (Some StrictUndefined) false) (fun env =>
            obind (render_string RT env ctx (goal step0)) (fun rendered_goal =>
            obind (render_templates RT env ctx (inputs step0)) (fun rendered_inputs =>
            Ok (mkStep (id step0) (type step0) rendered_goal rendered_inputs
                       (outputs_schema step0) (postconditions step0) (policy step0)
                       (executor_hint step0) (evidence step0) (fallbacks step0)))))
      with
      | Ok step =>
          match execute step w with
          | (Ok outputs, w') => (Ok (Some outputs), w')
          | (Raise _, w') => (Ok None, w')
          | (OutOfModel, w') => (OutOfModel, w')
          end
      | Raise e => (Raise e, w)
      | OutOfModel => (OutOfModel, w)
      end
  | Raise e => (Raise e, w)
  | OutOfModel => (OutOfModel, w)
  end.

End Tool.

End TestStep.

(* ================================================================== *)
(** ** cli.py *)

Module Cli.
Import LLMJson.

(** What the commands take from outside: Python's [str] and [int],
    [json.loads] and [json.dumps], the path operator, the file system, the
    loading of a workflow file, the two executors the run command builds, the
    segmenter's requests and frames, and its constants. *)
Record Host (RT : Runtime) : Type := mkHost {
  str_of : pyval -> string;
  int_of_str : string -> option Z;
  json_loads : string -> outcome pyval;
  json_dumps : pyval -> string;
  join : string -> string -> string;
  path_exists : string -> W RT -> bool;
  ensure_dir : string -> W RT -> outcome unit * W RT;
  read_workflow : string -> W RT -> outcome WorkflowSpec * W RT;
  write_text : string -> string -> W RT -> outcome unit * W RT;
  web_exec : capability RT;
  desktop_exec : capability RT;
  responses_create : Request -> W RT -> result Response * W RT;
  response_loads : string -> result pyval;
  segment_dumps : pyval -> string;
  format_3f : spec_float -> string;
  sample_video_frames :
    string -> Segmenter.SegmenterConfig -> W RT
    -> result (list (spec_float * string)) * W RT;
  SYSTEM_VISUAL : string;
  SYSTEM_ALIGN : string;
  VISUAL_SCHEMA : dict;
  ALIGNED_SCHEMA : dict;
  executor_catalog_text : string
}.
Arguments str_of {RT} h v.
Arguments int_of_str {RT} h s.
Arguments json_loads {RT} h s.
Arguments json_dumps {RT} h v.
Arguments join {RT} h a b.
Arguments path_exists {RT} h p w.
Arguments ensure_dir {RT} h p w.
Arguments read_workflow {RT} h p w.
Arguments write_text {RT} h p text w.
Arguments web_exec {RT} h.
Arguments desktop_exec {RT} h.
Arguments responses_create {RT} h rq w.
Arguments response_loads {RT} h s.
Arguments segment_dumps {RT} h v.
Arguments format_3f {RT} h f.
Arguments sample_video_frames {RT} h p cfg w.
Arguments SYSTEM_VISUAL {RT} h.
Arguments SYSTEM_ALIGN {RT} h.
Arguments VISUAL_SCHEMA {RT} h.
Arguments ALIGNED_SCHEMA {RT} h.
Arguments executor_catalog_text {RT} h.


Record CompileArgs : Type := mkCompileArgs {
  compile_run : string;
  skip_segment : bool;
  segment_model : string;
  arg_sample_fps : string;
  arg_max_frames : string;
  arg_image_max_w : string;
  compile_text : option string
}.



Section Commands.
Variable RT : Runtime.
Variable H : Host RT.




(** The configuration that [cmd_compile] builds from its arguments:
    [float] and [int] of the strings, the defaults for the rest. *)
Definition compile_cfg (args : CompileArgs) : outcome Segmenter.SegmenterConfig :=
  match float_of_str RT (arg_sample_fps args) with
  | None => Raise (mk_exn (FloatConversion "str"))
  | Some fps =>
      match int_of_str H (arg_max_frames args), int_of_str H (arg_image_max_w args) with
      | Some frames, Some width =>
          Ok (Segmenter.mkSegmenterConfig (segment_model args) (Some fps)
                (S754_finite false 4503599627370496 (-51)) frames width 60 4 12)
      | _, _ => Raise (mk_exn (External "invalid literal for int() with base 10"))
      end
  end.

(** [segment_video(video_path, user_text, cfg)], which returns the segments:
    the two phases of the segmenter. *)
Definition segment_video (video_path : string) (user_text : option string)
           (cfg : Segmenter.SegmenterConfig) (w : W RT) : outcome dict * W RT :=
  match Segmenter.segment (W RT) (responses_create H) (response_loads H)
                          (segment_dumps H) (format_3f H) (sample_video_frames H)
                          (SYSTEM_VISUAL H) (SYSTEM_ALIGN H) (VISUAL_SCHEMA H)
                          (ALIGNED_SCHEMA H) (executor_catalog_text H)
                          cfg video_path user_text w with
  | (Return d, w', _, _) => (Ok d, w')
  | (Throw e, w', _, _) => (Raise (mk_exn (External (str_error e))), w')
  end.

(** [cmd_compile], lines 39-58; [rest] stands for lines 60-96: the
    preprocessing, the compilation and the writing of the workflow. *)
Definition cmd_compile (args : CompileArgs)
           (rest : string -> W RT -> outcome unit * W RT) (w : W RT)
  : outcome unit * W RT :=
  let run_dir := compile_run args in
  match ensure_dir H run_dir w with
  | (Ok _, w1) =>
      let video_path := join H run_dir "screen.mp4" in
      if negb (path_exists H video_path w1)
      then (Raise (mk_exn (External ("Missing " ++ video_path)%string)), w1)
      else
        let segments_path := join H run_dir "segments.json" in
        let segmented :=
          if negb (skip_segment args) then
            match compile_cfg args with
            | Ok cfg =>
                match segment_video video_path (compile_text args) cfg w1 with
                | (Ok _, w2) => (Ok tt, w2)
                | (Raise e, w2) => (Raise e, w2)
                | (OutOfModel, w2) => (OutOfModel, w2)
                end
            | Raise e => (Raise e, w1)
            | OutOfModel => (OutOfModel, w1)
            end
          else (Ok tt, w1) in
        match segmented with
        | (Ok _, w2) =>
            if negb (path_exists H segments_path w2)
            then (Raise (mk_exn (External ("Missing " ++ segments_path
                     ++ ". Run 'segment' or compile without --skip-segment.")%string)),
                  w2)
            else rest segments_path w2
        | (Raise e, w2) => (Raise e, w2)
        | (OutOfModel, w2) => (OutOfModel, w2)
        end
  | (Raise e, w1) => (Raise e, w1)
  | (OutOfModel, w1) => (OutOfModel, w1)
  end.

End Commands.

(** A runtime without outside state in which every string reads as 1.0. *)
Definition reading_runtime : Runtime :=
  mkRuntime unit
            (fun w => (float_zero, w))
            (fun _ w => (Ok tt, w))
            (fun _ => Some float_one)
            (fun _ => Some float_one)
            (fun _ => "1.0")
            true
            (fun _ w => (Ok tt, w)).

(** A machine for that runtime: its only file is the recording
    [runs/demo1/screen.mp4], and the model answers every request with
    [answer] if there is one, and is out of reach otherwise. *)
Definition lab_host (answer : option pyval) : Host reading_runtime :=
  mkHost reading_runtime
         (fun v => match py_str reading_runtime v with Some s => s | None => "" end)
         (fun _ => Some 1%Z)
         (fun _ => Raise (mk_exn (External "no JSON")))
         (fun _ => "{}")
         (fun a b => (a ++ "/" ++ b)%string)
         (fun p _ => String.eqb p "runs/demo1/screen.mp4")
         (fun _ w => (Ok tt, w))
         (fun _ w => (Raise (mk_exn (External "no such file")), w))
         (fun _ _ w => (Ok tt, w))
         (fun _ w => (Ok (VDict []), w))
         (fun _ w => (Ok (VDict []), w))
         (fun _ w => (match answer with
                      | Some v => Return (mkResponse (Some v) None)
                      | None => Throw (OtherError "offline")
                      end, w))
         (fun _ => Throw (OtherError "no JSON"))
         (fun _ => "{}")
         (fun _ => "0.000")
         (fun _ _ w => (Return [], w))
         "visual" "align" [] [] "".

(** An answer that both validators of the segmenter accept. *)
Definition one_segment : pyval :=
  VDict [("segments",
          VList [VDict [("id", VStr "s1"); ("t_start", VInt 0); ("t_end", VInt 9);
                        ("surface", VStr "WEB"); ("summary", VStr "search");
                        ("key_timestamps", VList []);
                        ("merge_of", VList [VStr "v1"])]])].

End Cli.

(* ================================================================== *)
(** ** compiler_llm.py *)

Module CompilerLlm.
Import LLMJson.

(** [[A-Za-z0-9_\-]] *)
Definition is_word (c : ascii) : bool :=
  let n := nat_of_ascii c in
  orb (andb (Nat.leb 65 n) (Nat.leb n 90))
      (orb (andb (Nat.leb 97 n) (Nat.leb n 122))
           (orb (andb (Nat.leb 48 n) (Nat.leb n 57))
                (orb (Nat.eqb n 95) (Nat.eqb n 45)))).

(** A literal of the pattern: the text after it, if it is there. *)
Fixpoint after_prefix (p s : string) : option string :=
  match p with
  | EmptyString => Some s
  | String a p' =>
      match s with
      | String b s' => if Ascii.eqb a b then after_prefix p' s' else None
      | EmptyString => None
      end
  end.

(** [[A-Za-z0-9_\-]+(?:\.[A-Za-z0-9_\-]+)*], greedy: a dot is taken only
    when a character of the class follows it.  The text matched and the
    rest. *)
Fixpoint dotted (s : string) (in_word : bool) : string * string :=
  match s with
  | EmptyString => (EmptyString, EmptyString)
  | String c r =>
      if is_word c then
        let (p, rest) := dotted r true in (String c p, rest)
      else if andb (Ascii.eqb c "."%char) in_word then
        match r with
        | String d _ =>
            if is_word d then let (p, rest) := dotted r false in (String c p, rest)
            else (EmptyString, s)
        | EmptyString => (EmptyString, s)
        end
      else (EmptyString, s)
  end.

Fixpoint has_dot (s : string) : bool :=
  match s with
  | EmptyString => false
  | String c r => orb (Ascii.eqb c "."%char) (has_dot r)
  end.

(** [\s*\}(?!\})]: the text after the brace. *)
Definition closing (s : string) : option string :=
  match lstrip s with
  | String c rest =>
      if Ascii.eqb c "}"%char then
        match rest with
        | String d _ => if Ascii.eqb d "}"%char then None else Some rest
        | EmptyString => Some rest
        end
      else None
  | EmptyString => None
  end.

(** The first alternative of the group, [user_text], and what follows the
    group. *)
Definition user_text_token (s : string) : option (string * string) :=
  match after_prefix "user_text" s with
  | Some s1 =>
      match closing s1 with
      | Some rest => Some ("user_text", rest)
      | None => None
      end
  | None => None
  end.

(** The second alternative, [steps\.W+(?:\.W+)+] with [W] the class
    above. *)
Definition steps_token (s : string) : option (string * string) :=
  match after_prefix "steps." s with
  | Some s1 =>
      let (p, s2) := dotted s1 false in
      if has_dot p then
        match closing s2 with
        | Some rest => Some (("steps." ++ p)%string, rest)
        | None => None
        end
      else None
  | None => None
  end.

(** [_SINGLE_BRACE_TOKEN] after the opening brace: [\s*], the group, and
    the closing.  The group and the text after the match. *)
Definition token (r : string) : option (string * string) :=
  match user_text_token (lstrip r) with
  | Some m => Some m
  | None => steps_token (lstrip r)
  end.

(** [_SINGLE_BRACE_TOKEN.sub(repl, s)]: one pass from left to right; [prev]
    is the character before the position (for the lookbehind), [skip] the
    number of characters of the last match still to pass over. *)
Fixpoint sub (s : string) (prev : option ascii) (skip : nat) : string :=
  match s with
  | EmptyString => EmptyString
  | String c r =>
      match skip with
      | S k => sub r (Some c) k
      | O =>
          if andb (Ascii.eqb c "{"%char)
                  (negb (match prev with
                         | Some p => Ascii.eqb p "{"%char
                         | None => false
                         end))
          then
            match token r with
            | Some (inner, rest) =>
                ("{{ " ++ strip inner ++ " }}"
                 ++ sub r (Some c) (String.length r - String.length rest))%string
            | None => String c (sub r (Some c) 0)
            end
          else String c (sub r (Some c) 0)
      end
  end.

Definition _normalize_templates_in_str (s : string) : string := sub s None 0.

Fixpoint _walk_and_normalize (obj : pyval) : pyval :=
  match obj with
  | VStr s => VStr (_normalize_templates_in_str s)
  | VList l => VList (map _walk_and_normalize l)
  | VDict d => VDict (map (fun kv => (fst kv, _walk_and_normalize (snd kv))) d)
  | _ => obj
  end.

(** The look-behind of the pattern: the character before is an opening
    brace. *)
Definition looks_back (prev : option ascii) : bool :=
  match prev with
  | Some p => Ascii.eqb p "{"
  | None => false
  end.

(** Two texts that are the same up to their first opening brace: what a
    match attempt can see of a text in which it reaches no second brace. *)
Inductive same_head : string -> string -> Prop :=
| same_head_nil : same_head EmptyString EmptyString
| same_head_brace (r r' : string) :
    same_head (String "{"%char r) (String "{"%char r')
| same_head_cons (c : ascii) (r r' : string) :
    Ascii.eqb c "{"%char = false -> same_head r r' ->
    same_head (String c r) (String c r').

(** No opening brace in the text. *)
Definition no_brace (s : string) : bool :=
  all_chars (fun c => negb (Ascii.eqb c "{"%char)) s.

Definition epoch : string := "1970-01-01T00:00:00Z".

Definition extra_repair_instructions : string :=
  ("Ensure Jinja2 placeholders use double braces {{ ... }} only. " ++
   "Do not use single braces { ... }.")%string.

Section Compile.
Variable World : Type.
(** The client, [json.loads], [json.dumps(obj, ensure_ascii=False)],
    pydantic's [WorkflowSpec.model_validate], [iso_now], [ensure_dir], and the
    constants of the module: the prompt, the JSON schema of [WorkflowSpec] and
    the text of the executor catalogue. *)
Variable create : Request -> World -> result Response * World.
Variable json_loads : string -> result pyval.
Variable json_dumps : pyval -> string.
Variable model_validate : pyval -> result WorkflowSpec.
Variable iso_now : World -> string * World.
Variable ensure_dir : string -> World -> result unit * World.
Variable SYSTEM : string.
Variable workflow_spec_json_schema : pyval.
Variable executor_catalog_text : string.

(** [Compiler._validate_workflow] *)
Definition _validate_workflow (data : dict) (w : World) : result WorkflowSpec * World :=
  match model_validate (_walk_and_normalize (VDict data)) with
  | Return spec =>
      let (created, w1) :=
        if orb (String.eqb (created_at_iso spec) "")
               (String.eqb (created_at_iso spec) epoch)
        then iso_now w
        else (created_at_iso spec, w) in
      (Return (mkWorkflowSpec (if String.eqb (name spec) "" then "workflow"
                               else name spec)
                              created (wf_inputs spec) (steps spec)), w1)
  | Throw e => (Throw e, w)
  end.

(** The [validator] of [compile_from_preprocessed] *)
Definition validator (workflow_name : string) (parsed : dict) (w : World)
  : result WorkflowSpec * World :=
  match _validate_workflow parsed w with
  | (Return spec, w1) =>
      (Return (mkWorkflowSpec workflow_name (created_at_iso spec) (wf_inputs spec)
                              (steps spec)), w1)
  | (Throw e, w1) => (Throw e, w1)
  end.

(** What the validator of [compile_from_preprocessed] lets through. *)
Definition compiled (workflow_name : string) (spec : WorkflowSpec) : Prop :=
  name spec = workflow_name /\
  exists (v : pyval) (spec0 : WorkflowSpec),
    model_validate v = Return spec0 /\
    _walk_and_normalize v = v /\
    steps spec = steps spec0 /\
    wf_inputs spec = wf_inputs spec0 /\
    ((created_at_iso spec = created_at_iso spec0 /\
      created_at_iso spec0 <> EmptyString /\ created_at_iso spec0 <> epoch) \/
     ((created_at_iso spec0 = EmptyString \/ created_at_iso spec0 = epoch) /\
      exists w0, created_at_iso spec = fst (iso_now w0))).

Definition user_payload (workflow_name now : string) (compile_input : pyval) : pyval :=
  VDict [("workflow_name", VStr workflow_name);
         ("created_at_iso", VStr now);
         ("workflow_spec_json_schema", workflow_spec_json_schema);
         ("executor_catalog_text", VStr executor_catalog_text);
         ("compile_input", compile_input)].

(** [Compiler.compile_from_preprocessed], with the requests it made. *)
Definition compile_from_preprocessed (model : string) (compile_input : pyval)
           (workflow_name : string) (debug_dir : option string) (w : World)
  : result WorkflowSpec * World * list (Request * attempt_end WorkflowSpec) :=
  let made :=
    match debug_dir with
    | Some (String c d) => ensure_dir (String c d) w
    | _ => (Return tt, w)
    end in
  match made with
  | (Throw e, w0) => (Throw e, w0, [])
  | (Return _, w0) =>
      let (now, w1) := iso_now w0 in
      call_json World WorkflowSpec create json_loads
                (mkJSONCallConfig model 2 true None None None)
                SYSTEM
                (UCStr (json_dumps (user_payload workflow_name now compile_input)))
                None None (validator workflow_name)
                (Some extra_repair_instructions) w1
  end.

End Compile.

End CompilerLlm.

(* ================================================================== *)
(** * Properties *)

(** ** Mappings *)

Lemma dict_get_set_same {A : Type} (k : string) (v : A) (d : list (string * A)) :
  dict_get k (dict_set k v d) = Some v.
Proof.
  induction d as [|[k' v'] r IH]; simpl.
  - now rewrite String.eqb_refl.
  - destruct (String.eqb k k') eqn:E; simpl.
    + now rewrite String.eqb_refl.
    + now rewrite E.
Qed.

Lemma dict_get_set_other {A : Type} (k k' : string) (v : A) (d : list (string * A)) :
  k <> k' -> dict_get k' (dict_set k v d) = dict_get k' d.
Proof.
  intros Hne. induction d as [|[k0 v0] r IH]; simpl.
  - destruct (String.eqb k' k) eqn:E; [apply String.eqb_eq in E; congruence | reflexivity].
  - destruct (String.eqb k k0) eqn:E; simpl.
    + apply String.eqb_eq in E. subst k0.
      destruct (String.eqb k' k) eqn:E'; [apply String.eqb_eq in E'; congruence | reflexivity].
    + now rewrite IH.
Qed.

Lemma dict_get_none_not_in {A : Type} (k : string) (d : list (string * A)) :
  dict_get k d = None <-> ~ In k (dict_keys d).
Proof.
  induction d as [|[k' v'] r IH]; simpl.
  - tauto.
  - destruct (String.eqb k k') eqn:E.
    + apply String.eqb_eq in E. subst. split; [discriminate | intros H; exfalso; auto].
    + apply String.eqb_neq in E. rewrite IH. split.
      * intros H [H1|H1]; [congruence | auto].
      * intros H H1. apply H. now right.
Qed.

(** Writing a key that is not there appends it. *)
Lemma dict_set_fresh {A : Type} (k : string) (v : A) (d : list (string * A)) :
  dict_get k d = None -> dict_set k v d = d ++ [(k, v)].
Proof.
  induction d as [|[k' v'] r IH]; simpl; [reflexivity|].
  destruct (String.eqb k k'); [discriminate|].
  intros H. now rewrite IH.
Qed.

(** ** Output validation *)

Section ValidationFacts.
Variable RT : Runtime.

Lemma failing_fields_cons (f : string * FieldInfo) (r : list (string * FieldInfo))
      (d : dict) :
  failing_fields RT (f :: r) d = [] ->
  (exists v, validate_field RT d f = Some v) /\ failing_fields RT r d = [].
Proof.
  unfold failing_fields. simpl.
  destruct (validate_field RT d f) as [v|]; simpl; [eauto | discriminate].
Qed.

Lemma validated_fields_keys (fields : list (string * FieldInfo)) (d : dict) :
  failing_fields RT fields d = [] ->
  dict_keys (validated_fields RT fields d) = map fst fields.
Proof.
  induction fields as [|f r IH]; intros H; [reflexivity|].
  apply failing_fields_cons in H. destruct H as [[v Hv] Hr].
  simpl. rewrite Hv. simpl. now rewrite (IH Hr).
Qed.

Lemma validated_fields_get (fields : list (string * FieldInfo)) (d : dict)
      (name : string) (fi : FieldInfo) :
  failing_fields RT fields d = [] ->
  dict_get name fields = Some fi ->
  dict_get name (validated_fields RT fields d) = validate_field RT d (name, fi).
Proof.
  induction fields as [|[n i] r IH]; intros H Hg; [discriminate|].
  apply failing_fields_cons in H. destruct H as [[v Hv] Hr].
  simpl in *. rewrite Hv. simpl.
  destruct (String.eqb name n) eqn:E.
  - apply String.eqb_eq in E. subst n. inversion Hg. subst i. now rewrite Hv.
  - now apply IH.
Qed.

Lemma failing_fields_in (fields : list (string * FieldInfo)) (d : dict)
      (f : string * FieldInfo) :
  In f fields -> validate_field RT d f = None -> failing_fields RT fields d <> [].
Proof.
  intros Hin Hv Hnil.
  induction fields as [|g r IH]; [contradiction|].
  apply failing_fields_cons in Hnil. destruct Hnil as [[v Hg] Hr].
  destruct Hin as [->|Hin]; [congruence | auto].
Qed.

Lemma schema_fields_get (schema : list (string * string)) (name ty : string) :
  dict_get name schema = Some ty ->
  dict_get name (map schema_field schema) = Some (field_info ty).
Proof.
  induction schema as [|[n t0] r IH]; cbn [map dict_get schema_field fst snd];
    [discriminate|].
  destruct (String.eqb name n); [|exact IH].
  intros H. inversion H. reflexivity.
Qed.

Lemma schema_fields_keys (schema : list (string * string)) :
  map fst (map schema_field schema) = dict_keys schema.
Proof. unfold dict_keys. rewrite map_map. now apply map_ext. Qed.


Lemma create_model_fields (n : string) (fields : list (string * FieldInfo))
      (M : OutputModel) :
  create_model n fields = Some M ->
  model_name M = n /\ model_fields M = fields /\
  forallb (fun f => field_name_in_model (fst f)) fields = true.
Proof.
  unfold create_model.
  destruct (no_nul n); cbn [andb]; [|discriminate].
  destruct (forallb _ fields); [|discriminate].
  intros H. inversion H. auto.
Qed.

(** The fields of the generated model when the schema is not empty. *)
Lemma output_model_fields (step : Step) (M : OutputModel) :
  output_model step = Some M ->
  outputs_schema step <> [] ->
  model_fields M = map schema_field (outputs_schema step).
Proof.
  unfold output_model, make_output_model.
  destruct (outputs_schema step); [congruence|].
  intros H _. now apply create_model_fields in H.
Qed.

(** The generated model when the schema is empty. *)
Lemma output_model_empty (step : Step) (M : OutputModel) :
  output_model step = Some M ->
  outputs_schema step = [] ->
  model_fields M = [("ok", (TStr, VStr ""))].
Proof.
  unfold output_model, make_output_model. intros H He. rewrite He in H.
  now apply create_model_fields in H.
Qed.

(** A step whose names [create_model] takes has an output model. *)
Lemma schema_in_model_output (step : Step) :
  schema_in_model step = true -> exists M, output_model step = Some M.
Proof.
  unfold schema_in_model, output_model, make_output_model, create_model.
  intros H. apply andb_prop in H. destruct H as [Hn Hf]. rewrite Hn.
  destruct (outputs_schema step) as [|kv r] eqn:Hs; cbn [andb].
  - cbn. eauto.
  - assert (Hall : forallb (fun f => field_name_in_model (fst f))
                           (map schema_field (kv :: r)) = true).
    { rewrite forallb_forall in *. intros f Hin. apply in_map_iff in Hin.
      destruct Hin as (x & <- & Hx). cbn [schema_field fst]. now apply Hf. }
    rewrite Hall. eauto.
Qed.

(** A validation that gives a result went through a generated model. *)
Lemma _validate_outputs_ok (step : Step) (raw : pyval) (out : dict) :
  _validate_outputs RT step raw = Ok out ->
  exists M d,
    output_model step = Some M /\ raw = VDict d /\
    failing_fields RT (model_fields M) d = [] /\
    out = validated_fields RT (model_fields M) d.
Proof.
  unfold _validate_outputs.
  destruct (output_model step) as [M|]; [|discriminate].
  unfold model_validate. destruct raw; try discriminate.
  destruct (failing_fields RT (model_fields M) d) eqn:Hf; [|discriminate].
  intros H. inversion H. exists M, d. auto.
Qed.

Lemma zero_value_default (ty : string) (z : pyval) :
  zero_value ty = Some z -> snd (field_info ty) = z.
Proof.
  unfold zero_value, field_info.
  destruct (String.eqb ty "string") eqn:E1;
    [apply String.eqb_eq in E1; subst; simpl; congruence|].
  destruct (String.eqb ty "path") eqn:E2;
    [apply String.eqb_eq in E2; subst; simpl; congruence|].
  destruct (String.eqb ty "number") eqn:E3;
    [apply String.eqb_eq in E3; subst; simpl; congruence|].
  destruct (String.eqb ty "boolean") eqn:E4;
    [apply String.eqb_eq in E4; subst; simpl; congruence|].
  discriminate.
Qed.

Lemma declared_type_kept (ty : string) (v : pyval) :
  has_declared_type ty v = true ->
  validate_value RT (fst (field_info ty)) v = Some v.
Proof.
  unfold has_declared_type, field_info.
  destruct v; try discriminate.
  - intros E. apply String.eqb_eq in E. subst. reflexivity.
  - intros E. apply String.eqb_eq in E. subst. reflexivity.
  - intros E. apply orb_true_iff in E.
    destruct E as [E|E]; apply String.eqb_eq in E; subst; reflexivity.
Qed.



End ValidationFacts.

(** ** The engine's monad *)

Ltac run_monad :=
  unfold validate_and_store, commit, sleep, call_web, call_desktop, now, extern,
         log, lift, ret, raise, reraise, bind, try_except,
         get_ctx, get_wf, set_wf, verify in *.

Lemma ctx_steps_store (c : dict) (k : string) (out : dict) :
  ctx_steps (ctx_store c k out) = dict_set k (VDict out) (ctx_steps c).
Proof. unfold ctx_store, ctx_steps at 1. now rewrite dict_get_set_same. Qed.

(** [validate_and_store] either fails in validation and leaves the state as it
    was, or stores the validated mapping under the step's id. *)
Lemma validate_and_store_cases (RT : Runtime) (step : Step) (raw : pyval)
      (s : state RT) :
  validate_and_store RT step raw s =
  match _validate_outputs RT step raw with
  | Ok out =>
      (Ok out, mkState (world s) (wf s) (live s) (ctx_store (ctx s) (id step) out),
       [EvCommit (id step) out])
  | Raise e => (Raise e, s, [])
  | OutOfModel => (OutOfModel, s, [])
  end.
Proof.
  run_monad. destruct (_validate_outputs RT step raw); reflexivity.
Qed.

(** ** C1: the shape of the committed output *)

(** C1, as stated, fails on a step that declares no outputs: the generated
    model then has the one field [ok], so the validated mapping has the key
    [ok] while [outputs_schema] has no key at all. *)
Lemma empty_schema_output_has_ok :
  ~ (forall (step : Step) (d out : dict),
        _validate_outputs still_runtime step (VDict d) = Ok out ->
        dict_keys out = dict_keys (outputs_schema step)).
Proof.
  intros H.
  specialize (H (plain_step "s1" "WAIT" "" (VDict []) [] 0 "auto") [] [("ok", VStr "")]
                eq_refl).
  discriminate H.
Qed.

(** C1 (amended).  When a step's raw outputs [d] validate and are stored, the
    mapping stored under the step's id is the validated one, and it is built
    field by field from [outputs_schema]: a declared field present with the
    declared primitive type is kept as it is, a declared field that is absent
    takes the zero value of its type, an undeclared key is dropped, and the keys
    are exactly those of [outputs_schema] when it is not empty; when it is
    empty the mapping has the single key [ok]. *)
Theorem validated_output_shape (RT : Runtime) (step : Step) (d : dict)
        (s s' : state RT) (out : dict) (evs : list event) :
  validate_and_store RT step (VDict d) s = (Ok out, s', evs) ->
  _validate_outputs RT step (VDict d) = Ok out /\
  dict_get (id step) (ctx_steps (ctx s')) = Some (VDict out) /\
  (outputs_schema step <> [] -> dict_keys out = dict_keys (outputs_schema step)) /\
  (outputs_schema step = [] -> dict_keys out = ["ok"]) /\
  (forall name ty,
      dict_get name (outputs_schema step) = Some ty ->
      (forall v, dict_get name d = Some v -> has_declared_type ty v = true ->
                 dict_get name out = Some v) /\
      (forall z, dict_get name d = None -> zero_value ty = Some z ->
                 dict_get name out = Some z)) /\
  (forall k, outputs_schema step <> [] ->
             dict_get k (outputs_schema step) = None -> dict_get k out = None).
Proof.
  intros Hrun.
  rewrite validate_and_store_cases in Hrun.
  destruct (_validate_outputs RT step (VDict d)) as [out0| |] eqn:Hv;
    inversion Hrun; subst out0 s' evs; clear Hrun.
  split; [reflexivity|]. split.
  { cbn [ctx]. rewrite ctx_steps_store. apply dict_get_set_same. }
  apply _validate_outputs_ok in Hv.
  destruct Hv as (M & d0 & HM & Hd0 & Hf & Hout).
  inversion Hd0. subst d0. clear Hd0.
  split; [|split; [|split]].
  - intros Hne. rewrite Hout, (validated_fields_keys RT _ _ Hf).
    rewrite (output_model_fields step M HM Hne). apply schema_fields_keys.
  - intros He. rewrite Hout, (validated_fields_keys RT _ _ Hf).
    now rewrite (output_model_empty step M HM He).
  - intros name ty Hty.
    assert (Hne : outputs_schema step <> []) by (intros E; rewrite E in Hty; discriminate).
    pose proof (output_model_fields step M HM Hne) as Hm.
    assert (Hget : dict_get name (validated_fields RT (model_fields M) d)
                   = validate_field RT d (name, field_info ty)).
    { apply validated_fields_get; [exact Hf|]. rewrite Hm. now apply schema_fields_get. }
    split.
    + intros v Hd Ht. rewrite Hout, Hget. unfold validate_field. cbn [fst snd].
      rewrite Hd. now apply declared_type_kept.
    + intros z Hd Hz. rewrite Hout, Hget. unfold validate_field. cbn [fst snd].
      rewrite Hd. f_equal. now apply zero_value_default.
  - intros k Hne Hk. apply dict_get_none_not_in.
    rewrite Hout, (validated_fields_keys RT _ _ Hf), (output_model_fields step M HM Hne),
      schema_fields_keys.
    now apply dict_get_none_not_in.
Qed.

(** The specification's example: a declared string field that the capability
    does not return defaults to the empty string. *)
Lemma validated_output_shape_witness :
  let step := plain_step "d1" "DESKTOP" "" (VDict []) [("front_app", "string")] 0 "auto" in
  let s := mkState (RT := still_runtime) tt (mkWorkflowSpec "w" "" [] [step]) [step]
                   [("steps", VDict [])] in
  exists s' evs,
    validate_and_store still_runtime step (VDict []) s
      = (Ok [("front_app", VStr "")], s', evs) /\
    dict_get "d1" (ctx_steps (ctx s')) = Some (VDict [("front_app", VStr "")]).
Proof.
  intros step s. eexists. eexists. split; [reflexivity|].
  exact (proj1 (proj2 (validated_output_shape still_runtime step [] s _ _ _ eq_refl))).
Defined.

(** ** C8: a declared field that does not validate *)




(** ** C10: the WAIT branch *)

Lemma float_max_zero_one : float_max float_zero float_one = float_one.
Proof. reflexivity. Qed.

(** [max(0.0, secs)] is 0.0 for every [secs < 0.0]. *)
Lemma float_max_zero_negative (secs : spec_float) :
  SFltb secs float_zero = true -> float_max float_zero secs = float_zero.
Proof.
  unfold float_max, float_zero, SFltb.
  destruct secs as [sg|sg| |sg m e]; simpl; try discriminate; try reflexivity.
  - destruct sg; [reflexivity | discriminate].
  - destruct sg; [reflexivity | discriminate].
Qed.

(** The WAIT branch once the seconds are known: one call of [time.sleep] with
    the clamped value, then the mapping with the value itself. *)
Lemma run_wait_unfold (RT : Runtime) (step : Step) (secs : spec_float) (s : state RT) :
  wait_seconds RT step = Ok secs ->
  run_wait RT step s =
  (obind (fst (time_sleep RT (float_max float_zero secs) (world s)))
         (fun _ => Ok (VDict [("waited_seconds", VFloat secs)])),
   mkState (snd (time_sleep RT (float_max float_zero secs) (world s)))
           (wf s) (live s) (ctx s),
   [EvSleep (float_max float_zero secs)]).
Proof.
  intros Hs. unfold run_wait. run_monad. rewrite Hs.
  destruct (time_sleep RT (float_max float_zero secs) (world s)) as [[u|e|] w']; reflexivity.
Qed.

(** C10.  In both attempts a WAIT step goes through the same branch.  When its
    inputs have no [seconds] key the engine takes 1.0: it calls [time.sleep]
    once, with 1.0, on the world as it is, leaves the world as that call
    leaves it, and, when the call returns, reports [waited_seconds] = 1.0.
    When the seconds are negative it calls [time.sleep] with 0.0 in the same
    way and reports the negative value itself. *)
Theorem wait_default_and_clamp (RT : Runtime) (o : Orchestrator RT) (step : Step)
        (s : state RT) :
  type step = "WAIT" ->
  dispatch RT o step s = run_wait RT step s /\
  dispatch_after_repair RT o step s = run_wait RT step s /\
  (forall d, inputs step = VDict d -> dict_get "seconds" d = None ->
     wait_seconds RT step = Ok float_one /\
     run_wait RT step s =
     (obind (fst (time_sleep RT float_one (world s)))
            (fun _ => Ok (VDict [("waited_seconds", VFloat float_one)])),
      mkState (snd (time_sleep RT float_one (world s))) (wf s) (live s) (ctx s),
      [EvSleep float_one])) /\
  (forall secs, wait_seconds RT step = Ok secs -> SFltb secs float_zero = true ->
     run_wait RT step s =
     (obind (fst (time_sleep RT float_zero (world s)))
            (fun _ => Ok (VDict [("waited_seconds", VFloat secs)])),
      mkState (snd (time_sleep RT float_zero (world s))) (wf s) (live s) (ctx s),
      [EvSleep float_zero])).
Proof.
  intros Hty.
  split; [unfold dispatch; rewrite Hty; reflexivity|].
  split; [unfold dispatch_after_repair; rewrite Hty; reflexivity|].
  split.
  - intros d Hin Hno.
    assert (Hs : wait_seconds RT step = Ok float_one).
    { unfold wait_seconds. rewrite Hin, Hno. reflexivity. }
    split; [exact Hs|].
    now rewrite (run_wait_unfold RT step float_one s Hs), float_max_zero_one.
  - intros secs Hs Hneg.
    now rewrite (run_wait_unfold RT step secs s Hs), (float_max_zero_negative secs Hneg).
Qed.

(** A WAIT step with empty inputs, and one with [seconds] = -2, in a world
    that keeps the sleeps made: the first sleeps 1.0 and reports 1.0, the
    second sleeps 0.0 and reports -2.0. *)
Lemma wait_default_and_clamp_witness :
  let o := mkOrchestrator (RT := sleeping_runtime)
             (fun _ w => (Ok (VDict []), w)) (fun _ w => (Ok (VDict []), w)) None
             (mkEnvironment (Some StrictUndefined) false) in
  let s0 := mkState (RT := sleeping_runtime) [] (mkWorkflowSpec "w" "" [] []) []
                    [("steps", VDict [])] in
  let a := plain_step "wait_1" "WAIT" "" (VDict []) [] 0 "auto" in
  let b := plain_step "wait_2" "WAIT" "" (VDict [("seconds", VInt (-2))]) [] 0 "auto" in
  let minus_two := S754_finite true 4503599627370496 (-51) in
  dispatch sleeping_runtime o a s0
  = (Ok (VDict [("waited_seconds", VFloat float_one)]),
     mkState (RT := sleeping_runtime) [float_one] (mkWorkflowSpec "w" "" [] []) []
             [("steps", VDict [])],
     [EvSleep float_one]) /\
  dispatch_after_repair sleeping_runtime o b s0
  = (Ok (VDict [("waited_seconds", VFloat minus_two)]),
     mkState (RT := sleeping_runtime) [float_zero] (mkWorkflowSpec "w" "" [] []) []
             [("steps", VDict [])],
     [EvSleep float_zero]).
Proof.
  intros o s0 a b minus_two. split.
  - destruct (wait_default_and_clamp sleeping_runtime o a s0 eq_refl) as [Hd [_ [Hdef _]]].
    rewrite Hd. exact (proj2 (Hdef [] eq_refl eq_refl)).
  - destruct (wait_default_and_clamp sleeping_runtime o b s0 eq_refl) as [_ [Hd [_ Hneg]]].
    rewrite Hd. exact (Hneg minus_two eq_refl eq_refl).
Defined.

(** ** The retry loop *)

Section EngineFacts.
Variable RT : Runtime.
Variable o : Orchestrator RT.

Lemma call_web_frame (step : Step) (s s' : state RT) (r : outcome pyval)
      (evs : list event) :
  call_web RT o step s = (r, s', evs) ->
  wf s' = wf s /\ live s' = live s /\ ctx s' = ctx s /\ evs = [EvWebRun step].
Proof.
  run_monad. destruct (web_exec o step (world s)) as [[a|e|] w'];
    intros H; inversion H; subst; auto.
Qed.

Lemma call_desktop_frame (step : Step) (s s' : state RT) (r : outcome pyval)
      (evs : list event) :
  call_desktop RT o step s = (r, s', evs) ->
  wf s' = wf s /\ live s' = live s /\ ctx s' = ctx s /\ evs = [EvDesktopRun step].
Proof.
  run_monad. destruct (desktop_exec o step (world s)) as [[a|e|] w'];
    intros H; inversion H; subst; auto.
Qed.

Lemma run_wait_frame (step : Step) (s s' : state RT) (r : outcome pyval)
      (evs : list event) :
  run_wait RT step s = (r, s', evs) ->
  wf s' = wf s /\ live s' = live s /\ ctx s' = ctx s /\ call_events step evs.
Proof.
  unfold run_wait. run_monad. unfold call_events.
  destruct (wait_seconds RT step) as [secs|e|].
  - destruct (time_sleep RT (float_max float_zero secs) (world s)) as [[a|e|] w'];
      intros H; inversion H; subst; cbn; eauto 8.
  - intros H; inversion H; subst; auto.
  - intros H; inversion H; subst; auto.
Qed.

Lemma raise_frame {A : Type} (m : message) (s s' : state RT) (r : outcome A)
      (evs : list event) :
  raise RT m s = (r, s', evs) -> s' = s /\ evs = [] /\ r = Raise (mk_exn m).
Proof. unfold raise. intros H. inversion H. auto. Qed.

Lemma dispatch_frame (step : Step) (s s' : state RT) (r : outcome pyval)
      (evs : list event) :
  dispatch RT o step s = (r, s', evs) ->
  wf s' = wf s /\ live s' = live s /\ ctx s' = ctx s /\ call_events step evs.
Proof.
  unfold dispatch.
  repeat match goal with
         | |- context [if ?b then _ else _] => destruct b
         end;
    intros H;
    try (apply raise_frame in H; destruct H as [-> [-> _]]; unfold call_events; auto);
    try (apply call_web_frame in H; unfold call_events; intuition);
    try (apply call_desktop_frame in H; unfold call_events; intuition);
    try (now apply run_wait_frame in H).
Qed.

Lemma dispatch_after_repair_frame (step : Step) (s s' : state RT)
      (r : outcome pyval) (evs : list event) :
  dispatch_after_repair RT o step s = (r, s', evs) ->
  wf s' = wf s /\ live s' = live s /\ ctx s' = ctx s /\ call_events step evs.
Proof.
  unfold dispatch_after_repair.
  repeat match goal with
         | |- context [if ?b then _ else _] => destruct b
         end;
    intros H;
    try (apply raise_frame in H; destruct H as [-> [-> _]]; unfold call_events; auto);
    try (apply call_web_frame in H; unfold call_events; intuition);
    try (apply call_desktop_frame in H; unfold call_events; intuition);
    try (now apply run_wait_frame in H).
Qed.

Lemma bind_inv {A B : Type} (m : M RT A) (k : A -> M RT B) (s s' : state RT)
      (r : outcome B) (evs : list event) :
  bind RT m k s = (r, s', evs) ->
  (exists a s1 e1 e2, m s = (Ok a, s1, e1) /\ k a s1 = (r, s', e2) /\ evs = e1 ++ e2) \/
  (exists e, m s = (Raise e, s', evs) /\ r = Raise e) \/
  (m s = (OutOfModel, s', evs) /\ r = OutOfModel).
Proof.
  unfold bind. destruct (m s) as [[[a|e|] s1] e1].
  - destruct (k a s1) as [[r2 s2] e2] eqn:Hk. intros H. inversion H. subst.
    left. exists a, s1, e1, e2. auto.
  - intros H. inversion H. subst. right. left. eauto.
  - intros H. inversion H. subst. right. right. auto.
Qed.

Lemma now_frame (s s' : state RT) (r : outcome spec_float) (evs : list event) :
  now RT s = (r, s', evs) ->
  (exists t0, r = Ok t0) /\ wf s' = wf s /\ live s' = live s /\ ctx s' = ctx s /\
  evs = [].
Proof.
  unfold now, extern. destruct (time_time RT (world s)) as [t0 w'].
  intros H. inversion H. subst. cbn. eauto 6.
Qed.

(** The stage of the capability and of the validation: it never touches the
    workflow or the list of steps; when it fails it leaves the context as it
    was; when it succeeds, the capability has returned a mapping for the step
    and the validated mapping has been stored, once. *)
Lemma attempt_stage_cases (step : Step) (s s' : state RT) (r : outcome dict)
      (evs : list event) :
  attempt_stage RT o step s = (r, s', evs) ->
  wf s' = wf s /\ live s' = live s /\
  match r with
  | Ok out =>
      exists raw s1 s2 cevs,
        call_events step cevs /\
        dispatch RT o step s1 = (Ok raw, s2, cevs) /\
        _validate_outputs RT step raw = Ok out /\
        ctx s' = ctx_store (ctx s) (id step) out /\
        evs = cevs ++ [EvCommit (id step) out]
  | _ => ctx s' = ctx s /\ call_events step evs
  end.
Proof.
  unfold attempt_stage. intros H.
  apply bind_inv in H. destruct H as [(t0 & s1 & e1 & e2 & H1 & H & ->)|[(e & H1 & _)|(H1 & _)]];
    try (apply now_frame in H1; destruct H1 as [[? ?] _]; discriminate).
  apply now_frame in H1. destruct H1 as (_ & Hw1 & Hl1 & Hc1 & ->).
  apply bind_inv in H.
  destruct H as [(raw & s2 & e3 & e4 & H2 & H & ->)|[(e & H2 & ->)|(H2 & ->)]];
    try (apply dispatch_frame in H2; destruct H2 as (Hw2 & Hl2 & Hc2 & Hev);
         cbn [List.app]; split; [congruence | split; [congruence|]];
         split; [congruence | exact Hev]).
  pose proof (dispatch_frame _ _ _ _ _ H2) as (Hw2 & Hl2 & Hc2 & Hev).
  apply bind_inv in H.
  destruct H as [(t1 & s3 & e5 & e6 & H3 & H & ->)|[(e & H3 & _)|(H3 & _)]];
    try (apply now_frame in H3; destruct H3 as [[? ?] _]; discriminate).
  apply now_frame in H3. destruct H3 as (_ & Hw3 & Hl3 & Hc3 & ->).
  cbn [List.app].
  destruct (float_gt_Z _ _).
  { apply raise_frame in H. destruct H as (-> & -> & ->). rewrite app_nil_r.
    split; [congruence | split; [congruence|]]. split; [congruence | exact Hev]. }
  destruct (negb (is_dict raw)).
  { apply raise_frame in H. destruct H as (-> & -> & ->). rewrite app_nil_r.
    split; [congruence | split; [congruence|]]. split; [congruence | exact Hev]. }
  rewrite validate_and_store_cases in H.
  destruct (_validate_outputs RT step raw) as [out|e|] eqn:Hv;
    inversion H; subst; cbn [wf live ctx]; rewrite ?app_nil_r;
    (split; [congruence | split; [congruence|]]).
  - exists raw, s1, s2, e3. repeat split; auto. congruence.
  - split; [congruence | exact Hev].
  - split; [congruence | exact Hev].
Qed.

Lemma print_line_cases (out : dict) (s : state RT) :
  print_line RT out s =
  (fst (print_outputs RT out (world s)),
   mkState (snd (print_outputs RT out (world s))) (wf s) (live s) (ctx s),
   [EvPrint out]).
Proof.
  unfold print_line. run_monad.
  destruct (print_outputs RT out (world s)) as [[u|e|] w']; reflexivity.
Qed.

(** One attempt is its stage, followed, when the stage succeeded, by the
    [print] of the outputs. *)
Lemma attempt_body_unfold (step : Step) (s : state RT) :
  attempt_body RT o step s =
  match attempt_stage RT o step s with
  | (Ok out, s1, evs) =>
      (fst (print_outputs RT out (world s1)),
       mkState (snd (print_outputs RT out (world s1))) (wf s1) (live s1) (ctx s1),
       evs ++ [EvPrint out])
  | (Raise e, s1, evs) => (Raise e, s1, evs)
  | (OutOfModel, s1, evs) => (OutOfModel, s1, evs)
  end.
Proof.
  unfold attempt_body. unfold bind at 1.
  destruct (attempt_stage RT o step s) as [[[out|e|] s1] evs]; try reflexivity.
  now rewrite print_line_cases.
Qed.

(** One attempt: it never touches the workflow or the list of steps; either
    its stage failed, and it leaves the context as it was, or the stage
    stored the validated outputs of the step, once, and the attempt ends as
    the [print] does. *)
Lemma attempt_body_cases (step : Step) (s s' : state RT) (r : outcome unit)
      (evs : list event) :
  attempt_body RT o step s = (r, s', evs) ->
  wf s' = wf s /\ live s' = live s /\
  ((ctx s' = ctx s /\ call_events step evs /\ (forall u, r <> Ok u)) \/
   (exists raw s1 s2 cevs out w,
       call_events step cevs /\
       dispatch RT o step s1 = (Ok raw, s2, cevs) /\
       _validate_outputs RT step raw = Ok out /\
       ctx s' = ctx_store (ctx s) (id step) out /\
       evs = cevs ++ [EvCommit (id step) out; EvPrint out] /\
       r = fst (print_outputs RT out w))).
Proof.
  rewrite attempt_body_unfold.
  destruct (attempt_stage RT o step s) as [[r1 s1] e1] eqn:Hst.
  pose proof (attempt_stage_cases step s s1 r1 e1 Hst) as (Hw & Hl & Hcases).
  destruct r1 as [out|e|]; intros H; inversion H; subst; cbn [wf live ctx];
    (split; [exact Hw | split; [exact Hl|]]).
  - right. destruct Hcases as (raw & sa & sb & cevs & Hce & Hd & Hv & Hctx & ->).
    exists raw, sa, sb, cevs, out, (world s1). rewrite <- app_assoc.
    repeat split; auto.
  - left. destruct Hcases as [Hc Hce]. repeat split; auto. discriminate.
  - left. destruct Hcases as [Hc Hce]. repeat split; auto. discriminate.
Qed.

(** The attempt after a repair, like the stage of an attempt of the loop. *)
Lemma attempt_after_repair_body_cases (step : Step) (s s' : state RT)
      (r : outcome unit) (evs : list event) :
  attempt_after_repair_body RT o step s = (r, s', evs) ->
  wf s' = wf s /\ live s' = live s /\
  match r with
  | Ok _ =>
      exists raw s1 s2 cevs out,
        call_events step cevs /\
        dispatch_after_repair RT o step s1 = (Ok raw, s2, cevs) /\
        _validate_outputs RT step raw = Ok out /\
        ctx s' = ctx_store (ctx s) (id step) out /\
        evs = cevs ++ [EvCommit (id step) out]
  | _ => ctx s' = ctx s /\ call_events step evs
  end.
Proof.
  unfold attempt_after_repair_body. intros H.
  apply bind_inv in H.
  destruct H as [(raw & s2 & e3 & e4 & H2 & H & ->)|[(e & H2 & ->)|(H2 & ->)]];
    try (apply dispatch_after_repair_frame in H2; destruct H2 as (Hw2 & Hl2 & Hc2 & Hev);
         split; [congruence | split; [congruence|]]; split; [congruence | exact Hev]).
  pose proof (dispatch_after_repair_frame _ _ _ _ _ H2) as (Hw2 & Hl2 & Hc2 & Hev).
  apply bind_inv in H. rewrite validate_and_store_cases in H.
  destruct (_validate_outputs RT step raw) as [out|e|] eqn:Hv.
  - destruct H as [(a & s4 & e7 & e8 & H4 & H & ->)|[(e & H4 & _)|(H4 & _)]];
      try discriminate.
    inversion H4. subst a s4 e7. unfold ret in H. inversion H. subst.
    cbn [wf live ctx]. split; [congruence | split; [congruence|]].
    exists raw, s, s2, e3, out. rewrite app_nil_r. repeat split; auto. congruence.
  - destruct H as [(a & s4 & e7 & e8 & H4 & H & ->)|[(e' & H4 & ->)|(H4 & _)]];
      try discriminate.
    inversion H4. subst. rewrite app_nil_r.
    split; [congruence | split; [congruence|]]. split; [congruence | exact Hev].
  - destruct H as [(a & s4 & e7 & e8 & H4 & H & ->)|[(e' & H4 & _)|(H4 & ->)]];
      try discriminate.
    inversion H4. subst. rewrite app_nil_r.
    split; [congruence | split; [congruence|]]. split; [congruence | exact Hev].
Qed.

Lemma attempt_after_repair_unfold (step : Step) (e : exn) (s : state RT) :
  attempt_after_repair RT o step e s =
  match attempt_after_repair_body RT o step s with
  | (Raise e2, s2, evs) => (Raise (raise_from e2 e), s2, evs)
  | r => r
  end.
Proof.
  unfold attempt_after_repair, try_except, reraise.
  destruct (attempt_after_repair_body RT o step s) as [[[a|e2|] s2] evs];
    try reflexivity.
  now rewrite app_nil_r.
Qed.

(** The repair, statement by statement. *)
Lemma repair_unfold (h : hook RT) (i : nat) (step : Step) (e : exn) (s : state RT) :
  repair RT o h i step e s =
  let ev := EvRepair (wf s) step (str_exn e) (ctx s) in
  match h (wf s) (live s) step (str_exn e) (ctx s) (world s) with
  | (Ok (wf', live'), w') =>
      match nth_error (steps wf') i with
      | None => (Raise (mk_exn IndexError), mkState w' wf' live' (ctx s), [ev])
      | Some step0' =>
          match _render_step RT (env o) (ctx s) step0' with
          | Ok step' =>
              let '(r, s2, evs2) :=
                attempt_after_repair RT o step' e (mkState w' wf' live' (ctx s)) in
              (obind r (fun _ => Ok step'), s2, ev :: EvPostRepairAttempt step' :: evs2)
          | Raise e1 => (Raise e1, mkState w' wf' live' (ctx s), [ev])
          | OutOfModel => (OutOfModel, mkState w' wf' live' (ctx s), [ev])
          end
      end
  | (Raise e1, w') => (Raise e1, mkState w' (wf s) (live s) (ctx s), [ev])
  | (OutOfModel, w') => (OutOfModel, mkState w' (wf s) (live s) (ctx s), [ev])
  end.
Proof.
  unfold repair. run_monad. unfold get_live, set_live. cbn [world wf live ctx List.app].
  destruct (h (wf s) (live s) step (str_exn e) (ctx s) (world s))
    as [[[wf' live']|e1|] w']; try reflexivity.
  cbn [world wf live ctx List.app fst snd].
  destruct (nth_error (steps wf') i) as [step0'|]; try reflexivity.
  destruct (_render_step RT (env o) (ctx s) step0') as [step'|e1|]; try reflexivity.
  destruct (attempt_after_repair RT o step' e (mkState w' wf' live' (ctx s)))
    as [[[a|e2|] s2] evs2]; cbn [obind List.app]; try reflexivity.
  now rewrite app_nil_r.
Qed.

Lemma sleep_backoff_ok (s : state RT) :
  backoff_returns RT ->
  sleep RT float_backoff s =
  (Ok tt, mkState (snd (time_sleep RT float_backoff (world s))) (wf s) (live s) (ctx s),
   [EvSleep float_backoff]).
Proof.
  intros Hb. run_monad. specialize (Hb (world s)).
  destruct (time_sleep RT float_backoff (world s)) as [r w']. cbn in Hb. now subst r.
Qed.

(** An attempt whose stage fails is that failure. *)
Lemma attempt_body_stage_fails (step : Step) (s s1 : state RT) (e : exn)
      (b : list event) :
  attempt_stage RT o step s = (Raise e, s1, b) ->
  attempt_body RT o step s = (Raise e, s1, b).
Proof. intros H. rewrite attempt_body_unfold. now rewrite H. Qed.

(** The loop when every attempt fails: the attempts that are left all run,
    with the backoff between them, and then the handler does what it does
    once the retries are used up, with the error of the last attempt and with
    the workflow and the context as they were. *)
Lemma retry_loop_all_fail (i : nat) (step : Step) :
  always_fails RT o step ->
  backoff_returns RT ->
  forall (n attempt : nat) (last : option exn) (s : state RT),
    (0 < n)%nat ->
    (Z.of_nat attempt + Z.of_nat n = retries (policy step) + 1)%Z ->
    exists bodies e s_l s_r b,
      List.length bodies = n /\
      Forall (call_events step) bodies /\
      attempt_body RT o step s_l = (Raise e, s_r, b) /\
      wf s_r = wf s /\ live s_r = live s /\ ctx s_r = ctx s /\
      retry_loop RT o i step last attempt n s =
      let '(res, s', evs') := after_retries RT o i step e s_r in
      (res, s', attempts_trace step attempt bodies ++ evs').
Proof.
  intros Hfail Hback. induction n as [|n IH]; intros attempt last s Hn Hsum; [lia|].
  cbn [retry_loop]. unfold bind at 1, log. unfold try_except.
  destruct (attempt_stage RT o step s) as [[r s1] b] eqn:Hst.
  destruct (Hfail s) as [e He]. rewrite Hst in He. cbn in He. subst r.
  pose proof (attempt_stage_cases step s s1 _ b Hst) as (Hw1 & Hl1 & Hc1 & Hev1).
  pose proof (attempt_body_stage_fails step s s1 e b Hst) as Hb.
  unfold bind at 1. rewrite Hb.
  destruct (Z.of_nat attempt <? retries (policy step))%Z eqn:Hlt.
  - apply Z.ltb_lt in Hlt.
    unfold bind at 1. rewrite (sleep_backoff_ok s1 Hback).
    set (s2 := mkState (snd (time_sleep RT float_backoff (world s1))) (wf s1) (live s1)
                       (ctx s1)).
    destruct (IH (S attempt) (Some e) s2 ltac:(lia) ltac:(lia))
      as (bodies & e' & s_l & s_r & b' & Hlen & Hall & Hlast & Hw & Hl & Hc & Heq).
    rewrite Heq.
    exists (b :: bodies), e', s_l, s_r, b'.
    split; [cbn; lia|]. split; [now constructor|]. split; [exact Hlast|].
    unfold s2 in Hw, Hl, Hc. cbn [wf live ctx] in Hw, Hl, Hc.
    split; [congruence|]. split; [congruence|]. split; [congruence|].
    destruct (after_retries RT o i step e' s_r) as [[res s'] evs'].
    destruct bodies as [|b1 bs]; [cbn in Hlen; lia|].
    change (attempts_trace step attempt (b :: b1 :: bs))
      with (EvAttempt attempt step
              :: b ++ EvSleep float_backoff :: attempts_trace step (S attempt) (b1 :: bs)).
    repeat (rewrite <- app_comm_cons || rewrite <- app_assoc). reflexivity.
  - apply Z.ltb_ge in Hlt.
    assert (n = 0)%nat by lia. subst n.
    exists [b], e, s, s1, b.
    split; [reflexivity|]. split; [now constructor|]. split; [exact Hb|].
    split; [exact Hw1|]. split; [exact Hl1|]. split; [exact Hc1|].
    destruct (after_retries RT o i step e s1) as [[res s'] evs'].
    cbn [attempts_trace List.app]. rewrite app_nil_r. reflexivity.
Qed.

Lemma attempts_of_app (a b : list event) :
  attempts_of (a ++ b) = attempts_of a ++ attempts_of b.
Proof.
  induction a as [|ev a IH]; [reflexivity|].
  destruct ev; cbn [List.app attempts_of]; now rewrite ?IH.
Qed.

Lemma repairs_of_app (a b : list event) :
  repairs_of (a ++ b) = repairs_of a ++ repairs_of b.
Proof.
  induction a as [|ev a IH]; [reflexivity|].
  destruct ev; cbn [List.app repairs_of]; now rewrite ?IH.
Qed.

Lemma commits_of_app (a b : list event) :
  commits_of (a ++ b) = commits_of a ++ commits_of b.
Proof.
  induction a as [|ev a IH]; [reflexivity|].
  destruct ev; cbn [List.app commits_of]; now rewrite ?IH.
Qed.

Lemma call_events_quiet (step : Step) (evs : list event) :
  call_events step evs ->
  attempts_of evs = [] /\ repairs_of evs = [] /\ commits_of evs = [].
Proof.
  intros [->|[->|[->|[secs ->]]]]; auto.
Qed.

Lemma attempts_trace_cons2 (step : Step) (a : nat) (b b1 : list event)
      (bs : list (list event)) :
  attempts_trace step a (b :: b1 :: bs) =
  EvAttempt a step :: b ++ EvSleep float_backoff :: attempts_trace step (S a) (b1 :: bs).
Proof. reflexivity. Qed.

(** The trace of failed attempts shows each attempt once, in order, all on
    the same step, and no repair and no assignment to the context. *)
Lemma attempts_trace_shape (step : Step) (bodies : list (list event)) :
  Forall (call_events step) bodies ->
  forall a,
    attempts_of (attempts_trace step a bodies)
    = map (fun k => (k, step)) (seq a (List.length bodies)) /\
    repairs_of (attempts_trace step a bodies) = [] /\
    commits_of (attempts_trace step a bodies) = [].
Proof.
  induction 1 as [|b bs Hb Hbs IH]; intros a; [auto|].
  destruct (call_events_quiet step b Hb) as (Ha & Hr & Hc).
  destruct bs as [|b1 bs].
  - cbn [attempts_trace attempts_of repairs_of commits_of List.length seq map].
    rewrite app_nil_r, Ha, Hr, Hc. auto.
  - rewrite attempts_trace_cons2. destruct (IH (S a)) as (IHa & IHr & IHc).
    cbn [attempts_of repairs_of commits_of].
    rewrite attempts_of_app, repairs_of_app, commits_of_app, Ha, Hr, Hc.
    cbn [attempts_of repairs_of commits_of List.app].
    rewrite IHa, IHr, IHc. auto.
Qed.


Lemma run_step_unfold (i : nat) (step0 step : Step) (s : state RT) :
  _render_step RT (env o) (ctx s) step0 = Ok step ->
  run_step RT o i step0 s =
  match retry_loop RT o i step None 0 (Z.to_nat (retries (policy step) + 1)) s with
  | (Ok (last, st), s', evs) =>
      (match last with
       | Some e => if negb (dict_in (id st) (ctx_steps (ctx s'))) then Raise e else Ok tt
       | None => Ok tt
       end, s', evs)
  | (Raise e, s', evs) => (Raise e, s', evs)
  | (OutOfModel, s', evs) => (OutOfModel, s', evs)
  end.
Proof.
  intros Hr. unfold run_step. unfold bind at 1, get_ctx. unfold bind at 1, lift.
  rewrite Hr. unfold bind at 1. cbn [List.app].
  destruct (retry_loop RT o i step None 0 (Z.to_nat (retries (policy step) + 1)) s)
    as [[[[last st]|e|] s'] evs]; try reflexivity.
  unfold bind, get_ctx, reraise, ret. cbn [fst snd].
  destruct last as [e|]; [destruct (negb _)|]; cbn; now rewrite ?app_nil_r.
Qed.

End EngineFacts.

(** ** C2: retries *)



(** ** C3: repair *)



(** ** C5: the checks before a capability is called *)

(** In an attempt of the retry loop the checks come first: a WEB or DESKTOP
    step with an incompatible hint or without its required inputs fails
    without any call of a capability. *)
Lemma dispatch_checks_first (RT : Runtime) (o : Orchestrator RT) (step : Step)
      (s : state RT) :
  (type step = "WEB" ->
   str_in (executor_hint step) ["browser_use"; "auto"] = false ->
   dispatch RT o step s = (Raise (mk_exn (WebHintMismatch (id step))), s, [])) /\
  (type step = "WEB" ->
   str_in (executor_hint step) ["browser_use"; "auto"] = true ->
   has_key "task" (inputs step) = false ->
   dispatch RT o step s = (Raise (mk_exn (WebTaskRequired (id step))), s, [])) /\
  (type step = "DESKTOP" ->
   str_in (executor_hint step) ["desktop_ax"; "auto"] = false ->
   dispatch RT o step s = (Raise (mk_exn (DesktopHintMismatch (id step))), s, [])) /\
  (type step = "DESKTOP" ->
   str_in (executor_hint step) ["desktop_ax"; "auto"] = true ->
   has_key "task" (inputs step) = false ->
   has_key "actions" (inputs step) = false ->
   exists m, dispatch RT o step s = (Raise (mk_exn m), s, [])).
Proof.
  unfold dispatch. split; [|split; [|split]].
  - intros -> ->. reflexivity.
  - intros -> -> Hk. rewrite Hk. cbn. now rewrite orb_true_r.
  - intros -> ->. reflexivity.
  - intros -> -> Hk Ha. rewrite Hk, Ha. cbn.
    destruct (is_dict (inputs step)); cbn; eexists; reflexivity.
Qed.

(** C5 fails on the attempt after a repair.  A WEB step whose hint is
    [desktop_ax] and whose inputs have no [task]: the attempt of the loop stops
    at the check, the hook returns the workflow unchanged, and the attempt
    after the repair calls the web capability on that very step and stores
    what it returns. *)
Theorem post_repair_attempt_skips_checks :
  let o := mkOrchestrator (RT := still_runtime)
             empty_capability empty_capability (Some same_workflow_hook) strict_env in
  let st := plain_step "w1" "WEB" "open" (VDict []) [] 0 "desktop_ax" in
  let flow := mkWorkflowSpec "demo" "" [] [st] in
  let c0 := [("steps", VDict [])] in
  str_in (executor_hint st) ["browser_use"; "auto"] = false /\
  has_key "task" (inputs st) = false /\
  run still_runtime o 2 flow [] tt =
  (Ok [("steps", VDict [("w1", VDict [("ok", VStr "")])])],
   mkState (RT := still_runtime) tt flow [st]
           [("steps", VDict [("w1", VDict [("ok", VStr "")])])],
   [EvAttempt 0 st;
    EvRepair flow st (WebHintMismatch "w1") c0;
    EvPostRepairAttempt st;
    EvWebRun st;
    EvCommit "w1" [("ok", VStr "")]]).
Proof.
  cbv zeta. repeat split.
Qed.

(** ** C6: the context *)

Section ContextFacts.
Variable RT : Runtime.
Variable o : Orchestrator RT.

(** Rendering changes the goal, the inputs, the postconditions and the
    fallbacks, and nothing else. *)
Lemma _render_step_keeps (env0 : Environment) (c : dict) (step0 step : Step) :
  _render_step RT env0 c step0 = Ok step ->
  id step = id step0 /\ type step = type step0 /\
  outputs_schema step = outputs_schema step0 /\ policy step = policy step0 /\
  executor_hint step = executor_hint step0 /\ evidence step = evidence step0.
Proof.
  destruct step0 as [i ty g inp sch post pol hint ev fbs]. cbn [_render_step].
  destruct (render_string RT env0 c g); cbn [obind]; try discriminate.
  destruct (render_templates RT env0 c inp); cbn [obind]; try discriminate.
  destruct (omap_list (render_templates RT env0 c) post); cbn [obind];
    try discriminate.
  destruct (omap_list (_render_step RT env0 c) fbs); cbn [obind];
    try discriminate.
  intros H. inversion H. subst. cbn. auto 10.
Qed.

Lemma attempted_app_l (st : Step) (e1 e2 : list event) :
  attempted st e1 -> attempted st (e1 ++ e2).
Proof.
  intros [[a Ha]|Hp]; [left; exists a | right]; apply in_or_app; now left.
Qed.

Lemma attempted_app_r (st : Step) (e1 e2 : list event) :
  attempted st e2 -> attempted st (e1 ++ e2).
Proof.
  intros [[a Ha]|Hp]; [left; exists a | right]; apply in_or_app; now right.
Qed.

Lemma checked_output_app_l (st : Step) (out : dict) (e1 e2 : list event) :
  checked_output RT o e1 st out -> checked_output RT o (e1 ++ e2) st out.
Proof. intros [Ha Hrest]. split; [now apply attempted_app_l | exact Hrest]. Qed.

Lemma checked_output_app_r (st : Step) (out : dict) (e1 e2 : list event) :
  checked_output RT o e2 st out -> checked_output RT o (e1 ++ e2) st out.
Proof. intros [Ha Hrest]. split; [now apply attempted_app_r | exact Hrest]. Qed.

Lemma checked_entry_app_l (kv : string * pyval) (e1 e2 : list event) :
  checked_entry RT o e1 kv -> checked_entry RT o (e1 ++ e2) kv.
Proof.
  intros (st & out & H1 & H2 & H3). exists st, out.
  split; [exact H1|]. split; [exact H2|]. now apply checked_output_app_l.
Qed.

Lemma checked_entry_app_r (kv : string * pyval) (e1 e2 : list event) :
  checked_entry RT o e2 kv -> checked_entry RT o (e1 ++ e2) kv.
Proof.
  intros (st & out & H1 & H2 & H3). exists st, out.
  split; [exact H1|]. split; [exact H2|]. now apply checked_output_app_r.
Qed.

Lemma stored_once_app_r (k : string) (s0 s s' : state RT) (e1 e2 : list event) :
  ctx s = ctx s0 -> commits_of e1 = [] ->
  stored_once o k s s' e2 -> stored_once o k s0 s' (e1 ++ e2).
Proof.
  intros Hc He (st & out & H1 & H2 & H3 & H4). exists st, out.
  split; [exact H1|]. split; [now apply checked_output_app_r|].
  split; [congruence|]. now rewrite commits_of_app, He.
Qed.

Lemma after_retries_cases (i : nat) (step : Step) (e : exn) (s s' : state RT)
      (res : outcome (option exn * Step)) (evs : list event) :
  hook_keeps_ids RT o ->
  nth_error (map id (steps (wf s))) i = Some (id step) ->
  after_retries RT o i step e s = (res, s', evs) ->
  map id (steps (wf s')) = map id (steps (wf s)) /\
  map id (live s') = map id (live s) /\
  match res with
  | Ok (last, st') => last = None /\ stored_once o (id step) s s' evs
  | _ => untouched s s' evs
  end.
Proof.
  intros Hkeep Hid. unfold after_retries.
  destruct (repair_hook o) as [h|] eqn:Hh.
  2: { unfold reraise. intros H. inversion H. subst. split; [reflexivity|].
       split; [reflexivity|]. split; reflexivity. }
  unfold bind. rewrite repair_unfold. cbn zeta.
  destruct (h (wf s) (live s) step (str_exn e) (ctx s) (world s))
    as [[[wf' live']|e1|] w'] eqn:Hhook.
  2,3: intros H; inversion H; subst; cbn [wf live ctx]; split; [reflexivity|];
       split; [reflexivity|]; split; reflexivity.
  pose proof (Hkeep h _ _ _ _ _ _ _ _ _ Hh Hhook) as [Hids Hlids].
  destruct (nth_error (steps wf') i) as [step0'|] eqn:Hnth.
  2: { intros H; inversion H; subst; cbn [wf live ctx]; split; [exact Hids|].
       split; [exact Hlids|]. split; reflexivity. }
  assert (Hid0 : id step0' = id step).
  { apply (map_nth_error id) in Hnth. rewrite Hids, Hid in Hnth. congruence. }
  destruct (_render_step RT (env o) (ctx s) step0') as [step'|e1|] eqn:Hrender.
  2,3: intros H; inversion H; subst; cbn [wf live ctx]; split; [exact Hids|];
       split; [exact Hlids|]; split; reflexivity.
  apply _render_step_keeps in Hrender. destruct Hrender as [Hid' _].
  rewrite attempt_after_repair_unfold.
  destruct (attempt_after_repair_body RT o step' (mkState w' wf' live' (ctx s)))
    as [[r s2] evs2] eqn:Hbody.
  pose proof (attempt_after_repair_body_cases RT o step' _ _ _ _ Hbody)
    as (Hwf & Hlv & Hcases).
  cbn [wf live ctx] in Hwf, Hlv, Hcases.
  destruct r as [u|e2|]; cbn [obind ret]; intros H; inversion H; subst;
    (split; [congruence|]); (split; [congruence|]).
  - split; [reflexivity|].
    destruct Hcases as (raw & sa & sb & cevs & out & Hce & Hd & Hv & Hctx & ->).
    exists step', out.
    destruct (call_events_quiet step' cevs Hce) as (_ & _ & Hcc).
    split; [congruence|]. split.
    { split; [right; cbn; auto|].
      exists raw, sa, sb, cevs. repeat split; auto. }
    split; [congruence|].
    cbn [commits_of]. rewrite app_nil_r, commits_of_app, Hcc. cbn. congruence.
  - destruct Hcases as [Hctx Hce].
    destruct (call_events_quiet step' evs2 Hce) as (_ & _ & Hcc).
    split; [exact Hctx|]. cbn [commits_of]. exact Hcc.
  - destruct Hcases as [Hctx Hce].
    destruct (call_events_quiet step' evs2 Hce) as (_ & _ & Hcc).
    split; [exact Hctx|]. cbn [commits_of]. exact Hcc.
Qed.

Lemma sleep_frame (secs : spec_float) (s s' : state RT) (r : outcome unit)
      (evs : list event) :
  sleep RT secs s = (r, s', evs) ->
  wf s' = wf s /\ live s' = live s /\ ctx s' = ctx s /\ evs = [EvSleep secs].
Proof.
  run_monad. destruct (time_sleep RT secs (world s)) as [[u|e|] w'];
    intros H; inversion H; subst; auto.
Qed.

Lemma retry_loop_cases (i : nat) (step : Step) :
  hook_keeps_ids RT o ->
  print_returns RT ->
  forall (n attempt : nat) (last : option exn) (s s' : state RT)
         (res : outcome (option exn * Step)) (evs : list event),
    nth_error (map id (steps (wf s))) i = Some (id step) ->
    retry_loop RT o i step last attempt n s = (res, s', evs) ->
    map id (steps (wf s')) = map id (steps (wf s)) /\
    map id (live s') = map id (live s) /\
    match res with
    | Ok (last', st') =>
        (last' = None /\ stored_once o (id step) s s' evs) \/
        (untouched s s' evs /\
         (n = 0%nat \/
          (Z.of_nat attempt + Z.of_nat n <> retries (policy step) + 1)%Z))
    | _ => untouched s s' evs
    end.
Proof.
  intros Hkeep Hprint. induction n as [|n IH]; intros attempt last s s' res evs Hid.
  - cbn [retry_loop]. unfold ret. intros H. inversion H. subst.
    split; [reflexivity|]. split; [reflexivity|].
    right. split; [split; reflexivity | now left].
  - cbn [retry_loop]. unfold bind at 1, log. unfold try_except.
    destruct (attempt_body RT o step s) as [[r s1] b] eqn:Hb.
    pose proof (attempt_body_cases RT o step s s1 r b Hb) as (Hw1 & Hl1 & Hcases).
    unfold bind at 1. rewrite Hb.
    destruct Hcases as [(Hc1 & Hce & Hno)|
                        (raw & sa & sb & cevs & out & w & Hce & Hd & Hv & Hctx & -> & Hr)].
    2: { rewrite (Hprint out w) in Hr. subst r.
         unfold ret. intros H. inversion H. subst.
         split; [congruence|]. split; [congruence|].
         left. split; [reflexivity|].
         exists step, out.
         destruct (call_events_quiet step cevs Hce) as (_ & _ & Hcc).
         split; [reflexivity|]. split.
         { split; [left; exists attempt; cbn; auto|].
           exists raw, sa, sb, cevs. repeat split; auto. }
         split; [exact Hctx|].
         cbn [List.app commits_of]. rewrite app_nil_r, commits_of_app, Hcc. reflexivity. }
    destruct (call_events_quiet step b Hce) as (_ & _ & Hcc).
    destruct r as [u|e|]; [now elim (Hno u)| |].
    + destruct (Z.of_nat attempt <? retries (policy step))%Z eqn:Hlt.
      * apply Z.ltb_lt in Hlt. unfold bind at 1.
        destruct (sleep RT float_backoff s1) as [[r2 s2] e2] eqn:Hs.
        pose proof (sleep_frame _ _ _ _ _ Hs) as (Hw2 & Hl2 & Hc2 & ->).
        destruct r2 as [u| e'|].
        -- destruct (retry_loop RT o i step (Some e) (S attempt) n s2)
             as [[res3 s3] e3] eqn:Hloop.
           assert (Hid2 : nth_error (map id (steps (wf s2))) i = Some (id step))
             by (rewrite Hw2, Hw1; exact Hid).
           destruct (IH _ _ _ _ _ _ Hid2 Hloop) as (Hw3 & Hl3 & Hres).
           intros H. inversion H. subst.
           split; [congruence|]. split; [congruence|].
           assert (Hpre : commits_of ([EvAttempt attempt step] ++ b ++ [EvSleep float_backoff])
                          = []).
           { rewrite !commits_of_app, Hcc. reflexivity. }
           assert (Hcom : commits_of ([EvAttempt attempt step] ++ b ++ [EvSleep float_backoff] ++ e3)
                          = commits_of e3).
           { rewrite !commits_of_app, Hcc. reflexivity. }
           assert (Hctx2 : ctx s2 = ctx s) by congruence.
           destruct res as [[last' st']|e'|].
           ++ destruct Hres as [[Hl Hst]|[[Hc3 Hcm] Hn]].
              ** left. split; [exact Hl|].
                 replace (EvAttempt attempt step :: b ++ EvSleep float_backoff :: e3)
                   with (([EvAttempt attempt step] ++ b ++ [EvSleep float_backoff]) ++ e3)
                   by (cbn [List.app]; now rewrite <- !app_assoc).
                 eapply stored_once_app_r; [exact Hctx2 | exact Hpre | exact Hst].
              ** right. split; [split; congruence|]. right. lia.
           ++ destruct Hres as [Hc3 Hcm]. split; congruence.
           ++ destruct Hres as [Hc3 Hcm]. split; congruence.
        -- intros H. inversion H. subst. split; [congruence|]. split; [congruence|].
           split; [congruence|]. cbn [List.app commits_of].
           rewrite commits_of_app, Hcc. reflexivity.
        -- intros H. inversion H. subst. split; [congruence|]. split; [congruence|].
           split; [congruence|]. cbn [List.app commits_of].
           rewrite commits_of_app, Hcc. reflexivity.
      * destruct (after_retries RT o i step e s1) as [[res3 s3] e3] eqn:Hafter.
        assert (Hid1 : nth_error (map id (steps (wf s1))) i = Some (id step))
          by (rewrite Hw1; exact Hid).
        destruct (after_retries_cases i step e s1 s3 res3 e3 Hkeep Hid1 Hafter)
          as (Hw3 & Hl3 & Hres).
        intros H. inversion H. subst.
        split; [congruence|]. split; [congruence|].
        assert (Hpre : commits_of ([EvAttempt attempt step] ++ b) = []).
        { rewrite !commits_of_app, Hcc. reflexivity. }
        assert (Hcom : commits_of ([EvAttempt attempt step] ++ b ++ e3) = commits_of e3).
        { rewrite !commits_of_app, Hcc. reflexivity. }
        destruct res as [[last' st']|e'|].
        -- destruct Hres as [Hl Hst]. left. split; [exact Hl|].
           replace (EvAttempt attempt step :: b ++ e3)
             with (([EvAttempt attempt step] ++ b) ++ e3)
             by (cbn [List.app]; reflexivity).
           eapply stored_once_app_r; [exact Hc1 | exact Hpre | exact Hst].
        -- destruct Hres as [Hc3 Hcm]. split; congruence.
        -- destruct Hres as [Hc3 Hcm]. split; congruence.
    + intros H. inversion H. subst. split; [congruence|]. split; [congruence|].
      split; [congruence|]. cbn [List.app commits_of]. exact Hcc.
Qed.

Lemma run_step_cases (i : nat) (step0 : Step) (s s' : state RT)
      (res : outcome unit) (evs : list event) :
  hook_keeps_ids RT o ->
  print_returns RT ->
  nth_error (map id (steps (wf s))) i = Some (id step0) ->
  run_step RT o i step0 s = (res, s', evs) ->
  map id (steps (wf s')) = map id (steps (wf s)) /\
  map id (live s') = map id (live s) /\
  ((res = Ok tt /\ stored_once o (id step0) s s' evs) \/
   (untouched s s' evs /\ (res = Ok tt -> (retries (policy step0) < 0)%Z))).
Proof.
  intros Hkeep Hprint Hid.
  destruct (_render_step RT (env o) (ctx s) step0) as [step|e|] eqn:Hrender.
  2,3: unfold run_step; unfold bind at 1, get_ctx; unfold bind at 1, lift;
       rewrite Hrender; intros H; inversion H; subst;
       (split; [reflexivity|]); (split; [reflexivity|]);
       right; (split; [split; reflexivity | discriminate]).
  rewrite (run_step_unfold RT o i step0 step s Hrender).
  pose proof (_render_step_keeps (env o) (ctx s) step0 step Hrender)
    as (Hi & _ & _ & Hp & _).
  destruct (retry_loop RT o i step None 0 (Z.to_nat (retries (policy step) + 1)) s)
    as [[r s1] e1] eqn:Hloop.
  rewrite <- Hi in Hid.
  destruct (retry_loop_cases i step Hkeep Hprint _ _ _ _ _ _ _ Hid Hloop)
    as (Hw & Hl & Hres).
  rewrite Hi in Hres.
  destruct r as [[last st]|e|]; intros H; inversion H; subst;
    (split; [exact Hw|]); (split; [exact Hl|]).
  - destruct Hres as [[-> Hst]|[Hun Hn]].
    + left. split; [reflexivity | exact Hst].
    + right. split; [exact Hun|]. intros _. rewrite <- Hp. lia.
  - right. split; [exact Hres | discriminate].
  - right. split; [exact Hres | discriminate].
Qed.

Lemma stored_once_entry (k : string) (s s' : state RT) (evs : list event) :
  stored_once o k s s' evs ->
  exists out, ctx s' = ctx_store (ctx s) k out /\
              commits_of evs = [(k, VDict out)] /\
              checked_entry RT o evs (k, VDict out).
Proof.
  intros (st & out & H1 & H2 & H3 & H4).
  exists out. repeat split; auto. exists st, out. auto.
Qed.

(** A hook that leaves the list of steps alone: the list is the same after
    every iteration. *)
Lemma run_step_live (i : nat) (step0 : Step) (s s' : state RT)
      (res : outcome unit) (evs : list event) :
  hook_keeps_list RT o ->
  run_step RT o i step0 s = (res, s', evs) ->
  live s' = live s.
Proof.
  intros Hkeep.
  destruct (_render_step RT (env o) (ctx s) step0) as [step|e|] eqn:Hrender.
  2,3: unfold run_step; unfold bind at 1, get_ctx; unfold bind at 1, lift;
       rewrite Hrender; intros H; inversion H; subst; reflexivity.
  rewrite (run_step_unfold RT o i step0 step s Hrender).
  assert (Hloop : forall n attempt last s0 s1 r e1,
             retry_loop RT o i step last attempt n s0 = (r, s1, e1) ->
             live s1 = live s0).
  { induction n as [|n IH]; intros attempt last s0 s1 r e1.
    - cbn [retry_loop]. unfold ret. intros H. now inversion H.
    - cbn [retry_loop]. unfold bind at 1, log. unfold try_except.
      destruct (attempt_body RT o step s0) as [[rb sb] b] eqn:Hb.
      pose proof (attempt_body_cases RT o step s0 sb rb b Hb) as (_ & Hlb & _).
      unfold bind at 1. rewrite Hb.
      destruct rb as [u|e|].
      + unfold ret. intros H. inversion H. now subst.
      + destruct (Z.of_nat attempt <? retries (policy step))%Z.
        * unfold bind at 1.
          destruct (sleep RT float_backoff sb) as [[r2 s2] e2] eqn:Hs.
          pose proof (sleep_frame _ _ _ _ _ Hs) as (_ & Hl2 & _).
          destruct r2 as [u|e'|].
          -- destruct (retry_loop RT o i step (Some e) (S attempt) n s2)
               as [[res3 s3] e3] eqn:Hl3.
             apply IH in Hl3. intros H. inversion H. subst. congruence.
          -- intros H. inversion H. subst. congruence.
          -- intros H. inversion H. subst. congruence.
        * unfold after_retries.
          destruct (repair_hook o) as [h|] eqn:Hh.
          2: { unfold reraise. intros H. inversion H. now subst. }
          unfold bind. rewrite repair_unfold. cbn zeta.
          destruct (h (wf sb) (live sb) step (str_exn e) (ctx sb) (world sb))
            as [[[wf' live']|ex|] w'] eqn:Hhook.
          2,3: intros H; inversion H; subst; cbn [live]; congruence.
          pose proof (Hkeep h _ _ _ _ _ _ _ _ _ Hh Hhook) as Hsame. subst live'.
          destruct (nth_error (steps wf') i) as [step0'|].
          2: intros H; inversion H; subst; cbn [live]; congruence.
          destruct (_render_step RT (env o) (ctx sb) step0') as [step'|ex|].
          2,3: intros H; inversion H; subst; cbn [live]; congruence.
          rewrite attempt_after_repair_unfold.
          destruct (attempt_after_repair_body RT o step'
                      (mkState w' wf' (live sb) (ctx sb))) as [[ra sa] ea] eqn:Ha.
          pose proof (attempt_after_repair_body_cases RT o step' _ _ _ _ Ha)
            as (_ & Hla & _).
          cbn [live] in Hla.
          destruct ra as [u|e2|]; cbn [obind ret]; intros H; inversion H; subst;
            congruence.
      + intros H. inversion H. now subst. }
  destruct (retry_loop RT o i step None 0 (Z.to_nat (retries (policy step) + 1)) s)
    as [[r s1] e1] eqn:Hl.
  apply Hloop in Hl.
  destruct r as [[last st]|e|]; intros H; inversion H; subst; exact Hl.
Qed.

Lemma skipn_nth_cons {A : Type} (l : list A) (i : nat) (x : A) :
  nth_error l i = Some x -> skipn i l = x :: skipn (S i) l.
Proof.
  revert i. induction l as [|a l IH]; intros [|i]; cbn; try discriminate.
  - intros H. now inversion H.
  - apply IH.
Qed.

Lemma skipn_nth_none {A : Type} (l : list A) (i : nat) :
  nth_error l i = None -> skipn i l = [].
Proof.
  revert i. induction l as [|a l IH]; intros [|i]; cbn; try discriminate; auto.
Qed.

Lemma NoDup_skipn {A : Type} (l : list A) (i : nat) : NoDup l -> NoDup (skipn i l).
Proof.
  revert i. induction l as [|a l IH]; intros [|i] H; cbn; auto.
  inversion H. auto.
Qed.

(** The loop over the steps, from any point of a run on. *)
Lemma run_steps_cases (ids : list string) :
  hook_keeps_ids RT o ->
  print_returns RT ->
  NoDup ids ->
  forall (fuel i : nat) (s s' : state RT) (res : outcome unit) (evs : list event),
    map id (steps (wf s)) = ids ->
    map id (live s) = ids ->
    (forall x, In x (skipn i ids) -> dict_get x (ctx_steps (ctx s)) = None) ->
    run_steps RT fuel o i s = (res, s', evs) ->
    exists k,
      ctx_steps (ctx s') = ctx_steps (ctx s) ++ commits_of evs /\
      incl (map fst (commits_of evs)) (firstn k (skipn i ids)) /\
      NoDup (map fst (commits_of evs)) /\
      Forall (checked_entry RT o evs) (commits_of evs) /\
      match res with
      | Ok _ =>
          hook_keeps_list RT o ->
          (forall st, In st (live s) -> (0 <= retries (policy st))%Z) ->
          map fst (commits_of evs) = skipn i ids
      | Raise e =>
          exists step0 s_k evs_k,
            nth_error ids (i + k) = Some (id step0) /\
            run_step RT o (i + k) step0 s_k = (Raise e, s', evs_k) /\
            dict_get (id step0) (ctx_steps (ctx s')) = None
      | OutOfModel => True
      end.
Proof.
  intros Hkeep Hprint Hnd.
  induction fuel as [|fuel IH]; intros i s s' res evs Hwf Hlive Hfresh.
  - cbn [run_steps]. unfold out_of_fuel. intros H. injection H as <- <- <-.
    exists 0%nat. cbn. rewrite app_nil_r.
    repeat split; auto using incl_nil_l, NoDup_nil.
  - cbn [run_steps]. unfold bind at 1, get_live. cbn [List.app].
    destruct (nth_error (live s) i) as [step0|] eqn:Hnth.
    2: { unfold ret. intros H. injection H as <- <- <-.
         exists 0%nat. cbn. rewrite app_nil_r.
         repeat split; auto using incl_nil_l, NoDup_nil.
         intros _ _. symmetry. apply skipn_nth_none.
         rewrite <- Hlive. rewrite nth_error_map, Hnth. reflexivity. }
    assert (Hidl : nth_error ids i = Some (id step0)).
    { rewrite <- Hlive. rewrite nth_error_map, Hnth. reflexivity. }
    assert (Hid : nth_error (map id (steps (wf s))) i = Some (id step0))
      by (rewrite Hwf; exact Hidl).
    pose proof (skipn_nth_cons ids i (id step0) Hidl) as Hskip.
    pose proof (NoDup_skipn ids i Hnd) as Hnds. rewrite Hskip in Hnds.
    apply NoDup_cons_iff in Hnds. destruct Hnds as [Hnotin Hnd'].
    unfold bind.
    destruct (run_step RT o i step0 s) as [[r1 s1] e1] eqn:Hstep.
    destruct (run_step_cases i step0 s s1 r1 e1 Hkeep Hprint Hid Hstep)
      as (Hw & Hl & Hcase).
    assert (Hfresh0 : dict_get (id step0) (ctx_steps (ctx s)) = None).
    { apply Hfresh. rewrite Hskip. now left. }
    assert (Hwf1 : map id (steps (wf s1)) = ids) by congruence.
    assert (Hlive1 : map id (live s1) = ids) by congruence.
    destruct Hcase as [[-> Hst]|[[Hc Hcm] Hneg]].
    + apply stored_once_entry in Hst. destruct Hst as (out & Hctx & Hcom & Hchk).
      assert (Hsteps1 : ctx_steps (ctx s1)
                        = ctx_steps (ctx s) ++ [(id step0, VDict out)]).
      { rewrite Hctx, ctx_steps_store. now apply dict_set_fresh. }
      assert (Hfresh1 : forall x, In x (skipn (S i) ids) ->
                dict_get x (ctx_steps (ctx s1)) = None).
      { intros x Hin. rewrite Hctx, ctx_steps_store.
        rewrite dict_get_set_other; [apply Hfresh; rewrite Hskip; now right|].
        intros Heq. apply Hnotin. now rewrite Heq. }
      destruct (run_steps RT fuel o (S i) s1) as [[r2 s2] e2] eqn:Hrest.
      destruct (IH (S i) s1 s2 r2 e2 Hwf1 Hlive1 Hfresh1 Hrest)
        as (k & Hsteps & Hincl & Hnd2 & Hall & Hres).
      intros H. injection H as <- <- <-.
      exists (S k). rewrite commits_of_app, Hcom.
      split; [rewrite Hsteps, Hsteps1, <- app_assoc; reflexivity|].
      split; [rewrite Hskip; cbn [List.app map firstn fst];
              intros x [<-|Hx]; [now left | right; now apply Hincl]|].
      split.
      { cbn [List.app map fst]. constructor; [|exact Hnd2].
        intros Hin. apply Hincl in Hin. apply Hnotin.
        rewrite <- (firstn_skipn k (skipn (S i) ids)). apply in_or_app. now left. }
      split.
      { cbn [List.app]. constructor.
        - now apply checked_entry_app_l.
        - eapply Forall_impl; [|exact Hall].
          intros kv Hkv. now apply checked_entry_app_r. }
      destruct r2 as [u|e|]; [| |exact I].
      * intros Hlist Hretries. cbn [List.app map fst]. rewrite Hskip. f_equal.
        apply Hres; [exact Hlist|].
        rewrite (run_step_live i step0 s s1 _ _ Hlist Hstep). exact Hretries.
      * destruct Hres as (stk & s_k & evs_k & Hnthk & Hrun & Hnone).
        exists stk, s_k, evs_k.
        replace (i + S k)%nat with (S i + k)%nat by lia. auto.
    + assert (Hfresh1 : forall x, In x (skipn (S i) ids) ->
                dict_get x (ctx_steps (ctx s1)) = None).
      { intros x Hin. rewrite Hc. apply Hfresh. rewrite Hskip. now right. }
      destruct r1 as [u|e|].
      * destruct (run_steps RT fuel o (S i) s1) as [[r2 s2] e2] eqn:Hrest.
        destruct (IH (S i) s1 s2 r2 e2 Hwf1 Hlive1 Hfresh1 Hrest)
          as (k & Hsteps & Hincl & Hnd2 & Hall & Hres).
        intros H. injection H as <- <- <-.
        exists (S k). rewrite commits_of_app, Hcm. cbn [List.app].
        split; [rewrite Hsteps, Hc; reflexivity|].
        split; [rewrite Hskip; cbn [map firstn]; intros x Hx; right; now apply Hincl|].
        split; [exact Hnd2|].
        split.
        { eapply Forall_impl; [|exact Hall].
          intros kv Hkv. now apply checked_entry_app_r. }
        destruct r2 as [u'|e|]; [| |exact I].
        -- intros Hlist Hretries. destruct u.
           specialize (Hneg eq_refl).
           assert (Hin0 : In step0 (live s)) by (eapply nth_error_In; eauto).
           specialize (Hretries step0 Hin0). lia.
        -- destruct Hres as (stk & s_k & evs_k & Hnthk & Hrun & Hnone).
           exists stk, s_k, evs_k.
           replace (i + S k)%nat with (S i + k)%nat by lia. auto.
      * intros H. injection H as <- <- <-.
        exists 0%nat. rewrite Hcm, app_nil_r.
        split; [now rewrite Hc|].
        split; [apply incl_nil_l|]. split; [constructor|]. split; [constructor|].
        exists step0, s. eexists. rewrite Nat.add_0_r.
        split; [exact Hidl|]. split; [exact Hstep|]. now rewrite Hc.
      * intros H. injection H as <- <- <-.
        exists 0%nat. rewrite Hcm, app_nil_r.
        split; [now rewrite Hc|].
        split; [apply incl_nil_l|]. split; [constructor|]. split; [constructor|].
        exact I.
Qed.

End ContextFacts.

(** C6, as stated, fails in two ways.  With unique step ids, a step whose
    outputs were stored fails all the same when the [print] that follows the
    assignment raises: the run ends with an entry for the step that failed.
    And a repair hook may answer with a workflow, of unique ids too, whose step
    at the index of the failing step bears the id of a step that ran before:
    the attempt after the repair then overwrites that step's entry. *)
Lemma failed_step_may_leave_an_entry :
  ~ (forall (RT : Runtime) (o : Orchestrator RT) (fuel : nat) (wf0 : WorkflowSpec)
            (inputs0 : dict) (w : W RT) (e : exn) (s' : state RT) (evs : list event),
        NoDup (map id (steps wf0)) ->
        run RT o fuel wf0 inputs0 w = (Raise e, s', evs) ->
        exists step0, In step0 (steps wf0) /\
                      dict_get (id step0) (ctx_steps (ctx s')) = None) /\
  ~ (forall (RT : Runtime) (o : Orchestrator RT) (fuel : nat) (wf0 : WorkflowSpec)
            (inputs0 : dict) (w : W RT) (res : outcome dict) (s' : state RT)
            (evs : list event),
        NoDup (map id (steps wf0)) ->
        NoDup (map id (steps (wf s'))) ->
        run RT o fuel wf0 inputs0 w = (res, s', evs) ->
        NoDup (map fst (commits_of evs))).
Proof.
  split.
  - intros H.
    edestruct (H mute_runtime
                 (mkOrchestrator (RT := mute_runtime)
                    (fun _ w => (Ok (VDict []), w)) (fun _ w => (Ok (VDict []), w))
                    None strict_env)
                 2%nat (mkWorkflowSpec "demo" "" [] [wait_step]) [] tt)
      as (step0 & Hin & Hnone); [|reflexivity|].
    + cbn. repeat constructor. intros [].
    + destruct Hin as [<-|[]]. vm_compute in Hnone. discriminate Hnone.
  - intros H.
    set (o := mkOrchestrator (RT := still_runtime)
                guarded_capability guarded_capability (Some renaming_hook) strict_env).
    set (flow := mkWorkflowSpec "demo" "" [] [step_a; step_b]).
    set (r := run still_runtime o 3 flow [] tt).
    assert (Hdup : NoDup (map fst (commits_of (snd r)))).
    { apply (H still_runtime o 3%nat flow [] tt (fst (fst r)) (snd (fst r)) (snd r)).
      - cbn. repeat constructor; cbn; intuition discriminate.
      - vm_compute. repeat constructor; cbn; intuition discriminate.
      - unfold r. now destruct (run still_runtime o 3 flow [] tt) as [[? ?] ?]. }
    vm_compute in Hdup.
    inversion Hdup as [|x xs Hnotin _]. apply Hnotin. now left.
Qed.

(** C6 (amended).  With unique step ids that a repair leaves alone, and a
    [print] that returns: each iteration of the loop over the steps either
    leaves the context as it is or appends one entry under the id of its
    step, the mapping that the validation made of what the capability returned
    for that step in an attempt of that iteration, and that passed [verify];
    so at the end of a run, however it ends, [ctx["steps"]] is the list of
    the assignments made, in order, each id once, nothing removed and nothing
    overwritten.  A run that succeeds returns that context, with one entry per
    step when the hook leaves the list of steps alone and no step has a
    negative retry count; a run that fails in step k has entries for steps
    before k only, and none for step k. *)
Theorem context_append_only (RT : Runtime) (o : Orchestrator RT) (fuel : nat)
        (wf0 : WorkflowSpec) (inputs0 : dict) (w : W RT)
        (res : outcome dict) (s' : state RT) (evs : list event) :
  NoDup (map id (steps wf0)) ->
  hook_keeps_ids RT o ->
  print_returns RT ->
  run RT o fuel wf0 inputs0 w = (res, s', evs) ->
  (forall i step0 s1 r1 s2 ev1,
      nth_error (map id (steps (wf s1))) i = Some (id step0) ->
      dict_get (id step0) (ctx_steps (ctx s1)) = None ->
      run_step RT o i step0 s1 = (r1, s2, ev1) ->
      (r1 = Ok tt /\
       exists out,
         checked_entry RT o ev1 (id step0, VDict out) /\
         ctx_steps (ctx s2) = ctx_steps (ctx s1) ++ [(id step0, VDict out)] /\
         commits_of ev1 = [(id step0, VDict out)]) \/
      (ctx s2 = ctx s1 /\ commits_of ev1 = [])) /\
  ctx_steps (ctx s') = commits_of evs /\
  NoDup (dict_keys (ctx_steps (ctx s'))) /\
  Forall (checked_entry RT o evs) (ctx_steps (ctx s')) /\
  match res with
  | Ok c =>
      c = ctx s' /\
      (hook_keeps_list RT o ->
       (forall st, In st (steps wf0) -> (0 <= retries (policy st))%Z) ->
       dict_keys (ctx_steps c) = map id (steps wf0))
  | Raise e =>
      exists k step0 s_k evs_k,
        nth_error (map id (steps wf0)) k = Some (id step0) /\
        run_step RT o k step0 s_k = (Raise e, s', evs_k) /\
        dict_get (id step0) (ctx_steps (ctx s')) = None /\
        incl (dict_keys (ctx_steps (ctx s'))) (firstn k (map id (steps wf0)))
  | OutOfModel => True
  end.
Proof.
  intros Hnd Hkeep Hprint Hrun. split.
  { intros i step0 s1 r1 s2 ev1 Hid Hfresh Hstep.
    destruct (run_step_cases RT o i step0 s1 s2 r1 ev1 Hkeep Hprint Hid Hstep)
      as (_ & _ & [[-> Hst]|[Hun _]]); [left | right; exact Hun].
    split; [reflexivity|].
    apply stored_once_entry in Hst. destruct Hst as (out & Hctx & Hcom & Hchk).
    exists out. split; [exact Hchk|]. split; [|exact Hcom].
    rewrite Hctx, ctx_steps_store. now apply dict_set_fresh. }
  unfold run, bind in Hrun.
  set (s0 := mkState w wf0 (steps wf0) (dict_set "steps" (VDict []) inputs0)) in Hrun.
  destruct (run_steps RT fuel o 0 s0) as [[r1 s1] e1] eqn:Hsteps.
  assert (Hs0 : ctx_steps (ctx s0) = []).
  { unfold s0. cbn [ctx]. unfold ctx_steps. now rewrite dict_get_set_same. }
  destruct (run_steps_cases RT o (map id (steps wf0)) Hkeep Hprint Hnd
                            fuel 0 s0 s1 r1 e1) as
      (k & Hctx & Hincl & Hnd2 & Hall & Hres).
  - reflexivity.
  - reflexivity.
  - intros x _. now rewrite Hs0.
  - exact Hsteps.
  - rewrite Hs0 in Hctx. cbn [List.app skipn] in Hctx, Hincl, Hres.
    destruct r1 as [u|e|]; inversion Hrun; subst; rewrite ?app_nil_r;
      (split; [exact Hctx|]);
      (split; [unfold dict_keys; rewrite Hctx; exact Hnd2|]);
      (split; [rewrite Hctx; exact Hall|]).
    + unfold get_ctx in *. cbn. split; [reflexivity|].
      intros Hlist Hretries. unfold dict_keys. rewrite Hctx. now apply Hres.
    + destruct Hres as (step0 & s_k & evs_k & Hnth & Hstep & Hnone).
      exists k, step0, s_k, evs_k. cbn [Nat.add] in Hstep, Hnth.
      repeat split; auto. unfold dict_keys. rewrite Hctx. exact Hincl.
    + exact I.
Qed.

(** The two-step workflow of the specification, run with [user_text] =
    "pizza" and a web capability that returns nothing. *)
Lemma context_append_only_witness :
  let o := mkOrchestrator (RT := still_runtime)
             empty_capability empty_capability None strict_env in
  let r := run still_runtime o 3 two_step_workflow [("user_text", VStr "pizza")] tt in
  fst (fst r) =
  Ok [("user_text", VStr "pizza");
      ("steps", VDict [("wait_1", VDict [("waited_seconds", VFloat float_one)]);
                       ("web_1", VDict [("url", VStr "")])])] /\
  ctx_steps (ctx (snd (fst r))) = commits_of (snd r).
Proof.
  intros o r. split; [reflexivity|].
  assert (Hnd : NoDup (map id (steps two_step_workflow))).
  { cbn. repeat constructor; cbn; intuition discriminate. }
  assert (Hkeep : hook_keeps_ids still_runtime o).
  { intros h w0 w1 l0 l1 st m c x x' Hh. discriminate Hh. }
  assert (Hprint : print_returns still_runtime).
  { intros out w. reflexivity. }
  exact (proj1 (proj2 (context_append_only still_runtime o 3 two_step_workflow
                         [("user_text", VStr "pizza")] tt
                         (fst (fst r)) (snd (fst r)) (snd r) Hnd Hkeep Hprint eq_refl))).
Defined.

(** ** C4: references that resolve to nothing *)

Lemma omap_list_ok_in {A B : Type} (f : A -> outcome B) (l : list A) (l' : list B) :
  omap_list f l = Ok l' -> forall x, In x l -> exists y, f x = Ok y.
Proof.
  revert l'. induction l as [|a r IH]; intros l' H x Hin; [contradiction|].
  cbn [omap_list] in H. destruct (f a) as [b| |] eqn:Ha; cbn [obind] in H; try discriminate.
  destruct (omap_list f r) as [r'| |]; cbn [obind] in H; try discriminate.
  destruct Hin as [<-|Hin]; [eauto | eapply IH; eauto].
Qed.

Lemma omap_values_ok_in {A B : Type} (f : A -> outcome B) (d : list (string * A))
      (d' : list (string * B)) :
  omap_values f d = Ok d' -> forall kv, In kv d -> exists y, f (snd kv) = Ok y.
Proof.
  revert d'. induction d as [|a r IH]; intros d' H x Hin; [contradiction|].
  cbn [omap_values] in H. destruct (f (snd a)) as [b| |] eqn:Ha; cbn [obind] in H;
    try discriminate.
  destruct (omap_values f r) as [r'| |]; cbn [obind] in H; try discriminate.
  destruct Hin as [<-|Hin]; [eauto | eapply IH; eauto].
Qed.

Section RenderFacts.
Variable RT : Runtime.
Variable env0 : Environment.
Variable c : dict.

(** A reference that comes to nothing stops the rendering of its template. *)
Lemma render_segments_undefined (segs : list segment) (p : list string) :
  In (Var p) segs -> unresolved (resolve env0 c p) = true ->
  forall out, render_segments RT env0 c segs <> Ok out.
Proof.
  intros Hin Hu. induction segs as [|sg r IH]; [contradiction|].
  intros out. destruct Hin as [->|Hin].
  - cbn [render_segments]. destruct (resolve env0 c p); discriminate.
  - specialize (IH Hin). destruct sg as [ch|q]; cbn [render_segments].
    + destruct (render_segments RT env0 c r) as [x| |] eqn:Hr; cbn [obind];
        try discriminate. now elim (IH x).
    + destruct (resolve env0 c q) as [v|n| |]; try discriminate.
      destruct (py_str RT v); try discriminate.
      destruct (render_segments RT env0 c r) as [x| |] eqn:Hr; cbn [obind];
        try discriminate. now elim (IH x).
Qed.

(** From the undefined object, or from an error, a path of attributes none
    of which starts with an underscore ends in an error. *)
Lemma getattr_unresolved (attrs : list string) :
  forallb (fun a => negb (String.prefix "_" a)) attrs = true ->
  forall l, unresolved l = true -> unresolved (fold_left (getattr env0) attrs l) = true.
Proof.
  induction attrs as [|a r IH]; intros Hall l Hl; [exact Hl|].
  cbn [forallb] in Hall. apply andb_prop in Hall. destruct Hall as [Ha Hr].
  apply negb_true_iff in Ha.
  cbn [fold_left]. apply IH; [exact Hr|].
  destruct l as [v|n| |]; try discriminate; cbn [getattr]; [|reflexivity].
  destruct (String.eqb a "_undefined_name") eqn:He.
  - apply String.eqb_eq in He. subst a. discriminate Ha.
  - now rewrite Ha.
Qed.

Lemma missing_unresolved (x : string) : unresolved (missing env0 x) = true.
Proof. unfold missing. now destruct (undefined env0) as [[]|]. Qed.

(** The only exceptions of the rendering itself are those of an undefined
    reference. *)
Lemma render_segments_raise (segs : list segment) (e : exn) :
  render_segments RT env0 c segs = Raise e -> exists p, e = on_undefined env0 p.
Proof.
  induction segs as [|sg r IH]; [discriminate|].
  destruct sg as [ch|q]; cbn [render_segments].
  - destruct (render_segments RT env0 c r) as [x|e'|]; cbn [obind]; try discriminate.
    intros H. inversion H. subst. now apply IH.
  - destruct (resolve env0 c q) as [v|n| |]; try discriminate.
    + destruct (py_str RT v); try discriminate.
      destruct (render_segments RT env0 c r) as [x|e'|]; cbn [obind]; try discriminate.
      intros H. inversion H. subst. now apply IH.
    + intros H. inversion H. eauto.
    + intros H. inversion H. eauto.
Qed.

Lemma render_string_ok (s out : string) :
  render_string RT env0 c s = Ok out -> render RT env0 c s = Ok out.
Proof.
  unfold render_string. destruct (render RT env0 c s) as [x|e|]; try discriminate.
  - auto.
  - destruct (is_TemplateError e); discriminate.
Qed.

Lemma render_string_undefined (s : string) (p : list string) :
  references s p -> unresolved (resolve env0 c p) = true ->
  (forall out, render_string RT env0 c s <> Ok out) /\
  (forall e, render_string RT env0 c s = Raise e ->
     (undefined env0 = Some StrictUndefined /\
      exists q, e = Exn (TemplateRenderFailed s) (Some (mk_exn (UndefinedError q)))) \/
     (undefined env0 = None /\ e = mk_exn NoneNotCallable)).
Proof.
  intros (segs & Hfs & Hin) Hu. split.
  - intros out H. apply render_string_ok in H. unfold render in H. rewrite Hfs in H.
    now apply (render_segments_undefined segs p Hin Hu out).
  - intros e. unfold render_string, render. rewrite Hfs.
    destruct (render_segments RT env0 c segs) as [x|e'|] eqn:Hr; try discriminate.
    apply render_segments_raise in Hr. destruct Hr as [q ->].
    unfold on_undefined. destruct (undefined env0) as [[]|]; cbn.
    + intros H. inversion H. left. eauto.
    + intros H. inversion H. right. auto.
Qed.

(** A nested value renders only if each of its string leaves does. *)
Lemma render_templates_leaves (v : pyval) :
  forall v', render_templates RT env0 c v = Ok v' ->
  forall s, In s (leaves v) -> exists out, render_string RT env0 c s = Ok out.
Proof.
  induction v as [ | | | |x|l IH|d IH] using pyval_nested_ind;
    intros v' H s Hin; cbn [leaves] in Hin; try contradiction.
  - destruct Hin as [<-|[]]. cbn [render_templates] in H.
    destruct (render_string RT env0 c x); cbn [obind] in H; try discriminate. eauto.
  - cbn [render_templates] in H.
    destruct (omap_list (render_templates RT env0 c) l) as [l'| |] eqn:Hl;
      cbn [obind] in H; try discriminate.
    apply in_flat_map in Hin. destruct Hin as (x & Hx & Hs).
    destruct (omap_list_ok_in _ _ _ Hl x Hx) as [y Hy].
    rewrite Forall_forall in IH. exact (IH x Hx y Hy s Hs).
  - cbn [render_templates] in H.
    destruct (omap_values (render_templates RT env0 c) d) as [d'| |] eqn:Hd;
      cbn [obind] in H; try discriminate.
    apply in_flat_map in Hin. destruct Hin as (kv & Hkv & Hs).
    destruct (omap_values_ok_in _ _ _ Hd kv Hkv) as [y Hy].
    rewrite Forall_forall in IH. exact (IH kv Hkv y Hy s Hs).
Qed.


End RenderFacts.

(** A constructed orchestrator renders with [StrictUndefined]; the only other
    environment [__init__] can build is the one of [strict_templates=False]
    under disabled assertions, whose [undefined] is None. *)
Lemma Orchestrator_init_env (RT : Runtime) (web desktop : capability RT)
      (rh : option (hook RT)) (strict_templates : bool) (o : Orchestrator RT) :
  Orchestrator_init RT web desktop rh strict_templates = Ok o ->
  (strict_templates = true /\ undefined (env o) = Some StrictUndefined) \/
  (strict_templates = false /\ assertions_enabled RT = false /\ undefined (env o) = None).
Proof.
  unfold Orchestrator_init, Environment_new.
  destruct strict_templates; cbn.
  - intros H. inversion H. left. auto.
  - destruct (assertions_enabled RT); cbn; [discriminate|].
    intros H. inversion H. right. auto.
Qed.




(** ** C9: rendering a rendered step *)

Lemma omap_list_fixed {A : Type} (f : A -> outcome A) (l : list A) :
  (forall x, In x l -> f x = Ok x) -> omap_list f l = Ok l.
Proof.
  induction l as [|a r IH]; intros H; [reflexivity|].
  cbn [omap_list]. rewrite (H a (or_introl eq_refl)). cbn [obind].
  rewrite IH; [reflexivity|]. intros x Hx. apply H. now right.
Qed.

Lemma omap_values_fixed {A : Type} (f : A -> outcome A) (d : list (string * A)) :
  (forall kv, In kv d -> f (snd kv) = Ok (snd kv)) -> omap_values f d = Ok d.
Proof.
  induction d as [|[k v] r IH]; intros H; [reflexivity|].
  cbn [omap_values]. rewrite (H (k, v) (or_introl eq_refl)). cbn [obind fst snd].
  rewrite IH; [reflexivity|]. intros x Hx. apply H. now right.
Qed.

Lemma lex_no_markup (s : string) :
  no_markup s = true -> lex s None = Some (map Lit (list_ascii_of_string s)).
Proof.
  induction s as [|ch r IH]; [reflexivity|].
  cbn [no_markup lex list_ascii_of_string map].
  destruct (Ascii.eqb ch "{"%char).
  - destruct r as [|d r']; [reflexivity|].
    destruct (Ascii.eqb d "{"%char); [discriminate|].
    destruct (orb (Ascii.eqb d "%"%char) (Ascii.eqb d "#"%char)); [discriminate|].
    cbn [negb orb andb]. intros H. now rewrite (IH H).
  - intros H. now rewrite (IH H).
Qed.

Lemma drop_final_newline_none (s : string) :
  ends_with_newline s = false -> drop_final_newline s = s.
Proof.
  induction s as [|ch r IH]; [reflexivity|].
  cbn [ends_with_newline drop_final_newline].
  destruct r as [|d r'].
  - intros ->. reflexivity.
  - intros H. now rewrite (IH H).
Qed.

Section FixedPoints.
Variable RT : Runtime.
Variable env0 : Environment.
Variable c : dict.

Lemma render_segments_literals (l : list ascii) :
  render_segments RT env0 c (map Lit l) = Ok (string_of_list_ascii l).
Proof.
  induction l as [|ch r IH]; [reflexivity|].
  cbn [map render_segments string_of_list_ascii]. now rewrite IH.
Qed.

(** Plain text renders to itself. *)
Lemma render_string_plain (s : string) :
  plain s = true -> render_string RT env0 c s = Ok s.
Proof.
  unfold plain. intros H.
  apply andb_true_iff in H. destruct H as [Hcr H].
  apply andb_true_iff in H. destruct H as [Hnl Hm].
  apply negb_true_iff in Hnl.
  unfold render_string, render, from_string.
  rewrite Hcr, (drop_final_newline_none s Hnl), (lex_no_markup s Hm),
    render_segments_literals, string_of_list_ascii_of_string.
  reflexivity.
Qed.

Lemma render_templates_plain (v : pyval) :
  (forall s, In s (leaves v) -> plain s = true) ->
  render_templates RT env0 c v = Ok v.
Proof.
  induction v as [ | | | |x|l IH|d IH] using pyval_nested_ind; intros H;
    try reflexivity.
  - cbn [render_templates]. rewrite render_string_plain; [reflexivity|].
    apply H. now left.
  - cbn [render_templates]. rewrite omap_list_fixed; [reflexivity|].
    intros x Hx. rewrite Forall_forall in IH. apply (IH x Hx).
    intros s Hs. apply H. cbn [leaves]. apply in_flat_map. eauto.
  - cbn [render_templates]. rewrite omap_values_fixed; [reflexivity|].
    intros kv Hkv. rewrite Forall_forall in IH. apply (IH kv Hkv).
    intros s Hs. apply H. cbn [leaves]. apply in_flat_map. eauto.
Qed.

Lemma _render_step_plain (step : Step) :
  (forall s, In s (step_all_leaves step) -> plain s = true) ->
  _render_step RT env0 c step = Ok step.
Proof.
  induction step as [i ty g inp sch post pol hint ev fbs IH] using Step_nested_ind.
  intros H. cbn [step_all_leaves] in H. cbn [_render_step].
  rewrite render_string_plain by (apply H; now left). cbn [obind].
  rewrite render_templates_plain
    by (intros s Hs; apply H; right; apply in_or_app; now left).
  cbn [obind].
  rewrite omap_list_fixed.
  2: { intros x Hx. apply render_templates_plain. intros s Hs. apply H. right.
       apply in_or_app. right. apply in_or_app. left. apply in_flat_map. eauto. }
  cbn [obind].
  rewrite omap_list_fixed.
  2: { intros x Hx. rewrite Forall_forall in IH. apply (IH x Hx).
       intros s Hs. apply H. right.
       apply in_or_app. right. apply in_or_app. right. apply in_flat_map. eauto. }
  reflexivity.
Qed.

End FixedPoints.

(** C9, as stated, fails: a value of the context may itself hold template
    text.  With [user_text] = "{{ nope }}", the goal "{{ user_text }}" renders
    to "{{ nope }}", and rendering that against the same context raises. *)
Lemma rendered_text_may_hold_templates :
  ~ (forall (c : dict) (step step' : Step),
        _render_step still_runtime strict_env c step = Ok step' ->
        _render_step still_runtime strict_env c step' = Ok step').
Proof.
  intros H.
  specialize (H [("user_text", VStr "{{ nope }}"); ("steps", VDict [])]
                (plain_step "s1" "WAIT" "{{ user_text }}" (VDict []) [] 0 "auto")
                (plain_step "s1" "WAIT" "{{ nope }}" (VDict []) [] 0 "auto")
                eq_refl).
  discriminate H.
Qed.

(** C9 (amended).  The rendering of a step depends on the step and the
    context alone, and it changes nothing but the goal, the inputs, the
    postconditions and the fallbacks.  When a step renders to a step none of
    whose strings (goal, inputs, postconditions, fallbacks) holds template
    syntax, a carriage return or a final newline, rendering that step again
    against the same context gives the very same step. *)
Theorem rendering_twice_same (RT : Runtime) (env0 : Environment) (c : dict)
        (step step' : Step) :
  _render_step RT env0 c step = Ok step' ->
  (forall r, _render_step RT env0 c step = r -> r = Ok step') /\
  (id step' = id step /\ type step' = type step /\
   outputs_schema step' = outputs_schema step /\ policy step' = policy step /\
   executor_hint step' = executor_hint step /\ evidence step' = evidence step) /\
  (forall s, plain s = true -> render_string RT env0 c s = Ok s) /\
  ((forall s, In s (step_all_leaves step') -> plain s = true) ->
   _render_step RT env0 c step' = Ok step').
Proof.
  intros Hr. split; [intros r <-; exact Hr|].
  split; [exact (_render_step_keeps RT env0 c step step' Hr)|].
  split; [apply render_string_plain|].
  apply _render_step_plain.
Qed.

Lemma rendering_twice_same_witness :
  let c := [("user_text", VStr "pizza"); ("steps", VDict [])] in
  _render_step still_runtime strict_env c web_step = Ok web_step_rendered /\
  _render_step still_runtime strict_env c web_step_rendered = Ok web_step_rendered.
Proof.
  intros c. split; [reflexivity|].
  apply (rendering_twice_same still_runtime strict_env c web_step web_step_rendered).
  - reflexivity.
  - cbn. intros s [<-|[<-|[]]]; reflexivity.
Defined.

(* ================================================================== *)
(** ** What one step may cost *)

Lemma count_app (p : event -> bool) (a b : list event) :
  count p (a ++ b) = (count p a + count p b)%nat.
Proof. unfold count. now rewrite filter_app, List.length_app. Qed.

Lemma call_events_counts (step : Step) (evs : list event) :
  call_events step evs ->
  (count is_call evs <= 1)%nat /\ count is_post_attempt evs = 0%nat.
Proof. intros [->|[->|[->|[secs ->]]]]; cbn; auto. Qed.

Lemma ctx_step_refl (c : dict) : ctx_step c c.
Proof. now left. Qed.

Ltac conj_split := repeat match goal with |- _ /\ _ => split end.

Ltac split_trace :=
  try match goal with
      | |- context [EvAttempt ?a ?st :: ?l] =>
          lazymatch l with
          | [] => fail
          | _ => change (EvAttempt a st :: l) with ([EvAttempt a st] ++ l)
          end
      end;
  rewrite ?attempts_of_app, ?repairs_of_app, ?commits_of_app, ?count_app,
          ?List.length_app.

Lemma replay_app (c : dict) (a b : list (string * pyval)) :
  replay c (a ++ b) = replay (replay c a) b.
Proof. unfold replay. apply fold_left_app. Qed.

Section EffortFacts.
Variable RT : Runtime.
Variable o : Orchestrator RT.

(** One attempt of the loop: no iteration, no repair, at most one call and at
    most one assignment, which is what becomes of the context; and with a
    [print] that returns, an attempt that fails has assigned nothing. *)
Lemma attempt_body_counts (step : Step) (s s' : state RT) (r : outcome unit)
      (evs : list event) :
  attempt_body RT o step s = (r, s', evs) ->
  attempts_of evs = [] /\ repairs_of evs = [] /\
  count is_post_attempt evs = 0%nat /\
  (count is_call evs <= 1)%nat /\
  (List.length (commits_of evs) <= 1)%nat /\
  ctx s' = replay (ctx s) (commits_of evs) /\
  (print_returns RT -> (forall u, r <> Ok u) -> commits_of evs = []).
Proof.
  intros H.
  destruct (attempt_body_cases RT o step s s' r evs H)
    as (_ & _ & [(Hc & Hce & Hno)|
                 (raw & sa & sb & cevs & out & w & Hce & _ & _ & Hctx & -> & Hr)]).
  - destruct (call_events_quiet step evs Hce) as (Ha & Hr & Hcm).
    destruct (call_events_counts step evs Hce) as (Hn & Hp).
    rewrite Ha, Hr, Hcm, Hp. cbn. repeat split; auto.
  - destruct (call_events_quiet step cevs Hce) as (Ha & Hrp & Hcm).
    destruct (call_events_counts step cevs Hce) as (Hn & Hp).
    rewrite attempts_of_app, repairs_of_app, commits_of_app, !count_app, Ha, Hrp, Hcm, Hp.
    cbn. repeat split; auto; try lia.
    intros Hprint Hno. rewrite (Hprint out w) in Hr. now elim (Hno tt).
Qed.

(** The attempt after a repair: no iteration of the loop, no repair, at most
    one call and at most one assignment. *)
Lemma attempt_after_repair_counts (step : Step) (e : exn) (s s' : state RT)
      (r : outcome unit) (evs : list event) :
  attempt_after_repair RT o step e s = (r, s', evs) ->
  attempts_of evs = [] /\ repairs_of evs = [] /\
  count is_post_attempt evs = 0%nat /\
  (count is_call evs <= 1)%nat /\
  (List.length (commits_of evs) <= 1)%nat /\
  ctx s' = replay (ctx s) (commits_of evs).
Proof.
  rewrite attempt_after_repair_unfold.
  destruct (attempt_after_repair_body RT o step s) as [[r2 s2] evs2] eqn:Hbody.
  pose proof (attempt_after_repair_body_cases RT o step _ _ _ _ Hbody)
    as (_ & _ & Hcases).
  destruct r2 as [u|e2|]; intros H; inversion H; subst.
  - destruct Hcases as (raw & sa & sb & cevs & out & Hce & _ & _ & Hctx & ->).
    destruct (call_events_quiet step cevs Hce) as (Ha & Hr & Hc).
    destruct (call_events_counts step cevs Hce) as (Hn & Hp).
    split_trace. rewrite Ha, Hr, Hc, Hp. cbn.
    repeat split; auto; try lia.
  - destruct Hcases as (Hctx & Hce).
    destruct (call_events_quiet step evs Hce) as (Ha & Hr & Hc).
    destruct (call_events_counts step evs Hce) as (Hn & Hp).
    rewrite Ha, Hr, Hc, Hp. cbn. repeat split; auto.
  - destruct Hcases as (Hctx & Hce).
    destruct (call_events_quiet step evs Hce) as (Ha & Hr & Hc).
    destruct (call_events_counts step evs Hce) as (Hn & Hp).
    rewrite Ha, Hr, Hc, Hp. cbn. repeat split; auto.
Qed.

(** The handler once the retries are used up: without a hook it does nothing
    but re-raise; with one it calls it once, and attempts at most once more. *)
Lemma after_retries_counts (i : nat) (step : Step) (e : exn) (s s' : state RT)
      (res : outcome (option exn * Step)) (evs : list event) :
  after_retries RT o i step e s = (res, s', evs) ->
  attempts_of evs = [] /\
  (repair_hook o = None -> evs = [] /\ res = Raise e /\ s' = s) /\
  (repair_hook o <> None -> List.length (repairs_of evs) = 1%nat) /\
  (count is_post_attempt evs <= List.length (repairs_of evs))%nat /\
  (count is_call evs <= count is_post_attempt evs)%nat /\
  (List.length (commits_of evs) <= count is_post_attempt evs)%nat /\
  ctx s' = replay (ctx s) (commits_of evs) /\
  (forall last st, res = Ok (last, st) -> last = None).
Proof.
  unfold after_retries.
  destruct (repair_hook o) as [h|] eqn:Hh.
  2: { unfold reraise. intros H. inversion H. subst. cbn.
       repeat split; auto; try congruence. }
  unfold bind. rewrite repair_unfold. cbn zeta.
  destruct (h (wf s) (live s) step (str_exn e) (ctx s) (world s))
    as [[[wf' live']|e1|] w'].
  2,3: intros H; inversion H; subst; cbn;
       repeat split; auto; try congruence.
  destruct (nth_error (steps wf') i) as [step0'|].
  2: intros H; inversion H; subst; cbn;
       repeat split; auto; try congruence.
  destruct (_render_step RT (env o) (ctx s) step0') as [step'|e1|].
  2,3: intros H; inversion H; subst; cbn;
       repeat split; auto; try congruence.
  destruct (attempt_after_repair RT o step' e (mkState w' wf' live' (ctx s)))
    as [[r s2] evs2] eqn:Hatt.
  pose proof (attempt_after_repair_counts step' e _ _ _ _ Hatt)
    as (Ha & Hr & Hp & Hn & Hc & Hctx).
  cbn [ctx] in Hctx.
  destruct r as [u|e2|]; cbn [obind ret]; intros H; inversion H; subst;
    rewrite ?app_nil_r; unfold count in *;
    cbn [attempts_of repairs_of commits_of filter is_post_attempt is_call List.length];
    rewrite ?Ha, ?Hr, ?Hp; cbn [List.length];
    conj_split; auto; try discriminate; try lia.
  intros last st Heq. now inversion Heq.
Qed.

(** The retry loop, whatever the attempts do: the iterations it runs are
    numbered from [attempt] on and all work on [step]; the hook is called at
    most once, and only when the iteration just run was the last one the
    retries allow; at most one attempt follows a repair; a capability is called
    at most once per attempt, and the context gets at most one assignment per
    attempt, and one in all when [print] returns; the context changes by
    these assignments alone. *)
Lemma retry_loop_counts (i : nat) (step : Step) :
  forall (n attempt : nat) (last : option exn) (s s' : state RT)
         (res : outcome (option exn * Step)) (evs : list event),
    retry_loop RT o i step last attempt n s = (res, s', evs) ->
    exists k,
      (k <= n)%nat /\
      (n = 0%nat \/ 0 < k)%nat /\
      attempts_of evs = map (fun j => (j, step)) (seq attempt k) /\
      (List.length (repairs_of evs) <= 1)%nat /\
      (count is_post_attempt evs <= List.length (repairs_of evs))%nat /\
      (count is_call evs <= k + count is_post_attempt evs)%nat /\
      ((List.length (commits_of evs) <= k + count is_post_attempt evs)%nat /\
       (print_returns RT -> (List.length (commits_of evs) <= 1)%nat)) /\
      (repairs_of evs <> [] ->
       repair_hook o <> None /\ (0 < k)%nat /\
       (retries (policy step) < Z.of_nat attempt + Z.of_nat k)%Z) /\
      ctx s' = replay (ctx s) (commits_of evs) /\
      (forall last' st, res = Ok (last', st) ->
         last' = None \/ (n = 0%nat /\ last' = last) \/
         (Z.of_nat attempt + Z.of_nat n <= retries (policy step))%Z).
Proof.
  induction n as [|n IH]; intros attempt last s s' res evs.
  - cbn [retry_loop]. unfold ret. intros H. inversion H. subst.
    exists 0%nat. cbn. conj_split; auto; try lia; try congruence.
    intros last' st Heq. inversion Heq. auto.
  - cbn [retry_loop]. unfold bind at 1, log. unfold try_except.
    destruct (attempt_body RT o step s) as [[r s1] b] eqn:Hb.
    pose proof (attempt_body_counts step s s1 r b Hb)
      as (Ha & Hr & Hp & Hn & Hc & Hc1 & Hquiet).
    unfold bind at 1. rewrite Hb.
    destruct r as [u|e|].
    + unfold ret. intros H. inversion H. subst.
      exists 1%nat. rewrite app_nil_r. split_trace. rewrite ?Ha, ?Hr, ?Hp.
      cbn. conj_split; auto; try lia; try congruence.
      intros last' st Heq. inversion Heq. auto.
    + destruct (Z.of_nat attempt <? retries (policy step))%Z eqn:Hlt.
      * apply Z.ltb_lt in Hlt. unfold bind at 1.
        destruct (sleep RT float_backoff s1) as [[r2 s2] e2] eqn:Hs.
        pose proof (sleep_frame RT _ _ _ _ _ Hs) as (Hw2 & Hl2 & Hc2 & ->).
        destruct r2 as [u|e'|].
        -- destruct (retry_loop RT o i step (Some e) (S attempt) n s2)
             as [[res3 s3] e3] eqn:Hloop.
           destruct (IH _ _ _ _ _ _ Hloop)
             as (k & Hk & Hk0 & Hat & Hrp & Hpo & Hca & [Hco Hco1] & Hrep & Hcx & Hlast).
           intros H. inversion H. subst.
           exists (S k). split_trace. rewrite ?Ha, ?Hr, ?Hp, ?Hat.
           cbn [attempts_of repairs_of commits_of List.app List.length seq map
                count filter is_call is_post_attempt Nat.add].
           fold (count is_call e3). fold (count is_post_attempt e3). rewrite ?Hat.
           conj_split; auto; try lia.
           ++ intros Hprint. rewrite (Hquiet Hprint) by discriminate.
              cbn [List.length Nat.add]. auto.
           ++ intros Hne. destruct (Hrep Hne) as (Hh & _ & Hz).
              split; [exact Hh | lia].
           ++ rewrite replay_app. cbn [replay fold_left commits_of].
              rewrite <- Hc1, <- Hc2. exact Hcx.
           ++ intros last' st Heq. destruct (Hlast last' st Heq) as [Hl|[[Hn0 Hl]|Hz]].
              ** now left.
              ** right. right. lia.
              ** right. right. lia.
        -- intros H. inversion H. subst.
           exists 1%nat. rewrite ?app_nil_r. split_trace. rewrite ?Ha, ?Hr, ?Hp.
           cbn [attempts_of repairs_of commits_of List.app List.length seq map
                count filter is_call is_post_attempt Nat.add].
           rewrite ?app_nil_r.
           conj_split; auto; try lia; try congruence; try discriminate;
             try (rewrite replay_app; cbn [replay fold_left]; congruence).
        -- intros H. inversion H. subst.
           exists 1%nat. rewrite ?app_nil_r. split_trace. rewrite ?Ha, ?Hr, ?Hp.
           cbn [attempts_of repairs_of commits_of List.app List.length seq map
                count filter is_call is_post_attempt Nat.add].
           rewrite ?app_nil_r.
           conj_split; auto; try lia; try congruence; try discriminate;
             try (rewrite replay_app; cbn [replay fold_left]; congruence).
      * apply Z.ltb_ge in Hlt.
        destruct (after_retries RT o i step e s1) as [[res3 s3] e3] eqn:Hafter.
        destruct (after_retries_counts i step e s1 s3 res3 e3 Hafter)
          as (Hat & Hnone & Hsome & Hpo & Hca & Hco & Hcx & Hlast).
        intros H. inversion H. subst.
        exists 1%nat. split_trace. rewrite ?Ha, ?Hr, ?Hp, ?Hat.
        cbn [attempts_of repairs_of commits_of List.app List.length seq map
             count filter is_call is_post_attempt Nat.add].
        fold (count is_call e3). fold (count is_post_attempt e3). rewrite ?Hat.
        assert (Hone : (List.length (repairs_of e3) <= 1)%nat).
        { destruct (repair_hook o) as [h|] eqn:Hh.
          - rewrite Hsome; [lia | discriminate].
          - destruct (Hnone eq_refl) as (-> & _). cbn. lia. }
        conj_split; auto; try lia.
        -- intros Hprint. rewrite (Hquiet Hprint) by discriminate.
           cbn [List.length Nat.add]. lia.
        -- intros Hne. split; [|lia].
           intros Hh. destruct (Hnone Hh) as (-> & _). now apply Hne.
        -- rewrite replay_app. rewrite <- Hc1. exact Hcx.
        -- intros last' st Heq. left. eapply Hlast. exact Heq.
    + intros H. inversion H. subst.
      exists 1%nat. rewrite ?app_nil_r. split_trace. rewrite ?Ha, ?Hr, ?Hp.
      cbn. conj_split; auto; try lia; try congruence; try discriminate.
Qed.

End EffortFacts.

(** A step that does not render never enters the loop. *)
Lemma run_step_not_rendered (RT : Runtime) (o : Orchestrator RT) (i : nat)
      (step0 : Step) (s : state RT) :
  (forall step, _render_step RT (env o) (ctx s) step0 <> Ok step) ->
  run_step RT o i step0 s =
  (obind (_render_step RT (env o) (ctx s) step0) (fun _ => Ok tt), s, []).
Proof.
  intros Hno. unfold run_step. unfold bind at 1, get_ctx. unfold bind at 1, lift.
  destruct (_render_step RT (env o) (ctx s) step0) as [step|e|]; try reflexivity.
  now elim (Hno step).
Qed.

(** The loop of a step, entered as [run] enters it. *)
Lemma retry_loop_entered (RT : Runtime) (o : Orchestrator RT) (i : nat)
      (step : Step) (s s' : state RT) (res : outcome (option exn * Step))
      (evs : list event) :
  retry_loop RT o i step None 0 (Z.to_nat (retries (policy step) + 1)) s
  = (res, s', evs) ->
  exists k,
    (Z.of_nat k <= Z.max 0 (retries (policy step) + 1))%Z /\
    ((retries (policy step) < 0)%Z \/ (0 < k)%nat) /\
    attempts_of evs = map (fun j => (j, step)) (seq 0 k) /\
    (List.length (repairs_of evs) <= 1)%nat /\
    (count is_post_attempt evs <= List.length (repairs_of evs))%nat /\
    (count is_call evs <= k + count is_post_attempt evs)%nat /\
    ((List.length (commits_of evs) <= k + count is_post_attempt evs)%nat /\
     (print_returns RT -> (List.length (commits_of evs) <= 1)%nat)) /\
    (repairs_of evs = [] \/
     (repair_hook o <> None /\ Z.of_nat k = (retries (policy step) + 1)%Z)) /\
    ctx s' = replay (ctx s) (commits_of evs) /\
    (forall last st, res = Ok (last, st) -> last = None).
Proof.
  intros Hloop.
  destruct (retry_loop_counts RT o i step _ _ _ _ _ _ _ Hloop)
    as (k & Hk & Hk0 & Hat & Hrp & Hpo & Hca & Hco & Hrep & Hcx & Hlast).
  exists k. conj_split; auto; try lia; try apply Hco.
  - destruct (repairs_of evs) as [|ev r] eqn:Hr; [now left|].
    right. destruct Hrep as (Hh & Hpos & Hz); [discriminate|].
    split; [exact Hh | lia].
  - intros last st Heq. destruct (Hlast last st Heq) as [Hl|[[_ Hl]|Hz]]; auto.
    lia.
Qed.

(** X1.  One step of a run: at most [retries]+1 iterations of the loop,
    numbered from 0 and all on the step as rendered before the loop; at most
    one call of the repair hook, and only after the last iteration the retries
    allow; at most one attempt after it; at most one call of a capability and
    at most one assignment to the context per attempt; and when [print]
    returns, at most one assignment to the context in all (an attempt whose
    [print] raises has assigned and is retried). *)
Theorem step_effort_is_bounded (RT : Runtime) (o : Orchestrator RT) (i : nat)
        (step0 : Step) (s : state RT) :
  let evs := snd (run_step RT o i step0 s) in
  exists (k : nat) (step : Step),
    (Z.of_nat k <= Z.max 0 (retries (policy step0) + 1))%Z /\
    (k = 0%nat \/ _render_step RT (env o) (ctx s) step0 = Ok step) /\
    attempts_of evs = map (fun j => (j, step)) (seq 0 k) /\
    (List.length (repairs_of evs) <= 1)%nat /\
    (count is_post_attempt evs <= List.length (repairs_of evs))%nat /\
    (count is_call evs <= k + count is_post_attempt evs)%nat /\
    (List.length (commits_of evs) <= k + count is_post_attempt evs)%nat /\
    (print_returns RT -> (List.length (commits_of evs) <= 1)%nat) /\
    (repairs_of evs = [] \/
     (repair_hook o <> None /\ Z.of_nat k = (retries (policy step0) + 1)%Z)).
Proof.
  destruct (_render_step RT (env o) (ctx s) step0) as [step|e|] eqn:Hrender.
  2,3: rewrite run_step_not_rendered by (rewrite Hrender; discriminate);
       exists 0%nat, step0; cbn; conj_split; auto; lia.
  rewrite (run_step_unfold RT o i step0 step s Hrender).
  pose proof (_render_step_keeps RT (env o) (ctx s) step0 step Hrender)
    as (_ & _ & _ & Hp & _).
  destruct (retry_loop RT o i step None 0 (Z.to_nat (retries (policy step) + 1)) s)
    as [[r s1] e1] eqn:Hloop.
  destruct (retry_loop_entered RT o i step _ _ _ _ Hloop)
    as (k & Hk & _ & Hat & Hrp & Hpo & Hca & [Hco Hco1] & Hrep & _).
  rewrite Hp in Hk, Hrep.
  assert (Hsnd : snd (match r with
                      | Ok (last, st) =>
                          (match last with
                           | Some e =>
                               if negb (dict_in (id st) (ctx_steps (ctx s1)))
                               then Raise e else Ok tt
                           | None => Ok tt
                           end, s1, e1)
                      | Raise e => (Raise e, s1, e1)
                      | OutOfModel => (OutOfModel, s1, e1)
                      end) = e1).
  { destruct r as [[last st]|e|]; reflexivity. }
  cbn zeta. rewrite Hsnd.
  exists k, step. conj_split; auto.
Qed.

(** An attempt whose [print] raises has stored its outputs and is made again:
    with one retry, the context is assigned twice. *)
Lemma step_effort_is_bounded_witness :
  let o := mkOrchestrator (RT := mute_runtime)
             (fun _ w => (Ok (VDict []), w)) (fun _ w => (Ok (VDict []), w))
             None strict_env in
  let st := plain_step "wait_1" "WAIT" "wait" (VDict [("seconds", VInt 0)]) [] 1 "auto" in
  let s := mkState (RT := mute_runtime) tt (mkWorkflowSpec "w" "" [] [st]) [st]
                   [("steps", VDict [])] in
  List.length (commits_of (snd (run_step mute_runtime o 0 st s))) = 2%nat /\
  (List.length (commits_of (snd (run_step mute_runtime o 0 st s))) <= 2 + 0)%nat.
Proof.
  intros o st s. split; [reflexivity|].
  destruct (step_effort_is_bounded mute_runtime o 0 st s)
    as (k & step & Hk & _ & _ & _ & Hpo & _ & Hco & _).
  cbn zeta in *. cbn in Hk.
  assert (Hposts : count is_post_attempt (snd (run_step mute_runtime o 0 st s)) = 0%nat)
    by reflexivity.
  rewrite Hposts in Hco. lia.
Defined.

(** The test after the loop, [if last_err is not None and step.id not in
    ctx["steps"]: raise last_err], never raises: whenever the loop is left
    without an exception, [last_err] is [None].  So a step fails with what the
    loop raises, and with nothing else. *)
Theorem last_error_check_never_fires (RT : Runtime) (o : Orchestrator RT)
        (i : nat) (step0 step : Step) (s : state RT) :
  _render_step RT (env o) (ctx s) step0 = Ok step ->
  let '(r, s', evs) :=
    retry_loop RT o i step None 0 (Z.to_nat (retries (policy step) + 1)) s in
  match r with
  | Ok (last_err, _) => last_err = None
  | _ => True
  end /\
  run_step RT o i step0 s = (obind r (fun _ => Ok tt), s', evs).
Proof.
  intros Hrender. rewrite (run_step_unfold RT o i step0 step s Hrender).
  destruct (retry_loop RT o i step None 0 (Z.to_nat (retries (policy step) + 1)) s)
    as [[r s1] e1] eqn:Hloop.
  destruct (retry_loop_entered RT o i step _ _ _ _ Hloop)
    as (k & _ & _ & _ & _ & _ & _ & _ & _ & _ & Hlast).
  destruct r as [[last st]|e|]; cbn [obind]; auto.
  rewrite (Hlast last st eq_refl). auto.
Qed.

Lemma last_error_check_never_fires_witness :
  let o := mkOrchestrator (RT := still_runtime)
             failing_capability failing_capability None strict_env in
  exists e s' evs,
    run_step still_runtime o 0 web_step (start web_workflow [("user_text", VStr "pizza")])
    = (Raise e, s', evs).
Proof.
  intros o.
  pose proof (last_error_check_never_fires still_runtime o 0 web_step web_step_rendered
                (start web_workflow [("user_text", VStr "pizza")]) eq_refl) as H.
  destruct (retry_loop still_runtime o 0 web_step_rendered None 0
              (Z.to_nat (retries (policy web_step_rendered) + 1))
              (start web_workflow [("user_text", VStr "pizza")]))
    as [[r s1] e1] eqn:Hloop.
  destruct H as [_ Hrun].
  vm_compute in Hloop. inversion Hloop. subst r.
  eexists. eexists. eexists. exact Hrun.
Defined.

(** A step whose [policy.retries] is negative is passed over: no attempt, no
    call, no error, nothing stored; and this is the only way for a step that
    rendered to leave no trace. *)
Theorem negative_retries_skip_the_step (RT : Runtime) (o : Orchestrator RT)
        (i : nat) (step0 step : Step) (s : state RT) :
  _render_step RT (env o) (ctx s) step0 = Ok step ->
  ((retries (policy step0) < 0)%Z <-> run_step RT o i step0 s = (Ok tt, s, [])).
Proof.
  intros Hrender. rewrite (run_step_unfold RT o i step0 step s Hrender).
  pose proof (_render_step_keeps RT (env o) (ctx s) step0 step Hrender)
    as (_ & _ & _ & Hp & _).
  rewrite Hp. split.
  - intros Hneg.
    replace (Z.to_nat (retries (policy step0) + 1)) with 0%nat by lia.
    reflexivity.
  - destruct (retry_loop RT o i step None 0 (Z.to_nat (retries (policy step0) + 1)) s)
      as [[r s1] e1] eqn:Hloop.
    rewrite <- Hp in Hloop.
    destruct (retry_loop_entered RT o i step _ _ _ _ Hloop)
      as (k & _ & Hk0 & Hat & _).
    rewrite Hp in Hk0.
    intros Heq. destruct Hk0 as [Hneg|Hpos]; [exact Hneg|].
    assert (e1 = []) by (destruct r as [[last st]|e|]; congruence).
    subst e1. destruct k; [lia | discriminate Hat].
Qed.

Lemma negative_retries_skip_the_step_witness :
  let o := mkOrchestrator (RT := still_runtime)
             failing_capability failing_capability None strict_env in
  let st := plain_step "web_1" "WEB" "search" (VDict [("task", VStr "pizza")])
                       [("url", "string")] (-1) "auto" in
  run_step still_runtime o 0 st (start web_workflow [])
  = (Ok tt, start web_workflow [], []).
Proof.
  intros o st.
  apply (negative_retries_skip_the_step still_runtime o 0 st st (start web_workflow [])).
  - reflexivity.
  - cbn. lia.
Defined.

(* ================================================================== *)
(** ** The inputs of a run *)

Lemma dict_set_keys_in {A : Type} (k : string) (v : A) (d : list (string * A)) :
  dict_in k d = true -> dict_keys (dict_set k v d) = dict_keys d.
Proof.
  unfold dict_in, dict_keys.
  induction d as [|[k' v'] d IH]; cbn [dict_get dict_set map fst]; [discriminate|].
  destruct (String.eqb k k') eqn:He.
  - apply String.eqb_eq in He. now subst.
  - intros H. cbn [map fst]. now rewrite (IH H).
Qed.

Lemma same_inputs_refl (c : dict) : same_inputs c c.
Proof. split; auto. Qed.

Lemma same_inputs_trans (a b c : dict) :
  same_inputs a b -> same_inputs b c -> same_inputs a c.
Proof.
  intros [K1 G1] [K2 G2]. split; [congruence|].
  intros k Hk. now rewrite (G2 k Hk), (G1 k Hk).
Qed.

(** An assignment to [ctx["steps"]] leaves every other key alone. *)
Lemma ctx_step_same_inputs (c c' : dict) :
  (exists d, dict_get "steps" c = Some (VDict d)) -> ctx_step c c' ->
  same_inputs c c' /\ exists d, dict_get "steps" c' = Some (VDict d).
Proof.
  intros [d Hd] [->|(k & out & ->)].
  - split; [apply same_inputs_refl | eauto].
  - unfold ctx_store. split; [split|].
    + apply dict_set_keys_in. unfold dict_in. now rewrite Hd.
    + intros k' Hk'. apply dict_get_set_other. congruence.
    + rewrite dict_get_set_same. eauto.
Qed.

(** Assignments to [ctx["steps"]] leave every other key alone. *)
Lemma replay_same_inputs (l : list (string * pyval)) :
  forall c,
    (exists d, dict_get "steps" c = Some (VDict d)) ->
    same_inputs c (replay c l) /\ exists d, dict_get "steps" (replay c l) = Some (VDict d).
Proof.
  induction l as [|[k v] l IH]; intros c Hd.
  - split; [apply same_inputs_refl | exact Hd].
  - unfold replay. cbn [fold_left fst snd]. fold (replay c l).
    destruct v; try (apply IH; exact Hd).
    assert (Hstep : ctx_step c (ctx_store c k d)) by (right; eauto).
    destruct (ctx_step_same_inputs _ _ Hd Hstep) as [Hs1 Hd1].
    destruct (IH _ Hd1) as [Hs2 Hd2].
    split; [eapply same_inputs_trans; eauto | exact Hd2].
Qed.

Section InputFacts.
Variable RT : Runtime.
Variable o : Orchestrator RT.

(** One iteration of the loop over the steps changes the context by the
    assignments its trace shows, and by nothing else. *)
Lemma run_step_replay (i : nat) (step0 : Step) (s s' : state RT)
      (res : outcome unit) (evs : list event) :
  run_step RT o i step0 s = (res, s', evs) ->
  ctx s' = replay (ctx s) (commits_of evs).
Proof.
  destruct (_render_step RT (env o) (ctx s) step0) as [step|e|] eqn:Hrender.
  2,3: rewrite run_step_not_rendered by (rewrite Hrender; discriminate);
       intros H; inversion H; subst; reflexivity.
  rewrite (run_step_unfold RT o i step0 step s Hrender).
  destruct (retry_loop RT o i step None 0 (Z.to_nat (retries (policy step) + 1)) s)
    as [[r s1] e1] eqn:Hloop.
  destruct (retry_loop_entered RT o i step _ _ _ _ Hloop)
    as (k & _ & _ & _ & _ & _ & _ & _ & _ & Hcx & _).
  destruct r as [[last st]|e|]; intros H; inversion H; subst; exact Hcx.
Qed.

Lemma run_steps_unfold (fuel i : nat) (s : state RT) :
  run_steps RT (S fuel) o i s =
  match nth_error (live s) i with
  | None => (Ok tt, s, [])
  | Some step0 => bind RT (run_step RT o i step0) (fun _ => run_steps RT fuel o (S i)) s
  end.
Proof.
  cbn [run_steps]. unfold bind at 1, get_live.
  destruct (nth_error (live s) i) as [step0|]; [|reflexivity].
  now destruct (bind RT (run_step RT o i step0) (fun _ => run_steps RT fuel o (S i)) s)
    as [[? ?] ?].
Qed.

Lemma run_steps_replay :
  forall (fuel i : nat) (s s' : state RT) (res : outcome unit) (evs : list event),
    run_steps RT fuel o i s = (res, s', evs) ->
    ctx s' = replay (ctx s) (commits_of evs).
Proof.
  induction fuel as [|fuel IH]; intros i s s' res evs.
  - cbn [run_steps]. unfold out_of_fuel. intros H. inversion H. subst. reflexivity.
  - rewrite run_steps_unfold.
    destruct (nth_error (live s) i) as [step0|].
    2: { intros H. inversion H. subst. reflexivity. }
    intros H. apply bind_inv in H.
    destruct H as [(a & s1 & e1 & e2 & H1 & H & ->)|[(e & H1 & ->)|(H1 & ->)]].
    + apply run_step_replay in H1. apply IH in H.
      rewrite commits_of_app, replay_app. congruence.
    + now apply run_step_replay in H1.
    + now apply run_step_replay in H1.
Qed.

End InputFacts.

(** X4.  A run never touches what it was given: in the context it ends with
    (and returns, when it returns) the keys are those of
    [{**inputs, "steps": {}}] in that order, every key but [steps] holds its
    input value, and [steps] holds a mapping. *)
Theorem inputs_are_kept (RT : Runtime) (o : Orchestrator RT) (fuel : nat)
        (wf0 : WorkflowSpec) (inputs0 : dict) (w : W RT) :
  let r := run RT o fuel wf0 inputs0 w in
  let c' := ctx (snd (fst r)) in
  dict_keys c' = dict_keys (dict_set "steps" (VDict []) inputs0) /\
  (forall k, k <> "steps" -> dict_get k c' = dict_get k inputs0) /\
  dict_get "steps" c' = Some (VDict (ctx_steps c')) /\
  match fst (fst r) with
  | Ok c => c = c'
  | _ => True
  end.
Proof.
  cbn zeta. unfold run.
  set (s0 := mkState w wf0 (steps wf0) (dict_set "steps" (VDict []) inputs0)).
  destruct (bind RT (run_steps RT fuel o 0) (fun _ => get_ctx RT) s0)
    as [[res s'] evs] eqn:Hrun.
  cbn [fst snd].
  apply bind_inv in Hrun.
  assert (Hd0 : exists d, dict_get "steps" (ctx s0) = Some (VDict d)).
  { exists []. unfold s0. cbn [ctx]. apply dict_get_set_same. }
  assert (Hall : (exists l, ctx s' = replay (ctx s0) l) /\
                 match res with Ok c => c = ctx s' | _ => True end).
  { destruct Hrun as [(a & s1 & e1 & e2 & H1 & H & ->)|[(e & H1 & ->)|(H1 & ->)]].
    - unfold get_ctx in H. inversion H. subst.
      split; [|reflexivity]. eexists. eapply run_steps_replay; eauto.
    - split; [|exact I]. eexists. eapply run_steps_replay; eauto.
    - split; [|exact I]. eexists. eapply run_steps_replay; eauto. }
  destruct Hall as [[l Hl] Hres].
  destruct (replay_same_inputs l (ctx s0) Hd0) as [[Hk Hg] [d Hd]].
  rewrite <- Hl in Hk, Hg, Hd.
  unfold s0 in Hk, Hg. cbn [ctx] in Hk, Hg.
  conj_split.
  - exact Hk.
  - intros k Hne. rewrite (Hg k Hne). apply dict_get_set_other. congruence.
  - unfold ctx_steps. now rewrite Hd.
  - exact Hres.
Qed.

(* ================================================================== *)
(** ** Attempts that cannot succeed *)


Lemma attempts_trace_posts (step : Step) (bodies : list (list event)) :
  Forall (call_events step) bodies ->
  forall a, count is_post_attempt (attempts_trace step a bodies) = 0%nat.
Proof.
  induction 1 as [|b0 bs Hb Hbs IH]; intros a; [reflexivity|].
  destruct (call_events_counts step b0 Hb) as [_ Hp].
  destruct bs as [|b1 bs].
  - cbn [attempts_trace]. rewrite app_nil_r.
    change (EvAttempt a step :: b0) with ([EvAttempt a step] ++ b0).
    rewrite count_app, Hp. reflexivity.
  - rewrite attempts_trace_cons2.
    change (EvAttempt a step :: b0 ++ EvSleep float_backoff
              :: attempts_trace step (S a) (b1 :: bs))
      with ([EvAttempt a step] ++ b0 ++ [EvSleep float_backoff]
              ++ attempts_trace step (S a) (b1 :: bs)).
    rewrite !count_app, Hp, IH. reflexivity.
Qed.

Section RejectedFacts.
Variable RT : Runtime.
Variable o : Orchestrator RT.

Remark dispatch_unsupported (step : Step) (s : state RT) :
  type step <> "WEB" -> type step <> "DESKTOP" -> type step <> "WAIT" ->
  dispatch RT o step s =
  (Raise (mk_exn (UnsupportedStepType (id step) (type step))), s, []).
Proof.
  intros H1 H2 H3. unfold dispatch.
  apply String.eqb_neq in H1, H2, H3. now rewrite H1, H2, H3.
Qed.



End RejectedFacts.



(** A repair hook that answers with a workflow that has no step at the index
    of the failing step: the run fails with the [IndexError] of
    [wf.steps[i]], after the hook was called once and before any further
    attempt; the error of the attempts is not what is raised. *)
Theorem repair_that_drops_the_step (RT : Runtime) (o : Orchestrator RT) (h : hook RT)
        (i : nat) (step0 step : Step) (s : state RT) :
  _render_step RT (env o) (ctx s) step0 = Ok step ->
  (0 <= retries (policy step))%Z ->
  always_fails RT o step ->
  backoff_returns RT ->
  repair_hook o = Some h ->
  (forall w l st m c x, exists w' l' x',
      h w l st m c x = (Ok (w', l'), x') /\ nth_error (steps w') i = None) ->
  exists s' evs,
    run_step RT o i step0 s = (Raise (mk_exn IndexError), s', evs) /\
    ctx s' = ctx s /\
    nth_error (steps (wf s')) i = None /\
    attempts_of evs = map (fun j => (j, step)) (seq 0 (Z.to_nat (retries (policy step) + 1))) /\
    List.length (repairs_of evs) = 1%nat /\
    count is_post_attempt evs = 0%nat /\
    commits_of evs = [].
Proof.
  intros Hrender Hr Hfail Hback Hh Hdrop.
  rewrite (run_step_unfold RT o i step0 step s Hrender).
  destruct (retry_loop_all_fail RT o i step Hfail Hback
              (Z.to_nat (retries (policy step) + 1)) 0 None s)
    as (bodies & e & s_l & s_r & b & Hlen & Hall & Hlast & Hw & Hl & Hc & Heq);
    [lia | lia |].
  rewrite Heq. unfold after_retries. rewrite Hh. unfold bind.
  rewrite repair_unfold. cbn zeta.
  destruct (Hdrop (wf s_r) (live s_r) step (str_exn e) (ctx s_r) (world s_r))
    as (w' & l' & x' & Hhook & Hnth).
  rewrite Hhook, Hnth.
  destruct (attempts_trace_shape step bodies Hall 0) as (Ha & Hrp & Hcm).
  eexists. eexists. split; [reflexivity|].
  cbn [ctx wf]. split_trace. rewrite Ha, Hrp, Hcm, Hlen.
  rewrite (attempts_trace_posts step bodies Hall 0).
  cbn. rewrite app_nil_r. conj_split; auto.
Qed.

Lemma repair_that_drops_the_step_witness :
  let o := mkOrchestrator (RT := still_runtime)
             failing_capability failing_capability (Some dropping_hook) strict_env in
  exists s' evs,
    run_step still_runtime o 0 web_step_rendered (start web_workflow [])
    = (Raise (mk_exn IndexError), s', evs) /\
    steps (wf s') = [].
Proof.
  intros o.
  destruct (repair_that_drops_the_step still_runtime o dropping_hook 0
              web_step_rendered web_step_rendered (start web_workflow []))
    as (s' & evs & Hrun & _).
  - reflexivity.
  - cbn. lia.
  - intros [[] w c]. eexists. reflexivity.
  - intros w. reflexivity.
  - reflexivity.
  - intros w l st m c x. eexists. eexists. eexists. split; reflexivity.
  - exists s', evs. split; [exact Hrun|].
    vm_compute in Hrun. inversion Hrun. reflexivity.
Defined.

(* ================================================================== *)
(** ** What an attempt does with the result of a call *)

(** [max_seconds] is looked at once the call has returned: an attempt whose
    call took longer has made the call, drops what it returned, valid or not,
    and fails with the error that names the limit; the context stays as it
    was. *)
Theorem late_result_is_discarded (RT : Runtime) (o : Orchestrator RT) (step : Step)
        (s s2 : state RT) (t0 t1 : spec_float) (w1 w3 : W RT) (raw : pyval)
        (cevs : list event) :
  time_time RT (world s) = (t0, w1) ->
  dispatch RT o step (mkState w1 (wf s) (live s) (ctx s)) = (Ok raw, s2, cevs) ->
  time_time RT (world s2) = (t1, w3) ->
  float_gt_Z (SFsub prec emax t1 t0) (max_seconds (policy step)) = true ->
  attempt_body RT o step s =
  (Raise (mk_exn (ExceededMaxSeconds (id step))),
   mkState w3 (wf s) (live s) (ctx s), cevs) /\
  call_events step cevs.
Proof.
  intros Ht0 Hd Ht1 Hlate.
  pose proof (dispatch_frame RT o step _ _ _ _ Hd) as (Hw & Hl & Hc & Hce).
  cbn [wf live ctx] in Hw, Hl, Hc.
  split; [|exact Hce].
  apply attempt_body_stage_fails.
  unfold attempt_stage. unfold bind at 1, now at 1, extern. rewrite Ht0.
  unfold bind at 1. rewrite Hd.
  unfold bind at 1, now at 1, extern. rewrite Ht1.
  rewrite Hlate. unfold raise. cbn [List.app wf live ctx].
  now rewrite Hw, Hl, Hc, !app_nil_r.
Qed.

Lemma late_result_is_discarded_witness :
  let o := mkOrchestrator (RT := ticking_runtime)
             steady_capability steady_capability None strict_env in
  let s := mkState (RT := ticking_runtime) 0%Z web_workflow [] [("steps", VDict [])] in
  attempt_body ticking_runtime o web_step_rendered s =
  (Raise (mk_exn (ExceededMaxSeconds "web_1")),
   mkState (RT := ticking_runtime) 200%Z web_workflow [] [("steps", VDict [])],
   [EvWebRun web_step_rendered]).
Proof.
  intros o s.
  apply (late_result_is_discarded ticking_runtime o web_step_rendered s
           (mkState (RT := ticking_runtime) 100%Z web_workflow [] [("steps", VDict [])])
           (binary_normalize prec emax 0 0 false)
           (binary_normalize prec emax 100 0 false)
           100%Z 200%Z (VDict [("url", VStr "x")]) [EvWebRun web_step_rendered]).
  - reflexivity.
  - reflexivity.
  - reflexivity.
  - vm_compute. reflexivity.
Defined.

(** A capability that returns something that is no mapping: an attempt of the
    loop that is in time says so, naming the type; the attempt after a repair
    has no such test and no time limit, and fails in the validation of the
    outputs (once pydantic has built the model of the step, which it does
    when it takes the names of the schema), naming the type where the keys
    would be, with the error that led to the repair as its cause. *)
Theorem non_mapping_result_is_rejected (RT : Runtime) (o : Orchestrator RT)
        (step : Step) (raw : pyval) :
  is_dict raw = false ->
  (forall (s s2 : state RT) (t0 t1 : spec_float) (w1 w3 : W RT) (cevs : list event),
      time_time RT (world s) = (t0, w1) ->
      dispatch RT o step (mkState w1 (wf s) (live s) (ctx s)) = (Ok raw, s2, cevs) ->
      time_time RT (world s2) = (t1, w3) ->
      float_gt_Z (SFsub prec emax t1 t0) (max_seconds (policy step)) = false ->
      attempt_body RT o step s =
      (Raise (mk_exn (ExecutorMustReturnDict (id step) (type_name raw))),
       mkState w3 (wf s) (live s) (ctx s), cevs)) /\
  (forall (s s2 : state RT) (e : exn) (cevs : list event),
      schema_in_model step = true ->
      dispatch_after_repair RT o step s = (Ok raw, s2, cevs) ->
      attempt_after_repair RT o step e s =
      (Raise (Exn (OutputValidationFailed (id step) (dict_keys (outputs_schema step))
                                          (inr (type_name raw)))
                  (Some e)), s2, cevs)).
Proof.
  intros Hraw. split.
  - intros s s2 t0 t1 w1 w3 cevs Ht0 Hd Ht1 Hin.
    pose proof (dispatch_frame RT o step _ _ _ _ Hd) as (Hw & Hl & Hc & Hce).
    cbn [wf live ctx] in Hw, Hl, Hc.
    apply attempt_body_stage_fails.
    unfold attempt_stage. unfold bind at 1, now at 1, extern. rewrite Ht0.
    unfold bind at 1. rewrite Hd.
    unfold bind at 1, now at 1, extern. rewrite Ht1.
    rewrite Hin, Hraw. unfold raise. cbn [negb List.app wf live ctx].
    now rewrite Hw, Hl, Hc, !app_nil_r.
  - intros s s2 e cevs Hm Hd.
    rewrite attempt_after_repair_unfold. unfold attempt_after_repair_body.
    unfold bind at 1. rewrite Hd. unfold bind at 1.
    rewrite validate_and_store_cases.
    assert (Hv : _validate_outputs RT step raw =
                 Raise (Exn (OutputValidationFailed (id step)
                               (dict_keys (outputs_schema step)) (inr (type_name raw)))
                            (Some (mk_exn (ValidationError []))))).
    { unfold _validate_outputs.
      destruct (schema_in_model_output step Hm) as [M ->].
      destruct raw; try discriminate; reflexivity. }
    rewrite Hv. now rewrite app_nil_r.
Qed.

Lemma non_mapping_result_is_rejected_witness :
  let o := mkOrchestrator (RT := still_runtime)
             list_capability list_capability None strict_env in
  let s := start web_workflow [] in
  attempt_body still_runtime o web_step_rendered s =
  (Raise (mk_exn (ExecutorMustReturnDict "web_1" "list")), s,
   [EvWebRun web_step_rendered]) /\
  attempt_after_repair still_runtime o web_step_rendered (mk_exn (External "boom")) s =
  (Raise (Exn (OutputValidationFailed "web_1" ["url"] (inr "list"))
              (Some (mk_exn (External "boom")))), s, [EvWebRun web_step_rendered]).
Proof.
  intros o s.
  destruct (non_mapping_result_is_rejected still_runtime o web_step_rendered (VList [])
              eq_refl) as [Hloop Hpost].
  split.
  - apply (Hloop s s float_zero float_zero tt tt [EvWebRun web_step_rendered]);
      reflexivity.
  - apply (Hpost s s (mk_exn (External "boom")) [EvWebRun web_step_rendered]);
      reflexivity.
Defined.

(* ================================================================== *)
(** ** What rendering keeps, and what it reaches *)

Lemma omap_list_Forall2 {A B : Type} (f : A -> outcome B) (l : list A) :
  forall l', omap_list f l = Ok l' -> Forall2 (fun x y => f x = Ok y) l l'.
Proof.
  induction l as [|x l IH]; intros l'; cbn [omap_list].
  - intros H. inversion H. constructor.
  - destruct (f x) as [y| |] eqn:Hx; cbn [obind]; try discriminate.
    destruct (omap_list f l) as [ys| |]; cbn [obind]; try discriminate.
    intros H. inversion H. subst. constructor; auto.
Qed.

Lemma omap_values_Forall2 {A B : Type} (f : A -> outcome B) (d : list (string * A)) :
  forall d', omap_values f d = Ok d' ->
             Forall2 (fun kv kv' => fst kv = fst kv' /\ f (snd kv) = Ok (snd kv')) d d'.
Proof.
  induction d as [|kv d IH]; intros d'; cbn [omap_values].
  - intros H. inversion H. constructor.
  - destruct (f (snd kv)) as [y| |] eqn:Hx; cbn [obind]; try discriminate.
    destruct (omap_values f d) as [ys| |]; cbn [obind]; try discriminate.
    intros H. inversion H. subst. constructor; auto.
Qed.

Lemma same_shape_list (l l' : list pyval) :
  same_shape (VList l) (VList l') <-> Forall2 same_shape l l'.
Proof.
  revert l'. induction l as [|x l IH]; intros [|x' l'].
  - split; [constructor | exact (fun _ => I)].
  - split; [contradiction | intros H; inversion H].
  - split; [contradiction | intros H; inversion H].
  - change (same_shape (VList (x :: l)) (VList (x' :: l')))
      with (same_shape x x' /\ same_shape (VList l) (VList l')).
    rewrite IH. split.
    + intros [Hx Hl]. now constructor.
    + intros H. inversion H. subst. auto.
Qed.

Lemma same_shape_dict (d d' : dict) :
  same_shape (VDict d) (VDict d') <->
  Forall2 (fun kv kv' => fst kv = fst kv' /\ same_shape (snd kv) (snd kv')) d d'.
Proof.
  revert d'. induction d as [|kv d IH]; intros [|kv' d'].
  - split; [constructor | exact (fun _ => I)].
  - split; [contradiction | intros H; inversion H].
  - split; [contradiction | intros H; inversion H].
  - change (same_shape (VDict (kv :: d)) (VDict (kv' :: d')))
      with (fst kv = fst kv' /\ same_shape (snd kv) (snd kv') /\
            same_shape (VDict d) (VDict d')).
    rewrite IH. split.
    + intros (Hk & Hx & Hd). now constructor.
    + intros H. inversion H. subst. tauto.
Qed.

Lemma same_shape_keys (d d' : dict) :
  same_shape (VDict d) (VDict d') -> dict_keys d' = dict_keys d.
Proof.
  rewrite same_shape_dict. induction 1 as [|kv kv' d d' [Hk _] _ IH]; [reflexivity|].
  unfold dict_keys in *. cbn [map]. congruence.
Qed.

Lemma dict_in_keys {A B : Type} (k : string) (d : list (string * A))
      (d' : list (string * B)) :
  dict_keys d' = dict_keys d -> dict_in k d' = dict_in k d.
Proof.
  unfold dict_in, dict_keys. revert d'.
  induction d as [|[k1 v1] d IH]; intros [|[k2 v2] d']; cbn [map fst dict_get];
    try discriminate; [reflexivity|].
  intros H. inversion H. subst. destruct (String.eqb k k1); [reflexivity|].
  now apply IH.
Qed.

Lemma same_shape_has_key (v v' : pyval) (k : string) :
  same_shape v v' -> is_dict v' = is_dict v /\ has_key k v' = has_key k v.
Proof.
  intros H. destruct v, v'; try (cbn in H; try contradiction; try discriminate;
                                 now split).
  split; [reflexivity|]. cbn [has_key]. apply dict_in_keys.
  now apply same_shape_keys.
Qed.

Section ShapeFacts.
Variable RT : Runtime.
Variable env0 : Environment.
Variable c : dict.

Lemma render_templates_shape (v : pyval) :
  forall v', render_templates RT env0 c v = Ok v' -> same_shape v v'.
Proof.
  induction v as [ | | | |x|l IH|d IH] using pyval_nested_ind; intros v';
    cbn [render_templates]; try (intros H; inversion H; reflexivity).
  - destruct (render_string RT env0 c x); cbn [obind]; try discriminate.
    intros H. inversion H. exact I.
  - destruct (omap_list (render_templates RT env0 c) l) as [l'| |] eqn:Hl;
      cbn [obind]; try discriminate.
    intros H. inversion H. subst. apply same_shape_list.
    apply omap_list_Forall2 in Hl. clear H.
    induction Hl as [|x y l l' Hxy Hl IHl]; [constructor|].
    inversion IH. subst. constructor; auto.
  - destruct (omap_values (render_templates RT env0 c) d) as [d'| |] eqn:Hd;
      cbn [obind]; try discriminate.
    intros H. inversion H. subst. apply same_shape_dict.
    apply omap_values_Forall2 in Hd. clear H.
    induction Hd as [|x y l l' [Hk Hxy] Hl IHl]; [constructor|].
    inversion IH. subst. constructor; auto.
Qed.


End ShapeFacts.

(** Rendering changes strings and nothing else: the rendered inputs and
    postconditions have the keys of the originals in the same order, lists of
    the same length, and the same values wherever there is no string; so
    whether the inputs are a mapping, and which keys they have, can be read off
    the step before it is rendered.  There are as many fallbacks after as
    before. *)
Theorem rendering_keeps_the_shape (RT : Runtime) (env0 : Environment) (c : dict)
        (step0 step : Step) :
  _render_step RT env0 c step0 = Ok step ->
  same_shape (inputs step0) (inputs step) /\
  Forall2 same_shape (postconditions step0) (postconditions step) /\
  List.length (fallbacks step) = List.length (fallbacks step0) /\
  is_dict (inputs step) = is_dict (inputs step0) /\
  (forall k, has_key k (inputs step) = has_key k (inputs step0)).
Proof.
  destruct step0 as [i ty g inp sch post pol hint ev fbs].
  cbn [_render_step].
  destruct (render_string RT env0 c g) as [g'| |] eqn:Hg; cbn [obind]; try discriminate.
  destruct (render_templates RT env0 c inp) as [inp'| |] eqn:Hi; cbn [obind];
    try discriminate.
  destruct (omap_list (render_templates RT env0 c) post) as [post'| |] eqn:Hp;
    cbn [obind]; try discriminate.
  destruct (omap_list (_render_step RT env0 c) fbs) as [fbs'| |] eqn:Hf;
    cbn [obind]; try discriminate.
  intros H. inversion H. subst. cbn [inputs postconditions fallbacks].
  pose proof (render_templates_shape RT env0 c inp inp' Hi) as Hshape.
  split; [exact Hshape|]. split; [|split; [|split]].
  - apply omap_list_Forall2 in Hp. clear - Hp.
    induction Hp as [|x y l l' Hxy Hl IHl]; constructor; auto.
    eapply render_templates_shape; eauto.
  - apply omap_list_Forall2 in Hf. symmetry. eapply Forall2_length; eauto.
  - apply (same_shape_has_key inp inp' ""). exact Hshape.
  - intros k. apply (same_shape_has_key inp inp' k). exact Hshape.
Qed.

Lemma rendering_keeps_the_shape_witness :
  let c := [("user_text", VStr "pizza"); ("steps", VDict [])] in
  same_shape (inputs web_step) (inputs web_step_rendered) /\
  has_key "task" (inputs web_step_rendered) = has_key "task" (inputs web_step).
Proof.
  intros c.
  destruct (rendering_keeps_the_shape still_runtime strict_env c web_step
              web_step_rendered eq_refl) as (Hs & _ & _ & _ & Hk).
  split; [exact Hs | exact (Hk "task")].
Defined.



(* ================================================================== *)
(** ** Validating what was validated *)

Lemma dict_get_NoDup_in {A : Type} (k : string) (v : A) (l : list (string * A)) :
  NoDup (dict_keys l) -> In (k, v) l -> dict_get k l = Some v.
Proof.
  unfold dict_keys. induction l as [|[k' v'] l IH]; cbn [map fst dict_get In];
    [contradiction|].
  intros Hnd [Heq|Hin].
  - inversion Heq. subst. now rewrite String.eqb_refl.
  - inversion Hnd as [|? ? Hnot Hnd']. subst.
    destruct (String.eqb k k') eqn:He; [|now apply IH].
    apply String.eqb_eq in He. subst. elim Hnot.
    change k' with (fst (k', v)). now apply in_map.
Qed.

Section StableFacts.
Variable RT : Runtime.

Lemma validate_value_stable (ty : pytype) (v v' : pyval) :
  validate_value RT ty v = Some v' -> validate_value RT ty v' = Some v'.
Proof.
  destruct ty, v; cbn [validate_value]; try discriminate;
    try (intros H; inversion H; reflexivity).
  - destruct (float_of_Z z); cbn; [|discriminate]. intros H. now inversion H.
  - destruct (lax_float_of_str RT s); cbn; [|discriminate]. intros H. now inversion H.
  - destruct (z =? 0)%Z; [intros H; now inversion H|].
    destruct (z =? 1)%Z; [intros H; now inversion H | discriminate].
  - destruct (SFeqb f float_zero); [intros H; now inversion H|].
    destruct (SFeqb f float_one); [intros H; now inversion H | discriminate].
  - destruct (str_in (lower s) bool_true_strs); [intros H; now inversion H|].
    destruct (str_in (lower s) bool_false_strs); [intros H; now inversion H | discriminate].
Qed.

(** The default of a generated field is a value of the field's type. *)
Lemma field_info_default (ty : string) :
  validate_value RT (fst (field_info ty)) (snd (field_info ty))
  = Some (snd (field_info ty)).
Proof.
  unfold field_info, _TYPE_MAP. cbn [dict_get].
  repeat match goal with
         | |- context [if ?b then _ else _] => destruct b
         end; reflexivity.
Qed.

Lemma output_model_defaults (step : Step) (M : OutputModel) (f : string * FieldInfo) :
  output_model step = Some M ->
  In f (model_fields M) ->
  validate_value RT (fst (snd f)) (snd (snd f)) = Some (snd (snd f)).
Proof.
  intros HM.
  destruct (outputs_schema step) as [|nt r] eqn:Hs.
  - rewrite (output_model_empty step M HM Hs). intros [<-|[]]. reflexivity.
  - rewrite (output_model_fields step M HM) by (rewrite Hs; discriminate).
    rewrite in_map_iff. intros (x & <- & _). apply field_info_default.
Qed.

Lemma output_model_keys (step : Step) (M : OutputModel) :
  output_model step = Some M ->
  NoDup (dict_keys (outputs_schema step)) ->
  NoDup (dict_keys (model_fields M)).
Proof.
  intros HM.
  destruct (outputs_schema step) as [|nt r] eqn:Hs.
  - rewrite (output_model_empty step M HM Hs). intros _. repeat constructor. intros [].
  - rewrite (output_model_fields step M HM) by (rewrite Hs; discriminate).
    rewrite Hs. intros H. unfold dict_keys in *. now rewrite schema_fields_keys.
Qed.

Lemma fields_ext (fields : list (string * FieldInfo)) (a b : dict) :
  (forall f, In f fields -> validate_field RT a f = validate_field RT b f) ->
  failing_fields RT fields a = failing_fields RT fields b /\
  validated_fields RT fields a = validated_fields RT fields b.
Proof.
  unfold failing_fields.
  induction fields as [|f r IH]; intros H; [split; reflexivity|].
  destruct IH as [IH1 IH2]; [intros g Hg; apply H; now right|].
  cbn [filter validated_fields]. rewrite (H f (or_introl eq_refl)).
  destruct (validate_field RT b f); cbn [map]; split; congruence.
Qed.

Lemma validated_fields_stable (fields : list (string * FieldInfo)) (d : dict) :
  NoDup (dict_keys fields) ->
  (forall f, In f fields ->
             validate_value RT (fst (snd f)) (snd (snd f)) = Some (snd (snd f))) ->
  failing_fields RT fields d = [] ->
  failing_fields RT fields (validated_fields RT fields d) = [] /\
  validated_fields RT fields (validated_fields RT fields d)
  = validated_fields RT fields d.
Proof.
  intros Hnd Hdef Hok.
  assert (Hpt : forall f, In f fields ->
                  validate_field RT (validated_fields RT fields d) f
                  = validate_field RT d f).
  { intros [name fi] Hin.
    pose proof (dict_get_NoDup_in name fi fields Hnd Hin) as Hget.
    pose proof (validated_fields_get RT fields d name fi Hok Hget) as Hout.
    destruct (validate_field RT d (name, fi)) as [v|] eqn:Hv.
    2: { exfalso. exact (failing_fields_in RT fields d (name, fi) Hin Hv Hok). }
    unfold validate_field at 1. cbn [fst snd]. rewrite Hout.
    unfold validate_field in Hv. cbn [fst snd] in Hv.
    destruct (dict_get name d) as [v0|].
    - eapply validate_value_stable; eauto.
    - inversion Hv. subst. apply (Hdef (name, fi) Hin). }
  destruct (fields_ext fields _ d Hpt) as [E1 E2].
  split; congruence.
Qed.

End StableFacts.

(** What [_validate_outputs] returns, it accepts and returns unchanged: the
    mapping stored in the context is a fixed point of the validation of its
    step. *)
Theorem validated_outputs_are_stable (RT : Runtime) (step : Step) (raw : pyval)
        (out : dict) :
  NoDup (dict_keys (outputs_schema step)) ->
  _validate_outputs RT step raw = Ok out ->
  _validate_outputs RT step (VDict out) = Ok out.
Proof.
  intros Hnd. unfold _validate_outputs, model_validate, model_dump.
  destruct (output_model step) as [M|] eqn:HM; [|discriminate].
  destruct raw as [ | | | | | |d]; try discriminate.
  destruct (failing_fields RT (model_fields M) d) eqn:Hok; [|discriminate].
  intros H. inversion H. subst out.
  destruct (validated_fields_stable RT (model_fields M) d
              (output_model_keys step M HM Hnd)
              (fun f => output_model_defaults RT step M f HM) Hok)
    as [E1 E2].
  now rewrite E1, E2.
Qed.

Lemma validated_outputs_are_stable_witness :
  let st := plain_step "w" "WEB" "" (VDict []) [("url", "string"); ("n", "number")]
                       0 "auto" in
  _validate_outputs still_runtime st (VDict [("url", VStr "x"); ("n", VFloat float_one)])
  = Ok [("url", VStr "x"); ("n", VFloat float_one)].
Proof.
  intros st.
  apply (validated_outputs_are_stable still_runtime st
           (VDict [("extra", VInt 1); ("n", VBool true); ("url", VStr "x")])).
  - cbn. repeat constructor; cbn; intuition discriminate.
  - reflexivity.
Defined.

(* ================================================================== *)
(** ** What a whole run may cost *)

Section RunEffort.
Variable RT : Runtime.
Variable o : Orchestrator RT.

Lemma run_step_counts (i : nat) (step0 : Step) (s s' : state RT)
      (res : outcome unit) (evs : list event) :
  run_step RT o i step0 s = (res, s', evs) ->
  (List.length (attempts_of evs) <= Z.to_nat (retries (policy step0) + 1))%nat /\
  (List.length (repairs_of evs) <= 1)%nat /\
  (count is_post_attempt evs <= List.length (repairs_of evs))%nat /\
  (count is_call evs <= List.length (attempts_of evs) + count is_post_attempt evs)%nat /\
  (List.length (commits_of evs)
   <= List.length (attempts_of evs) + count is_post_attempt evs)%nat /\
  (print_returns RT -> (List.length (commits_of evs) <= 1)%nat) /\
  (repair_hook o = None -> repairs_of evs = []).
Proof.
  destruct (_render_step RT (env o) (ctx s) step0) as [step|e|] eqn:Hrender.
  2,3: rewrite run_step_not_rendered by (rewrite Hrender; discriminate);
       intros H; inversion H; subst; cbn; conj_split; auto; lia.
  rewrite (run_step_unfold RT o i step0 step s Hrender).
  pose proof (_render_step_keeps RT (env o) (ctx s) step0 step Hrender)
    as (_ & _ & _ & Hp & _).
  destruct (retry_loop RT o i step None 0 (Z.to_nat (retries (policy step) + 1)) s)
    as [[r s1] e1] eqn:Hloop.
  destruct (retry_loop_entered RT o i step _ _ _ _ Hloop)
    as (k & Hk & _ & Hat & Hrp & Hpo & Hca & [Hco Hco1] & Hrep & _).
  rewrite Hp in Hk.
  assert (Hlen : List.length (attempts_of e1) = k).
  { rewrite Hat. now rewrite length_map, length_seq. }
  assert (Hev : evs = e1 ->
          (List.length (attempts_of evs) <= Z.to_nat (retries (policy step0) + 1))%nat /\
          (List.length (repairs_of evs) <= 1)%nat /\
          (count is_post_attempt evs <= List.length (repairs_of evs))%nat /\
          (count is_call evs
           <= List.length (attempts_of evs) + count is_post_attempt evs)%nat /\
          (List.length (commits_of evs)
           <= List.length (attempts_of evs) + count is_post_attempt evs)%nat /\
          (print_returns RT -> (List.length (commits_of evs) <= 1)%nat) /\
          (repair_hook o = None -> repairs_of evs = [])).
  { intros ->. rewrite Hlen. conj_split; auto; try lia.
    intros Hnone. destruct Hrep as [Hr|[Hh _]]; [exact Hr | contradiction]. }
  destruct r as [[last st]|e|]; intros H; inversion H; subst; now apply Hev.
Qed.

(** What holds of the loop over the steps whatever the hook does to the
    list. *)
Lemma run_steps_counts :
  forall (fuel i : nat) (s s' : state RT) (res : outcome unit) (evs : list event),
    run_steps RT fuel o i s = (res, s', evs) ->
    (count is_post_attempt evs <= List.length (repairs_of evs))%nat /\
    (count is_call evs <= List.length (attempts_of evs) + count is_post_attempt evs)%nat /\
    (List.length (commits_of evs)
     <= List.length (attempts_of evs) + count is_post_attempt evs)%nat /\
    (repair_hook o = None -> repairs_of evs = []).
Proof.
  induction fuel as [|fuel IH]; intros i s s' res evs.
  - cbn [run_steps]. unfold out_of_fuel. intros H. inversion H. subst. cbn.
    conj_split; auto.
  - rewrite run_steps_unfold.
    destruct (nth_error (live s) i) as [step0|].
    2: { intros H. inversion H. subst. cbn. conj_split; auto. }
    intros H. apply bind_inv in H.
    destruct H as [(a & s1 & e1 & e2 & H1 & H & ->)|[(e & H1 & ->)|(H1 & ->)]].
    + destruct (run_step_counts _ _ _ _ _ _ H1) as (A1 & A2 & A3 & A4 & A5 & A6 & A7).
      destruct (IH _ _ _ _ _ H) as (B3 & B4 & B5 & B7).
      split_trace. conj_split; try lia.
      intros Hnone. now rewrite (A7 Hnone), (B7 Hnone).
    + destruct (run_step_counts _ _ _ _ _ _ H1) as (A1 & A2 & A3 & A4 & A5 & A6 & A7).
      conj_split; auto; lia.
    + destruct (run_step_counts _ _ _ _ _ _ H1) as (A1 & A2 & A3 & A4 & A5 & A6 & A7).
      conj_split; auto; lia.
Qed.

(** What holds of it when the hook leaves the list alone: the steps gone
    through are those of the list from [i] on. *)
Lemma run_steps_budget :
  hook_keeps_list RT o ->
  forall (fuel i : nat) (s s' : state RT) (res : outcome unit) (evs : list event),
    run_steps RT fuel o i s = (res, s', evs) ->
    live s' = live s /\
    (List.length (attempts_of evs) <= budget (skipn i (live s)))%nat /\
    (List.length (repairs_of evs) <= List.length (skipn i (live s)))%nat /\
    (print_returns RT ->
     (List.length (commits_of evs) <= List.length (skipn i (live s)))%nat).
Proof.
  intros Hkeep.
  induction fuel as [|fuel IH]; intros i s s' res evs.
  - cbn [run_steps]. unfold out_of_fuel. intros H. inversion H. subst. cbn.
    conj_split; auto; lia.
  - rewrite run_steps_unfold.
    destruct (nth_error (live s) i) as [step0|] eqn:Hnth.
    2: { intros H. inversion H. subst. cbn. conj_split; auto; lia. }
    rewrite (skipn_nth_cons _ _ _ Hnth).
    unfold budget, list_sum in *. cbn [map fold_right List.length].
    intros H. apply bind_inv in H.
    destruct H as [(a & s1 & e1 & e2 & H1 & H & ->)|[(e & H1 & ->)|(H1 & ->)]].
    + destruct (run_step_counts _ _ _ _ _ _ H1) as (A1 & A2 & A3 & A4 & A5 & A6 & A7).
      pose proof (run_step_live RT o _ _ _ _ _ _ Hkeep H1) as Hl1.
      destruct (IH _ _ _ _ _ H) as (Bl & B1 & B2 & B6).
      rewrite Hl1 in Bl, B1, B2, B6.
      split_trace. conj_split; try lia; try congruence.
      intros Hp. specialize (A6 Hp). specialize (B6 Hp). lia.
    + destruct (run_step_counts _ _ _ _ _ _ H1) as (A1 & A2 & A3 & A4 & A5 & A6 & A7).
      pose proof (run_step_live RT o _ _ _ _ _ _ Hkeep H1) as Hl1.
      conj_split; auto; try lia.
      intros Hp. specialize (A6 Hp). lia.
    + destruct (run_step_counts _ _ _ _ _ _ H1) as (A1 & A2 & A3 & A4 & A5 & A6 & A7).
      pose proof (run_step_live RT o _ _ _ _ _ _ Hkeep H1) as Hl1.
      conj_split; auto; try lia.
      intros Hp. specialize (A6 Hp). lia.
Qed.

(** With a hook that leaves the list alone, the loop ends within one round
    per step that is left and one more: more rounds change nothing. *)
Lemma run_steps_fuel :
  hook_keeps_list RT o ->
  forall (fuel1 fuel2 i : nat) (s : state RT),
    (List.length (live s) - i < fuel1)%nat ->
    (List.length (live s) - i < fuel2)%nat ->
    run_steps RT fuel1 o i s = run_steps RT fuel2 o i s.
Proof.
  intros Hkeep.
  induction fuel1 as [|fuel1 IH]; intros fuel2 i s H1 H2; [lia|].
  destruct fuel2 as [|fuel2]; [lia|].
  rewrite !run_steps_unfold.
  destruct (nth_error (live s) i) as [step0|] eqn:Hnth; [|reflexivity].
  assert (Hi : (i < List.length (live s))%nat).
  { apply nth_error_Some. rewrite Hnth. discriminate. }
  unfold bind.
  destruct (run_step RT o i step0 s) as [[r s1] e1] eqn:Hstep.
  pose proof (run_step_live RT o _ _ _ _ _ _ Hkeep Hstep) as Hl1.
  destruct r as [u|e|]; try reflexivity.
  rewrite (IH fuel2 (S i) s1); [reflexivity | rewrite Hl1; lia | rewrite Hl1; lia].
Qed.

Lemma run_trace (fuel : nat) (wf0 : WorkflowSpec) (inputs0 : dict) (w : W RT) :
  exists r1 s1,
    run_steps RT fuel o 0
              (mkState w wf0 (steps wf0) (dict_set "steps" (VDict []) inputs0))
    = (r1, s1, snd (run RT o fuel wf0 inputs0 w)).
Proof.
  unfold run.
  set (s0 := mkState w wf0 (steps wf0) (dict_set "steps" (VDict []) inputs0)).
  destruct (bind RT (run_steps RT fuel o 0) (fun _ => get_ctx RT) s0)
    as [[res s'] evs] eqn:Hrun.
  cbn [snd]. apply bind_inv in Hrun.
  destruct Hrun as [(a & s1 & e1 & e2 & H1 & H & ->)|[(e & H1 & ->)|(H1 & ->)]];
    [|eauto|eauto].
  unfold get_ctx in H. inversion H. subst. rewrite app_nil_r. eauto.
Qed.

Lemma run_fuel (fuel1 fuel2 : nat) (wf0 : WorkflowSpec) (inputs0 : dict) (w : W RT) :
  hook_keeps_list RT o ->
  (List.length (steps wf0) < fuel1)%nat ->
  (List.length (steps wf0) < fuel2)%nat ->
  run RT o fuel1 wf0 inputs0 w = run RT o fuel2 wf0 inputs0 w.
Proof.
  intros Hkeep H1 H2. unfold run, bind.
  rewrite (run_steps_fuel Hkeep fuel1 fuel2 0); cbn [live]; [reflexivity | lia | lia].
Qed.

End RunEffort.

(** X18.  A whole run.  Whatever the repair hook does: there is at most one
    attempt after each call of the hook, a capability is called at most once
    per attempt, the context gets at most one assignment per attempt, and
    without a hook nothing is ever repaired.  The loop goes over the list of
    steps as it is when each round starts, so a hook that edits that list
    changes what is run; when the hook leaves the list alone (or there is
    none), the attempts of all steps together are at most the sum of
    [retries]+1 over the steps of the workflow as it was passed in, the hook
    is called at most once per step, the context gets at most one assignment
    per step when [print] returns, and the run is over within one round per
    step. *)
Theorem run_effort_is_bounded (RT : Runtime) (o : Orchestrator RT) (fuel : nat)
        (wf0 : WorkflowSpec) (inputs0 : dict) (w : W RT) :
  let evs := snd (run RT o fuel wf0 inputs0 w) in
  (count is_post_attempt evs <= List.length (repairs_of evs))%nat /\
  (count is_call evs <= List.length (attempts_of evs) + count is_post_attempt evs)%nat /\
  (List.length (commits_of evs)
   <= List.length (attempts_of evs) + count is_post_attempt evs)%nat /\
  match repair_hook o with
  | None => repairs_of evs = []
  | Some _ => True
  end /\
  (hook_keeps_list RT o ->
   (List.length (attempts_of evs) <= budget (steps wf0))%nat /\
   (List.length (repairs_of evs) <= List.length (steps wf0))%nat /\
   (count is_call evs <= budget (steps wf0) + List.length (repairs_of evs))%nat /\
   (print_returns RT ->
    (List.length (commits_of evs) <= List.length (steps wf0))%nat) /\
   (forall fuel' : nat,
       (List.length (steps wf0) < fuel)%nat ->
       (List.length (steps wf0) < fuel')%nat ->
       run RT o fuel' wf0 inputs0 w = run RT o fuel wf0 inputs0 w)).
Proof.
  cbn zeta.
  destruct (run_trace RT o fuel wf0 inputs0 w) as (r1 & s1 & H1).
  destruct (run_steps_counts RT o _ _ _ _ _ _ H1) as (A3 & A4 & A5 & A7).
  conj_split; auto.
  - destruct (repair_hook o); [exact I | now apply A7].
  - intros Hkeep.
    destruct (run_steps_budget RT o Hkeep _ _ _ _ _ _ H1) as (_ & B1 & B2 & B6).
    cbn [live skipn] in B1, B2, B6.
    conj_split; auto; try lia.
    intros fuel' Hf Hf'. now apply run_fuel.
Qed.

Lemma run_effort_is_bounded_witness :
  let o := mkOrchestrator (RT := still_runtime)
             failing_capability failing_capability (Some same_workflow_hook)
             strict_env in
  let evs := snd (run still_runtime o 2 web_workflow [("user_text", VStr "pizza")] tt) in
  (List.length (attempts_of evs) <= budget (steps web_workflow))%nat /\
  (List.length (repairs_of evs) <= 1)%nat /\
  run still_runtime o 5 web_workflow [("user_text", VStr "pizza")] tt
  = run still_runtime o 2 web_workflow [("user_text", VStr "pizza")] tt.
Proof.
  intros o evs.
  destruct (run_effort_is_bounded still_runtime o 2 web_workflow
              [("user_text", VStr "pizza")] tt) as (_ & _ & _ & _ & Hlist).
  destruct Hlist as (A1 & A2 & _ & _ & Hfuel).
  - intros h w0 w1 l0 l1 st m c x x' Hh Hcall.
    cbn in Hh. inversion Hh. subst h. unfold same_workflow_hook in Hcall.
    now inversion Hcall.
  - split; [exact A1|]. split; [exact A2|].
    apply Hfuel; cbn; lia.
Defined.

(** ** C7: the guardrail loop *)

Import LLMJson.

Lemma append_assoc (a b d : string) : ((a ++ b) ++ d = a ++ b ++ d)%string.
Proof. induction a as [|ch a IH]; cbn; [reflexivity | now rewrite IH]. Qed.


Lemma embeds_middle (p a q : string) : embeds a (p ++ a ++ q).
Proof. now exists p, q. Qed.

Lemma embeds_prepend (p a b : string) : embeds a b -> embeds a (p ++ b).
Proof.
  intros (x & y & ->). exists (p ++ x)%string, y. now rewrite append_assoc.
Qed.





Section CallerFacts.
Variable World : Type.
Variable T : Type.
Variable create : Request -> World -> result Response * World.
Variable json_loads : string -> result pyval.
Variable cfg : JSONCallConfig.
Variable system : string.
Variable user_content : UserContent.
Variable schema_name : option string.
Variable json_schema : option dict.
Variable validator : dict -> World -> result T * World.
Variable extra : option string.

Let req_at := request_at cfg system user_content schema_name json_schema extra.
Let once := attempt_once World T create json_loads cfg system user_content
                         schema_name json_schema validator extra.
Let loop := attempts World T create json_loads cfg system user_content
                     schema_name json_schema validator extra.
Let explained_end := explained World T create json_loads validator.

Lemma judge_explained (text : string) (resp : Response) (w w' : World)
      (en : attempt_end T) :
  judge World T validator text (response_parsed json_loads resp text) w = (en, w') ->
  explained_end en.
Proof.
  unfold explained_end, judge, response_parsed.
  assert (Hnot : forall pv err,
             (forall d, pv <> VDict d) ->
             err = JSONGuardrailError
                     ("Expected JSON object, got <class '" ++ type_name pv ++ "'>")%string ->
             explained World T create json_loads validator (Failed err text)).
  { intros pv err Hpv ->. cbn. right. left. exists pv. auto. }
  assert (Hval : forall d,
             match validator d w with
             | (Return v, w2) => (Validated v, w2)
             | (Throw e, w2) => (Failed e text, w2)
             end = (en, w') ->
             explained World T create json_loads validator en).
  { intros d. destruct (validator d w) as [[v|e] w2] eqn:Hv; intros H;
      inversion H; subst; cbn; eauto 6. }
  assert (Hloads :
            match
              match json_loads text with
              | Return p0 => Return p0
              | Throw e =>
                  Throw (JSONGuardrailError ("JSON parse failed: " ++ str_error e)%string)
              end
            with
            | Throw e => (Failed e text, w)
            | Return (VDict d) =>
                match validator d w with
                | (Return v, w2) => (Validated v, w2)
                | (Throw e, w2) => (Failed e text, w2)
                end
            | Return p0 =>
                (Failed (JSONGuardrailError
                           ("Expected JSON object, got <class '" ++ type_name p0 ++ "'>")%string)
                        text, w)
            end = (en, w') ->
            explained World T create json_loads validator en).
  { destruct (json_loads text) as [p0|e] eqn:Hj.
    - destruct p0 as [|b|z|f|s0|l|d];
        [ intros H; inversion H; apply (Hnot VNone); [intros d0; discriminate | reflexivity]
        | intros H; inversion H; apply (Hnot (VBool b)); [intros d0; discriminate | reflexivity]
        | intros H; inversion H; apply (Hnot (VInt z)); [intros d0; discriminate | reflexivity]
        | intros H; inversion H; apply (Hnot (VFloat f)); [intros d0; discriminate | reflexivity]
        | intros H; inversion H; apply (Hnot (VStr s0)); [intros d0; discriminate | reflexivity]
        | intros H; inversion H; apply (Hnot (VList l)); [intros d0; discriminate | reflexivity]
        | apply Hval ].
    - intros H. inversion H. subst. cbn. left. eauto. }
  destruct (output_parsed resp) as [pv|]; [|exact Hloads].
  destruct pv as [|b|z|f|s0|l|d];
    [ exact Hloads
    | intros H; inversion H; apply (Hnot (VBool b)); [intros d0; discriminate | reflexivity]
    | intros H; inversion H; apply (Hnot (VInt z)); [intros d0; discriminate | reflexivity]
    | intros H; inversion H; apply (Hnot (VFloat f)); [intros d0; discriminate | reflexivity]
    | intros H; inversion H; apply (Hnot (VStr s0)); [intros d0; discriminate | reflexivity]
    | intros H; inversion H; apply (Hnot (VList l)); [intros d0; discriminate | reflexivity]
    | apply Hval ].
Qed.

Lemma attempt_once_explained (le : option error) (lt : option string) (a : nat)
      (w w' : World) (req : Request) (en : attempt_end T) :
  once le lt a w = (req, en, w') -> req = req_at a le lt /\ explained_end en.
Proof.
  unfold once, attempt_once. fold (req_at a le lt).
  destruct (create (req_at a le lt) w) as [[resp|e] w1] eqn:Hc.
  - destruct (judge World T validator (response_text resp)
                    (response_parsed json_loads resp (response_text resp)) w1)
      as [en1 w2] eqn:Hj.
    intros H. inversion H. subst. split; [reflexivity|].
    exact (judge_explained _ _ _ _ _ Hj).
  - intros H. inversion H. subst. split; [reflexivity|].
    unfold explained_end. cbn. eauto.
Qed.



(** The loop, from any iteration on. *)
Lemma attempts_spec (remaining : nat) :
  forall (a : nat) (le : option error) (lt : option string) (w w' : World)
         (res : result T) (tr : list (Request * attempt_end T)),
    loop le lt a remaining w = (res, w', tr) ->
    (List.length tr <= remaining)%nat /\
    chained req_at a le lt tr /\
    Forall (fun re => explained_end (snd re)) tr /\
    match last_end tr with
    | Some (Validated v) => res = Return v
    | Some (Crashed e) => res = Throw e
    | Some (Failed err text) =>
        List.length tr = remaining /\
        res = Throw (JSONGuardrailError (exhausted_message cfg (Some err)))
    | None =>
        remaining = 0%nat /\
        res = Throw (JSONGuardrailError (exhausted_message cfg le))
    end.
Proof.
  unfold loop. induction remaining as [|n IH]; intros a le lt w w' res tr.
  - cbn [attempts]. intros H. inversion H. subst. cbn. auto.
  - cbn [attempts]. fold (once le lt a w).
    destruct (once le lt a w) as [[req en] w1] eqn:Honce.
    destruct (attempt_once_explained le lt a w w1 req en Honce) as [Hreq Hexp].
    destruct en as [v|err text|e].
    + intros H. inversion H. subst. cbn.
      repeat split; auto. lia.
    + destruct (attempts World T create json_loads cfg system user_content schema_name
                         json_schema validator extra (Some err) (Some text) (S a) n w1)
        as [[r2 w2] tr2] eqn:Hrest.
      destruct (IH _ _ _ _ _ _ _ Hrest) as (Hlen & Hch & Hall & Hlast).
      intros H. inversion H. subst.
      split; [cbn; lia|].
      split.
      { cbn [chained fst snd]. split; [reflexivity|].
        destruct tr2; [exact I|]. eauto. }
      split; [constructor; assumption|].
      cbn [last_end snd].
      destruct tr2 as [|re2 tl2].
      * cbn in Hlast. destruct Hlast as [-> ->]. cbn. auto.
      * destruct (last_end (re2 :: tl2)) as [[v|err2 text2|e]|] eqn:Hl;
          try exact Hlast.
        -- destruct Hlast as [Hn Hr]. split; [cbn in *; lia | exact Hr].
        -- destruct Hlast as [Hn _]. subst n. cbn in Hlen. lia.
    + intros H. inversion H. subst. cbn.
      repeat split; auto. lia.
Qed.


End CallerFacts.



(* ================================================================== *)
(** ** The guardrail loop: what it returns, what it asks, what it leaves *)

Lemma last_end_in {T : Type} (tr : list (Request * attempt_end T)) (en : attempt_end T) :
  last_end tr = Some en -> exists rq, In (rq, en) tr.
Proof.
  induction tr as [|[rq e0] tl IH]; cbn [last_end]; [discriminate|].
  destruct tl as [|re2 tl2].
  - intros H. inversion H. subst. exists rq. now left.
  - intros H. destruct (IH H) as [rq' Hin]. exists rq'. now right.
Qed.

Lemma chained_requests {T : Type}
      (req_at : nat -> option error -> option string -> Request)
      (tr : list (Request * attempt_end T)) :
  forall a le lt,
    chained req_at a le lt tr ->
    Forall (fun re => exists k le' lt', fst re = req_at k le' lt') tr.
Proof.
  induction tr as [|re tl IH]; intros a le lt; [constructor|].
  cbn [chained]. intros [Hreq Hrest]. constructor; [eauto|].
  destruct tl as [|re2 tl2]; [constructor|].
  destruct Hrest as (err & text & _ & Hch). eapply IH. exact Hch.
Qed.

Section CallerMore.
Variable World : Type.
Variable T : Type.
Variable create : Request -> World -> result Response * World.
Variable json_loads : string -> result pyval.
Variable cfg : JSONCallConfig.
Variable system : string.
Variable user_content : UserContent.
Variable schema_name : option string.
Variable json_schema : option dict.
Variable validator : dict -> World -> result T * World.
Variable extra : option string.

(** Whatever the loop returns, the validator returned. *)
Lemma attempts_returns (remaining a : nat) (le : option error) (lt : option string)
      (w w' : World) (v : T) (tr : list (Request * attempt_end T)) :
  attempts World T create json_loads cfg system user_content schema_name json_schema
           validator extra le lt a remaining w = (Return v, w', tr) ->
  last_end tr = Some (Validated v) /\
  exists d w1 w2, validator d w1 = (Return v, w2).
Proof.
  intros H.
  destruct (attempts_spec World T create json_loads cfg system user_content
              schema_name json_schema validator extra remaining a le lt w w'
              (Return v) tr H) as (_ & _ & Hall & Hlast).
  destruct (last_end tr) as [[v'|err text|e]|] eqn:Hl.
  - inversion Hlast. subst v'. split; [reflexivity|].
    destruct (last_end_in tr _ Hl) as [rq Hin].
    rewrite Forall_forall in Hall. exact (Hall _ Hin).
  - destruct Hlast as [_ Hr]. discriminate.
  - discriminate.
  - destruct Hlast as [_ Hr]. discriminate.
Qed.

(** A property of the outside world that neither a request nor the validator
    disturbs holds after the loop if it held before. *)
Lemma attempts_preserve (I : World -> Prop) :
  (forall rq w r w', create rq w = (r, w') -> I w -> I w') ->
  (forall d w r w', validator d w = (r, w') -> I w -> I w') ->
  forall (remaining a : nat) (le : option error) (lt : option string)
         (w w' : World) (res : result T) (tr : list (Request * attempt_end T)),
    attempts World T create json_loads cfg system user_content schema_name json_schema
             validator extra le lt a remaining w = (res, w', tr) ->
    I w -> I w'.
Proof.
  intros Hc Hv. induction remaining as [|n IH]; intros a le lt w w' res tr.
  - cbn [attempts]. intros H. inversion H. now subst.
  - cbn [attempts]. unfold attempt_once.
    destruct (create _ w) as [[resp|e] w1] eqn:Hcr.
    + pose proof (Hc _ _ _ _ Hcr) as Hw1.
      set (text := response_text resp).
      destruct (judge World T validator text (response_parsed json_loads resp text) w1)
        as [en w2] eqn:Hj.
      assert (Hw2 : I w1 -> I w2).
      { unfold judge in Hj.
        destruct (response_parsed json_loads resp text) as [p|e0].
        - destruct p; try (inversion Hj; subst; auto; fail).
          destruct (validator d w1) as [[v|e1] w3] eqn:Hval;
            inversion Hj; subst; eapply Hv; eauto.
        - inversion Hj; subst; auto. }
      destruct en as [v|err txt|e].
      * intros H. inversion H. subst. auto.
      * destruct (attempts World T create json_loads cfg system user_content schema_name
                           json_schema validator extra (Some err) (Some txt) (S a) n w2)
          as [[r2 w3] tr2] eqn:Hrest.
        intros H. inversion H. subst. intros Hw. eapply IH; eauto.
      * intros H. inversion H. subst. auto.
    + intros H. inversion H. subst. intros Hw. eapply Hc; eauto.
Qed.

End CallerMore.

(** A retry budget below zero: [call_json] sends nothing and raises the
    guardrail error with [Last error: None]; with any other budget it sends
    at least one request. *)
Theorem call_without_budget (World T : Type)
        (create : Request -> World -> result Response * World)
        (json_loads : string -> result pyval)
        (cfg : JSONCallConfig) (system : string) (user_content : UserContent)
        (schema_name : option string) (json_schema : option dict)
        (validator : dict -> World -> result T * World)
        (extra : option string) (w : World) :
  let r := call_json World T create json_loads cfg system user_content schema_name
                     json_schema validator extra w in
  if (retries cfg <? 0)%Z
  then r = (Throw (JSONGuardrailError (exhausted_message cfg None)), w, []) /\
       embeds "Last error: None" (exhausted_message cfg None)
  else snd r <> [].
Proof.
  cbn zeta. unfold call_json.
  destruct (retries cfg <? 0)%Z eqn:Hneg.
  - apply Z.ltb_lt in Hneg.
    replace (Z.to_nat (retries cfg + 1)) with 0%nat by lia.
    split; [reflexivity|].
    unfold exhausted_message. do 2 apply embeds_prepend.
    exists " attempts. "%string, ""%string. reflexivity.
  - apply Z.ltb_ge in Hneg.
    replace (Z.to_nat (retries cfg + 1)) with (S (Z.to_nat (retries cfg))) by lia.
    cbn [attempts].
    destruct (attempt_once World T create json_loads cfg system user_content schema_name
                           json_schema validator extra None None 0 w)
      as [[req en] w1].
    destruct en as [v|err txt|e]; try (cbn; discriminate).
    destruct (attempts World T create json_loads cfg system user_content schema_name
                       json_schema validator extra (Some err) (Some txt) 1
                       (Z.to_nat (retries cfg)) w1) as [[r2 w2] tr2].
    cbn. discriminate.
Qed.

(** All requests of one call are the same but for the repair text put before
    the user's content: the model, the system message, the response format
    and the optional arguments never change, and the user's content is sent in
    full every time. *)
Theorem requests_differ_in_repair_text_only (World T : Type)
        (create : Request -> World -> result Response * World)
        (json_loads : string -> result pyval)
        (cfg : JSONCallConfig) (system : string) (user_content : UserContent)
        (schema_name : option string) (json_schema : option dict)
        (validator : dict -> World -> result T * World)
        (extra : option string) (w : World) :
  Forall (fun re =>
            exists prefix,
              fst re = _create_request cfg system (prepend_repair prefix user_content)
                                       schema_name json_schema /\
              req_model (fst re) = model cfg /\
              req_text (fst re)
              = req_text (_create_request cfg system user_content schema_name json_schema) /\
              req_input (fst re)
              = [mkMessage "system" (UCStr system);
                 mkMessage "user" (prepend_repair prefix user_content)])
         (snd (call_json World T create json_loads cfg system user_content schema_name
                         json_schema validator extra w)).
Proof.
  unfold call_json.
  destruct (attempts World T create json_loads cfg system user_content schema_name
                     json_schema validator extra None None 0
                     (Z.to_nat (retries cfg + 1)) w) as [[res w'] tr] eqn:Hloop.
  destruct (attempts_spec World T create json_loads cfg system user_content
              schema_name json_schema validator extra _ _ _ _ _ _ _ _ Hloop)
    as (_ & Hch & _).
  apply chained_requests in Hch. cbn [snd].
  eapply Forall_impl; [|exact Hch].
  intros re (k & le & lt & Hre). unfold request_at in Hre.
  exists (repair_prefix k le lt extra). rewrite Hre.
  split; [reflexivity|]. split; [reflexivity|]. split; [reflexivity|].
  unfold _create_request, _as_input. cbn [req_input].
  destruct (prepend_repair (repair_prefix k le lt extra) user_content); reflexivity.
Qed.


(* ================================================================== *)
(** ** llm_segmenter.py: what the two phases hand on *)

Lemma visual_loop_sound (segs : list pyval) :
  Segmenter.visual_loop segs = None ->
  Forall (fun s => exists sd, s = VDict sd /\
                              Segmenter.is_number (dict_get "t_start" sd) = true /\
                              Segmenter.is_number (dict_get "t_end" sd) = true) segs.
Proof.
  induction segs as [|s r IH]; [constructor|].
  cbn [Segmenter.visual_loop]. destruct s; try discriminate.
  destruct (Segmenter.is_number (dict_get "t_start" d)) eqn:H1; [|discriminate].
  destruct (Segmenter.is_number (dict_get "t_end" d)) eqn:H2; [|discriminate].
  cbn. intros H. constructor; eauto.
Qed.

Lemma aligned_loop_sound (segs : list pyval) :
  Segmenter.aligned_loop segs = None ->
  Forall (fun s => exists sd, s = VDict sd /\
                              Segmenter.is_surface (dict_get "surface" sd) = true /\
                              Segmenter.is_nonempty_list (dict_get "merge_of" sd) = true)
         segs.
Proof.
  induction segs as [|s r IH]; [constructor|].
  cbn [Segmenter.aligned_loop]. destruct s; try discriminate.
  destruct (Segmenter.is_surface (dict_get "surface" d)) eqn:H1; [|discriminate].
  destruct (Segmenter.is_nonempty_list (dict_get "merge_of" d)) eqn:H2; [|discriminate].
  cbn. intros H. constructor; eauto.
Qed.

Lemma _validate_visual_sound (d d' : dict) :
  Segmenter._validate_visual d = Return d' ->
  d' = d /\
  exists s segs,
    dict_get "segments" d = Some (VList (s :: segs)) /\
    Forall (fun s => exists sd, s = VDict sd /\
                                Segmenter.is_number (dict_get "t_start" sd) = true /\
                                Segmenter.is_number (dict_get "t_end" sd) = true)
           (s :: segs).
Proof.
  unfold Segmenter._validate_visual.
  destruct (dict_get "segments" d) as [[ | | | | |[|x r]| ]|]; try discriminate.
  destruct (Segmenter.visual_loop (x :: r)) eqn:Hl; [discriminate|].
  intros H. inversion H. split; [reflexivity|].
  exists x, r. split; [reflexivity|]. now apply visual_loop_sound.
Qed.

Lemma _validate_aligned_sound (d d' : dict) :
  Segmenter._validate_aligned d = Return d' ->
  d' = d /\
  exists s segs,
    dict_get "segments" d = Some (VList (s :: segs)) /\
    Forall (fun s => exists sd, s = VDict sd /\
                                Segmenter.is_surface (dict_get "surface" sd) = true /\
                                Segmenter.is_nonempty_list (dict_get "merge_of" sd) = true)
           (s :: segs).
Proof.
  unfold Segmenter._validate_aligned.
  destruct (dict_get "segments" d) as [[ | | | | |[|x r]| ]|]; try discriminate.
  destruct (Segmenter.aligned_loop (x :: r)) eqn:Hl; [discriminate|].
  intros H. inversion H. split; [reflexivity|].
  exists x, r. split; [reflexivity|]. now apply aligned_loop_sound.
Qed.

(** Segmenting a video: each phase sends at most three requests; the second
    phase is entered only with visual segments that passed [_validate_visual]
    (a non-empty list of objects with numeric [t_start] and [t_end]), which it
    sends on in its payload; and what [segment] returns passed
    [_validate_aligned]: a non-empty list of objects, each with one of the
    four surfaces and a non-empty [merge_of]. *)
Theorem segment_hands_on_checked_segments (World : Type)
        (create : Request -> World -> result Response * World)
        (json_loads : string -> result pyval)
        (json_dumps : pyval -> string) (format_3f : spec_float -> string)
        (sample_video_frames :
           string -> Segmenter.SegmenterConfig -> World
           -> result (list (spec_float * string)) * World)
        (SYSTEM_VISUAL SYSTEM_ALIGN : string) (VISUAL_SCHEMA ALIGNED_SCHEMA : dict)
        (executor_catalog_text : string)
        (cfg : Segmenter.SegmenterConfig) (video_path : string)
        (user_text : option string) (w : World) :
  let '(res, w', tr1, tr2) :=
    Segmenter.segment World create json_loads json_dumps format_3f sample_video_frames
                      SYSTEM_VISUAL SYSTEM_ALIGN VISUAL_SCHEMA ALIGNED_SCHEMA
                      executor_catalog_text cfg video_path user_text w in
  (List.length tr1 <= 3)%nat /\ (List.length tr2 <= 3)%nat /\
  (tr2 = [] \/
   exists visual s segs re,
     last_end tr1 = Some (Validated visual) /\
     dict_get "segments" visual = Some (VList (s :: segs)) /\
     Forall (fun s => exists sd, s = VDict sd /\
                                 Segmenter.is_number (dict_get "t_start" sd) = true /\
                                 Segmenter.is_number (dict_get "t_end" sd) = true)
            (s :: segs) /\
     nth_error tr2 0 = Some re /\
     req_input (fst re)
     = _as_input SYSTEM_ALIGN
                 (UCStr (json_dumps
                           (Segmenter.align_payload executor_catalog_text visual
                                                    user_text)))) /\
  match res with
  | Return d =>
      Segmenter._validate_aligned d = Return d /\
      exists s segs,
        dict_get "segments" d = Some (VList (s :: segs)) /\
        Forall (fun s => exists sd, s = VDict sd /\
                                    Segmenter.is_surface (dict_get "surface" sd) = true /\
                                    Segmenter.is_nonempty_list (dict_get "merge_of" sd)
                                    = true)
               (s :: segs)
  | Throw _ => True
  end.
Proof.
  unfold Segmenter.segment, Segmenter._segment_visual.
  destruct (sample_video_frames video_path cfg w) as [[frames|e] w1].
  2: { cbn. conj_split; try lia; auto. }
  unfold call_json.
  match goal with
  | |- context [attempts ?W ?T ?c ?j ?cf ?sy ?uc ?sn ?js ?v ?ex None None 0 ?n w1] =>
      destruct (attempts W T c j cf sy uc sn js v ex None None 0 n w1)
        as [[r1 w2] tr1] eqn:H1;
      pose proof (attempts_spec W T c j cf sy uc sn js v ex n 0 None None w1 w2 r1 tr1 H1)
        as (Hlen1 & _ & _ & _)
  end.
  cbn in Hlen1.
  destruct r1 as [visual|e].
  2: { cbn. conj_split; try lia; auto. }
  apply attempts_returns in H1. destruct H1 as (Hl1 & dv & wa & wb & Hv).
  injection Hv as Hvv Hww. apply _validate_visual_sound in Hvv.
  destruct Hvv as (Hd & s & segs & Hget & Hall). subst visual.
  unfold Segmenter._align_to_executors, call_json.
  match goal with
  | |- context [attempts ?W ?T ?c ?j ?cf ?sy ?uc ?sn ?js ?v ?ex None None 0 ?n w2] =>
      destruct (attempts W T c j cf sy uc sn js v ex None None 0 n w2)
        as [[r2 w3] tr2] eqn:H2;
      pose proof (attempts_spec W T c j cf sy uc sn js v ex n 0 None None w2 w3 r2 tr2 H2)
        as (Hlen2 & Hch2 & _ & _)
  end.
  cbn in Hlen2.
  split; [exact Hlen1|]. split; [exact Hlen2|]. split.
  - destruct tr2 as [|re tl]; [now left|]. right.
    exists dv, s, segs, re. split; [exact Hl1|]. split; [exact Hget|].
    split; [exact Hall|]. split; [reflexivity|].
    cbn [chained] in Hch2. destruct Hch2 as [Hre _]. rewrite Hre. reflexivity.
  - destruct r2 as [d|e]; [|exact I].
    apply attempts_returns in H2. destruct H2 as (_ & da & wc & wd & Hva).
    injection Hva as Hvv Hww2.
    pose proof (_validate_aligned_sound da d Hvv) as (Hd & Hrest).
    subst d. split; [exact Hvv | exact Hrest].
Qed.


(* ================================================================== *)
(** ** The desktop executor: the planner's validator and the keys *)

Lemma modifier_names_spec (ku : string) :
  Desktop.modifier ku = None <-> str_in ku Desktop.modifier_names = false.
Proof.
  unfold Desktop.modifier, Desktop.modifier_names, str_in. cbn [existsb].
  destruct (String.eqb ku "CMD"), (String.eqb ku "COMMAND"), (String.eqb ku "CTRL"),
    (String.eqb ku "CONTROL"), (String.eqb ku "ALT"), (String.eqb ku "OPTION"),
    (String.eqb ku "SHIFT"); cbn; split; intros; congruence.
Qed.

Section PlannerFacts.
Variable RT : Runtime.
Variable H : Desktop.Host RT.

(** The keys the validator lets through are keys that [_keystroke] sends as
    they are. *)
Lemma check_keys_sound (keys : list pyval) (shift : bool) :
  Desktop.check_keys RT H keys shift = None ->
  Forall (fun k =>
            Desktop.modifier (Desktop.upper H (Desktop.str_of H k)) = None ->
            Desktop.normalize_key RT H (Desktop.str_of H k) shift = Desktop.str_of H k)
         keys.
Proof.
  induction keys as [|k r IH]; [constructor|].
  cbn [Desktop.check_keys].
  destruct (str_in (Desktop.upper H (Desktop.str_of H k)) Desktop.modifier_names) eqn:Hm.
  - intros Hr. constructor; [|now apply IH].
    intros Hnone. apply modifier_names_spec in Hnone. congruence.
  - unfold Desktop.normalize_key.
    destruct (Desktop.is_single_letter RT H (Desktop.str_of H k) shift) eqn:Hs;
      cbn [andb].
    + destruct (String.eqb (Desktop.str_of H k)
                           (Desktop.lower_of H (Desktop.str_of H k))) eqn:He;
        cbn [negb]; [|discriminate].
      apply String.eqb_eq in He.
      intros Hr. constructor; [|now apply IH]. intros _. now rewrite Hs.
    + intros Hr. constructor; [|now apply IH]. intros _. now rewrite Hs.
Qed.

Lemma keystroke_loop_key (keys : list string) :
  forall (mods mods' : list string) (key0 : option string) (key : string),
    Desktop.keystroke_loop RT H keys mods key0 = (mods', Some key) ->
    key0 = Some key \/
    (In key keys /\ Desktop.modifier (Desktop.upper H key) = None).
Proof.
  induction keys as [|k r IH]; intros mods mods' key0 key; cbn [Desktop.keystroke_loop].
  - intros Heq. inversion Heq. now left.
  - destruct (Desktop.modifier (Desktop.upper H k)) as [m|] eqn:Hm.
    + intros Heq. destruct (IH _ _ _ _ Heq) as [Hk|[Hin Hn]]; [now left|].
      right. split; [now right | exact Hn].
    + intros Heq. destruct (IH _ _ _ _ Heq) as [Hk|[Hin Hn]].
      * inversion Hk. subst. right. split; [now left | exact Hm].
      * right. split; [now right | exact Hn].
Qed.

(** With keys the validator let through, the script holds the last key that
    is no modifier, as the plan has it. *)
Lemma keystroke_script_as_planned (keys : list pyval) :
  Desktop.check_keys RT H keys (Desktop.want_shift RT H (map (Desktop.str_of H) keys))
  = None ->
  Desktop.keystroke_script RT H (map (Desktop.str_of H) keys) =
  match Desktop.keystroke_loop RT H (map (Desktop.str_of H) keys) [] None with
  | (_, None) => Raise (mk_exn (External "keystroke requires a non-modifier key"))
  | (mods, Some key) =>
      Ok (Desktop.system_events ++ " to keystroke " ++ Desktop.json_dumps H (VStr key)
          ++ match mods with
             | [] => ""
             | _ => " using {" ++ String.concat ", " mods ++ "}"
             end)%string
  end.
Proof.
  intros Hok. unfold Desktop.keystroke_script.
  destruct (Desktop.keystroke_loop RT H (map (Desktop.str_of H) keys) [] None)
    as [mods [key|]] eqn:Hloop; [|reflexivity].
  destruct (keystroke_loop_key _ _ _ _ _ Hloop) as [Habs|[Hin Hnone]]; [discriminate|].
  apply in_map_iff in Hin. destruct Hin as (k & <- & Hk).
  pose proof (check_keys_sound keys _ Hok) as Hall.
  rewrite Forall_forall in Hall. now rewrite (Hall k Hk Hnone).
Qed.

Lemma check_actions_sound (actions : list pyval) :
  Desktop.check_actions RT H actions = None ->
  Forall (fun act =>
            exists ad,
              act = VDict ad /\
              (Desktop.is_str (Desktop.get "type" ad) "keystroke" = true ->
               exists k ks,
                 Desktop.get "keys" ad = VList (k :: ks) /\
                 Desktop.check_keys RT H (k :: ks)
                   (Desktop.want_shift RT H (map (Desktop.str_of H) (k :: ks))) = None))
         actions.
Proof.
  induction actions as [|a r IH]; [constructor|].
  cbn [Desktop.check_actions]. destruct a as [ | | | | | |ad]; try discriminate.
  destruct (Desktop.is_str (Desktop.get "type" ad) "keystroke") eqn:Ht.
  - destruct (Desktop.get "keys" ad) as [ | | | | |[|k ks]| ] eqn:Hk; try discriminate.
    destruct (Desktop.check_keys RT H (k :: ks)
                (Desktop.want_shift RT H (map (Desktop.str_of H) (k :: ks)))) eqn:Hc;
      [discriminate|].
    intros Hr. constructor; [|now apply IH].
    exists ad. split; [reflexivity|]. intros _. exists k, ks. auto.
  - intros Hr. constructor; [|now apply IH].
    exists ad. split; [reflexivity|]. intros Habs. congruence.
Qed.

End PlannerFacts.

(** A plan that [_validate_planner_output] accepts is returned as it is, has
    between one and [max_actions] actions, all of them objects, and each of
    its keystroke actions has a non-empty key list for which [_keystroke]
    rewrites nothing: the key in the script it runs is the last non-modifier
    key exactly as planned, or, if all keys are modifiers, it raises before
    running anything. *)
Theorem accepted_keys_are_sent_as_planned (RT : Runtime) (H : Desktop.Host RT)
        (data data' : dict) (max_actions : Z) :
  Desktop._validate_planner_output RT H data max_actions = Return data' ->
  data' = data /\
  exists a r,
    Desktop.get "actions" data = VList (a :: r) /\
    (Z.of_nat (List.length (a :: r)) <= max_actions)%Z /\
    Forall (fun act =>
              exists ad,
                act = VDict ad /\
                (Desktop.is_str (Desktop.get "type" ad) "keystroke" = true ->
                 exists k ks,
                   Desktop.get "keys" ad = VList (k :: ks) /\
                   Desktop.keystroke_script RT H (map (Desktop.str_of H) (k :: ks)) =
                   match Desktop.keystroke_loop RT H (map (Desktop.str_of H) (k :: ks))
                                                [] None with
                   | (_, None) =>
                       Raise (mk_exn (External "keystroke requires a non-modifier key"))
                   | (mods, Some key) =>
                       Ok (Desktop.system_events ++ " to keystroke "
                           ++ Desktop.json_dumps H (VStr key)
                           ++ match mods with
                              | [] => ""
                              | _ => " using {" ++ String.concat ", " mods ++ "}"
                              end)%string
                   end))
           (a :: r).
Proof.
  unfold Desktop._validate_planner_output.
  destruct (Desktop.get "actions" data) as [ | | | | |[|a r]| ] eqn:Ha; try discriminate.
  destruct (max_actions <? Z.of_nat (List.length (a :: r)))%Z eqn:Hmax; [discriminate|].
  destruct (Desktop.check_actions RT H (a :: r)) eqn:Hc; [discriminate|].
  intros Heq. inversion Heq. split; [reflexivity|].
  exists a, r. split; [reflexivity|]. split; [apply Z.ltb_ge in Hmax; exact Hmax|].
  apply check_actions_sound in Hc.
  eapply Forall_impl; [|exact Hc].
  intros act (ad & -> & Hk). exists ad. split; [reflexivity|].
  intros Ht. destruct (Hk Ht) as (k & ks & Hkeys & Hcheck).
  exists k, ks. split; [exact Hkeys|].
  now apply keystroke_script_as_planned.
Qed.

Lemma accepted_keys_are_sent_as_planned_witness :
  let data := [("app", VNone);
               ("actions", VList [VDict [("type", VStr "keystroke");
                                         ("keys", VList [VStr "CMD"; VStr "n"]);
                                         ("sleep", VNone)]])] in
  Desktop._validate_planner_output still_runtime Desktop.quiet_host data 14 = Return data /\
  Desktop.keystroke_script still_runtime Desktop.quiet_host ["CMD"; "n"]
  = Ok (Desktop.system_events ++ " to keystroke " ++ Desktop.dq ++ "n" ++ Desktop.dq
        ++ " using {command down}")%string.
Proof.
  intros data.
  destruct (accepted_keys_are_sent_as_planned still_runtime Desktop.quiet_host data data 14
              eq_refl) as (_ & a & r & Ha & _ & Hall).
  split; [reflexivity|].
  cbv in Ha. inversion Ha. subst a r.
  inversion Hall as [|x l (ad & Had & Hk) _]. subst.
  inversion Had. subst ad.
  destruct (Hk eq_refl) as (k & ks & Hkeys & Hscript).
  cbv in Hkeys. inversion Hkeys. subst k ks.
  exact Hscript.
Defined.

(** An action whose [sleep] is something [float] does not take (the [null]
    that the schema of the plan allows, a list, an object) fails at the
    second statement of [_run_action], before it does anything; so a run with
    such an action first in [inputs.actions] fails with the outside world
    untouched. *)
Theorem unusable_sleep_stops_the_action (RT : Runtime) (H : Desktop.Host RT)
        (pc : Desktop.DesktopPlannerConfig) (a : dict) (v : pyval) (e : exn)
        (app_name : pyval) (w : W RT) :
  dict_get "sleep" a = Some v ->
  py_float RT v = Raise e ->
  Desktop._run_action RT H (VDict a) app_name w = (Raise e, w) /\
  py_float RT VNone = Raise (mk_exn (FloatConversion "NoneType")) /\
  forall (step : Step) (d : dict) (r : list pyval),
    inputs step = VDict d ->
    Desktop.get "actions" d = VList (VDict a :: r) ->
    Desktop.run RT H pc step w = (Raise e, w).
Proof.
  intros Hs Hf.
  assert (Hact : forall app, Desktop._run_action RT H (VDict a) app w = (Raise e, w)).
  { intros app. unfold Desktop._run_action, Desktop.xbind at 1, Desktop.xlift.
    now rewrite Hs, Hf. }
  split; [apply Hact|]. split; [reflexivity|].
  intros step d r Hin Hacts.
  destruct d as [|kv d']; [cbv in Hacts; discriminate|].
  unfold Desktop.run, Desktop.xbind at 1, Desktop.plan. rewrite Hin.
  cbn [Desktop.py_or Desktop.truthy]. rewrite Hacts.
  unfold Desktop.xret. cbn [fst snd Desktop.run_actions].
  unfold Desktop.xbind at 1. unfold Desktop.xbind at 1. now rewrite Hact.
Qed.

Lemma unusable_sleep_stops_the_action_witness :
  let a := [("type", VStr "spotlight_open"); ("sleep", VNone)] in
  let step := plain_step "d1" "DESKTOP" "open spotlight"
                         (VDict [("actions", VList [VDict a])]) [] 0 "auto" in
  Desktop.run still_runtime Desktop.quiet_host
              (Desktop.mkDesktopPlannerConfig "m" 14) step tt
  = (Raise (mk_exn (FloatConversion "NoneType")), tt).
Proof.
  intros a step.
  destruct (unusable_sleep_stops_the_action still_runtime Desktop.quiet_host
              (Desktop.mkDesktopPlannerConfig "m" 14) a VNone
              (mk_exn (FloatConversion "NoneType")) VNone tt eq_refl eq_refl)
    as (_ & _ & Hrun).
  apply (Hrun step [("actions", VList [VDict a])] []); reflexivity.
Defined.


(* ================================================================== *)
(** ** The desktop executor: the outputs it makes and their validation *)

Section MadeOutputs.
Variable RT : Runtime.
Variable H : Desktop.Host RT.

Lemma _front_window_title_str (app : string) (w w' : W RT) (r : outcome string) :
  Desktop._front_window_title RT H app w = (r, w') -> forall e, r <> Raise e.
Proof.
  unfold Desktop._front_window_title.
  destruct (Desktop._osascript RT H _ w) as [[s|e0|] w1]; intros Heq e;
    inversion Heq; discriminate.
Qed.

Lemma blank_valid (ty : string) :
  validate_value RT (fst (field_info ty)) (Desktop.blank ty) = Some (Desktop.blank ty).
Proof.
  unfold field_info, _TYPE_MAP, Desktop.blank. cbn [dict_get].
  destruct (String.eqb ty "string") eqn:E1.
  { apply String.eqb_eq in E1. subst. reflexivity. }
  destruct (String.eqb ty "number") eqn:E2; [reflexivity|].
  destruct (String.eqb ty "path") eqn:E3.
  { apply String.eqb_eq in E3. subst. reflexivity. }
  destruct (String.eqb ty "boolean"); reflexivity.
Qed.

Lemma field_info_text (ty : string) :
  ty <> "number" -> ty <> "boolean" -> fst (field_info ty) = TStr.
Proof.
  intros Hn Hb. apply String.eqb_neq in Hn, Hb.
  unfold field_info, _TYPE_MAP. cbn [dict_get]. rewrite Hn, Hb.
  destruct (String.eqb ty "string"); [reflexivity|].
  destruct (String.eqb ty "path"); reflexivity.
Qed.

(** The loop of [_make_outputs] adds one entry per declared output, in the
    order of the schema: a string for an output it observes, the blank of the
    declared type for any other. *)
Lemma make_outputs_loop_spec (front_app : string) (schema : list (string * string)) :
  forall (out out' : dict) (w w' : W RT),
    NoDup (dict_keys schema) ->
    (forall k, In k (dict_keys schema) -> dict_get k out = None) ->
    Desktop.make_outputs_loop RT H front_app schema out w = (Ok out', w') ->
    exists vals,
      out' = out ++ vals /\
      Forall2 (fun kt kv =>
                 fst kv = fst kt /\
                 ((str_in (fst kt) ["front_app"; "frontmost_app"; "window_title";
                                    "front_window_title"] = true /\
                   exists s, snd kv = VStr s) \/
                  snd kv = Desktop.blank (snd kt)))
              schema vals.
Proof.
  induction schema as [|[k typ] r IH]; intros out out' w w' Hnd Hfresh.
  - cbn [Desktop.make_outputs_loop]. unfold Desktop.xret. intros Heq. inversion Heq.
    exists []. rewrite app_nil_r. split; [reflexivity | constructor].
  - cbn [Desktop.make_outputs_loop].
    unfold dict_keys in Hnd. cbn [map fst] in Hnd. inversion Hnd as [|? ? Hnot Hnd']. subst.
    assert (Hk : dict_get k out = None) by (apply Hfresh; now left).
    assert (Hstep : forall v,
               (forall k', In k' (dict_keys r) -> dict_get k' (dict_set k v out) = None)).
    { intros v k' Hin. rewrite dict_get_set_other.
      - apply Hfresh. now right.
      - intros ->. now apply Hnot. }
    assert (Hgo : forall v w1,
               ((str_in k ["front_app"; "frontmost_app"; "window_title";
                           "front_window_title"] = true /\ exists s, v = VStr s) \/
                v = Desktop.blank typ) ->
               Desktop.make_outputs_loop RT H front_app r (dict_set k v out) w1
               = (Ok out', w') ->
               exists vals,
                 out' = out ++ vals /\
                 Forall2 (fun kt kv =>
                            fst kv = fst kt /\
                            ((str_in (fst kt) ["front_app"; "frontmost_app";
                                               "window_title"; "front_window_title"]
                              = true /\ exists s, snd kv = VStr s) \/
                             snd kv = Desktop.blank (snd kt)))
                         ((k, typ) :: r) vals).
    { intros v w1 Hv Heq.
      destruct (IH _ _ _ _ Hnd' (Hstep v) Heq) as (vals & -> & Hall).
      exists ((k, v) :: vals). rewrite (dict_set_fresh k v out Hk), <- app_assoc.
      split; [reflexivity|]. constructor; [|exact Hall].
      cbn [fst snd]. split; [reflexivity | exact Hv]. }
    destruct (str_in k ["front_app"; "frontmost_app"]) eqn:H1.
    + apply Hgo. left. split; [|eauto].
      unfold str_in in *. cbn [existsb] in *.
      destruct (String.eqb k "front_app"), (String.eqb k "frontmost_app");
        cbn in *; congruence.
    + destruct (str_in k ["window_title"; "front_window_title"]) eqn:H2.
      * unfold Desktop.xbind at 1.
        destruct (Desktop._front_window_title RT H front_app w) as [[title|e|] w1];
          try discriminate.
        apply Hgo. left. split; [|eauto].
        unfold str_in in *. cbn [existsb] in *.
        destruct (String.eqb k "front_app"), (String.eqb k "frontmost_app"),
          (String.eqb k "window_title"), (String.eqb k "front_window_title");
          cbn in *; congruence.
      * apply Hgo. now right.
Qed.

(** Entries that are each of their field's type, against a model with these
    fields: nothing fails, and the validated mapping is the input. *)
Lemma validated_fields_fixed (out : dict) :
  NoDup (dict_keys out) ->
  forall (fields : list (string * FieldInfo)) (vals : dict),
    (forall kv, In kv vals -> In kv out) ->
    Forall2 (fun f kv => fst kv = fst f /\
                         validate_value RT (fst (snd f)) (snd kv) = Some (snd kv))
            fields vals ->
    failing_fields RT fields out = [] /\ validated_fields RT fields out = vals.
Proof.
  intros Hnd fields vals Hsub Hall. unfold failing_fields.
  induction Hall as [|f kv fields vals [Hk Hv] Hall IH]; [split; reflexivity|].
  destruct IH as [IH1 IH2]; [intros x Hx; apply Hsub; now right|].
  assert (Hget : dict_get (fst f) out = Some (snd kv)).
  { rewrite <- Hk. apply dict_get_NoDup_in; [exact Hnd|].
    destruct kv as [k v]. apply Hsub. now left. }
  assert (Hvf : validate_field RT out f = Some (snd kv)).
  { unfold validate_field, FieldInfo in *. now rewrite Hget, Hv. }
  cbn [filter validated_fields]. rewrite Hvf.
  split; [exact IH1|]. rewrite IH2. destruct kv as [k v]. cbn in *. now subst.
Qed.

Lemma made_values_valid (sch : list (string * string)) (vals : dict) :
  (forall k ty,
      In (k, ty) sch ->
      str_in k ["front_app"; "frontmost_app"; "window_title"; "front_window_title"] = true ->
      ty <> "number" /\ ty <> "boolean") ->
  Forall2 (fun kt kv =>
             fst kv = fst kt /\
             ((str_in (fst kt) ["front_app"; "frontmost_app"; "window_title";
                                "front_window_title"] = true /\
               exists s, snd kv = VStr s) \/
              snd kv = Desktop.blank (snd kt)))
          sch vals ->
  Forall2 (fun (f : string * FieldInfo) kv =>
             fst kv = fst f /\
             validate_value RT (fst (snd f)) (snd kv) = Some (snd kv))
          (map schema_field sch) vals.
Proof.
  intros Hobs Hall.
  induction Hall as [|kt kv s v [Hk Hv] _ IH]; [constructor|].
  cbn [map]. constructor.
  - unfold schema_field. cbn [fst snd]. split; [exact Hk|].
    destruct kt as [k ty]. cbn [fst snd] in *.
    destruct Hv as [[Ho [x Hx]]|Hb].
    + destruct (Hobs k ty (or_introl eq_refl) Ho) as [Hn Hbo].
      rewrite Hx, (field_info_text ty Hn Hbo). reflexivity.
    + rewrite Hb. apply blank_valid.
  - apply IH. intros k ty Hin. apply Hobs. now right.
Qed.

End MadeOutputs.

(** What the desktop executor returns passes the engine's validation
    unchanged: for a non-empty schema with distinct keys, all of them names
    that pydantic takes for the fields of a model (no leading underscore, no
    leading [model_]), in which the four outputs the executor observes
    ([front_app], [frontmost_app], [window_title], [front_window_title]) are
    not declared as number or boolean, the mapping made by [_make_outputs] has
    exactly the declared keys in the declared order, and [_validate_outputs]
    returns it as it is. *)
Theorem desktop_outputs_pass_validation (RT : Runtime) (H : Desktop.Host RT)
        (step : Step) (w w' : W RT) (out : dict) :
  NoDup (dict_keys (outputs_schema step)) ->
  outputs_schema step <> [] ->
  schema_in_model step = true ->
  (forall k ty,
      In (k, ty) (outputs_schema step) ->
      str_in k ["front_app"; "frontmost_app"; "window_title"; "front_window_title"] = true ->
      ty <> "number" /\ ty <> "boolean") ->
  Desktop._make_outputs RT H step w = (Ok out, w') ->
  dict_keys out = dict_keys (outputs_schema step) /\
  _validate_outputs RT step (VDict out) = Ok out.
Proof.
  intros Hnd Hne Hm Hobs. unfold Desktop._make_outputs, Desktop.xbind at 1.
  destruct (Desktop._frontmost_app_name RT H w) as [[front|e|] w1]; try discriminate.
  intros Hloop.
  destruct (make_outputs_loop_spec RT H front (outputs_schema step) [] out w1 w' Hnd
              (fun _ _ => eq_refl) Hloop) as (vals & -> & Hall).
  cbn [List.app].
  assert (Hkeys : dict_keys vals = dict_keys (outputs_schema step)).
  { clear - Hall. unfold dict_keys.
    induction Hall as [|kt kv s v [Hk _] _ IH]; [reflexivity|].
    cbn [map]. congruence. }
  split; [exact Hkeys|].
  unfold _validate_outputs.
  destruct (schema_in_model_output step Hm) as [M HM]. rewrite HM.
  unfold model_validate, model_dump.
  rewrite (output_model_fields step M HM Hne).
  pose proof (made_values_valid RT (outputs_schema step) vals Hobs Hall) as Hfix.
  assert (Hnd' : NoDup (dict_keys vals)) by (rewrite Hkeys; exact Hnd).
  destruct (validated_fields_fixed RT vals Hnd' _ vals (fun _ h => h) Hfix) as [E1 E2].
  now rewrite E1, E2.
Qed.

Lemma desktop_outputs_pass_validation_witness :
  let step := plain_step "d1" "DESKTOP" "open notes" (VDict [])
                         [("front_app", "string"); ("count", "number")] 0 "auto" in
  _validate_outputs still_runtime step
                    (VDict [("front_app", VStr "Notes"); ("count", VFloat float_zero)])
  = Ok [("front_app", VStr "Notes"); ("count", VFloat float_zero)].
Proof.
  intros step.
  apply (desktop_outputs_pass_validation still_runtime Desktop.quiet_host step tt tt).
  - cbn. repeat constructor; cbn; intuition discriminate.
  - discriminate.
  - reflexivity.
  - cbn [outputs_schema step plain_step In]. intros k ty [Heq|[Heq|[]]] Ho;
      inversion Heq; subst; [split; discriminate | discriminate Ho].
  - reflexivity.
Defined.


(* ================================================================== *)
(** ** test_step.py: the context of the tool *)

Lemma build_loop_get (user_inputs : dict) (declared : list (string * string)) :
  forall (runtime : dict) (k : string),
    dict_get k (TestStep.build_loop user_inputs declared runtime) =
    if dict_in k declared
    then Some (match dict_get k user_inputs with Some v => v | None => VNone end)
    else dict_get k runtime.
Proof.
  induction declared as [|[key ty] r IH]; intros runtime k; [reflexivity|].
  cbn [TestStep.build_loop]. rewrite IH. unfold dict_in. cbn [dict_get].
  destruct (String.eqb k key) eqn:He.
  - apply String.eqb_eq in He. subst key.
    destruct (dict_get k r); [reflexivity|]. now rewrite dict_get_set_same.
  - destruct (dict_get k r); [reflexivity|].
    apply dict_get_set_other. intros ->. now rewrite String.eqb_refl in He.
Qed.

Lemma resolve_unknown_head (env0 : Environment) (c : dict) (x : string)
      (attrs : list string) :
  dict_get x c = None ->
  forallb (fun a => negb (String.prefix "_" a)) attrs = true ->
  unresolved (resolve env0 c (x :: attrs)) = true.
Proof.
  intros Hx Hall. unfold resolve. rewrite Hx.
  apply getattr_unresolved; [exact Hall | apply missing_unresolved].
Qed.

(** The tool renders with the inputs under [inputs], not at the top as the
    engine does: a reference in the goal or the inputs of the step whose first
    name is neither [inputs] nor [steps] ([user_text], say, which the engine
    resolves), alone or followed by attributes without a leading underscore,
    finds nothing, and the tool raises before it runs the step, outside its
    [try], whatever the user's inputs are.  (A first name that jinja2 binds
    itself, [self] or one of its globals, is no reference to the context.) *)
Theorem test_step_cannot_see_run_inputs (RT : Runtime)
        (browser_use playwright desktop_ax : capability RT)
        (wf : WorkflowSpec) (step_id : string) (user_inputs : dict)
        (previous_outputs : option dict) (w : W RT)
        (step0 : Step) (leaf x : string) (attrs : list string) :
  TestStep.get_step_by_id wf step_id = Ok step0 ->
  In leaf (goal step0 :: leaves (inputs step0)) ->
  references leaf (x :: attrs) ->
  x <> "inputs" -> x <> "steps" ->
  forallb (fun a => negb (String.prefix "_" a)) attrs = true ->
  let r := TestStep.test_step RT browser_use playwright desktop_ax wf step_id
                              user_inputs previous_outputs w in
  (forall u, fst r <> Ok u) /\ snd r = w.
Proof.
  intros Hget Hin Href Hx1 Hx2 Hattrs. cbn zeta.
  unfold TestStep.test_step. rewrite Hget.
  set (c := TestStep.test_ctx wf user_inputs previous_outputs).
  cbn [Environment_new obind].
  set (env0 := mkEnvironment (Some StrictUndefined) false).
  assert (Hun : unresolved (resolve env0 c (x :: attrs)) = true).
  { apply resolve_unknown_head; [|exact Hattrs].
    unfold c, TestStep.test_ctx. cbn [dict_get].
    apply String.eqb_neq in Hx1, Hx2. now rewrite Hx1, Hx2. }
  destruct (render_string_undefined RT env0 c leaf (x :: attrs) Href Hun) as [Hnot _].
  destruct Hin as [<-|Hin].
  - destruct (render_string RT env0 c (goal step0)) as [g|e|] eqn:Hg; cbn [obind].
    + now elim (Hnot g).
    + split; [discriminate | reflexivity].
    + split; [discriminate | reflexivity].
  - destruct (render_string RT env0 c (goal step0)) as [g|e|] eqn:Hg; cbn [obind];
      try (split; [discriminate | reflexivity]).
    destruct (render_templates RT env0 c (inputs step0)) as [inp|e|] eqn:Hi;
      cbn [obind]; try (split; [discriminate | reflexivity]).
    destruct (render_templates_leaves RT env0 c (inputs step0) inp Hi leaf Hin)
      as [out Hout].
    now elim (Hnot out).
Qed.

Lemma test_step_cannot_see_run_inputs_witness :
  let r := TestStep.test_step still_runtime empty_capability empty_capability
                              empty_capability two_step_workflow "web_1"
                              [("user_text", VStr "pizza")] None tt in
  (forall u, fst r <> Ok u) /\ snd r = tt.
Proof.
  apply (test_step_cannot_see_run_inputs still_runtime empty_capability empty_capability
           empty_capability two_step_workflow "web_1" [("user_text", VStr "pizza")] None tt
           web_step "{{ user_text }}" "user_text" []).
  - reflexivity.
  - cbn. auto.
  - eexists. split; [reflexivity | cbn; auto].
  - discriminate.
  - discriminate.
  - reflexivity.
Defined.

(** In the context of the tool an input is found under [inputs] exactly when
    the workflow declares it: a declared input holds what the user gave for
    it, or None; an input the workflow does not declare is dropped, whatever
    the user gave. *)
Theorem test_context_nests_the_inputs (env0 : Environment) (wf : WorkflowSpec)
        (user_inputs : dict) (previous_outputs : option dict) (k : string) :
  python_attr k = false ->
  resolve env0 (TestStep.test_ctx wf user_inputs previous_outputs) ["inputs"; k] =
  if dict_in k (wf_inputs wf)
  then Found (match dict_get k user_inputs with Some v => v | None => VNone end)
  else missing env0 k.
Proof.
  intros Hk. unfold resolve, TestStep.test_ctx. cbn [dict_get String.eqb Ascii.eqb
                                                     Bool.eqb fold_left getattr].
  rewrite Hk. unfold TestStep.build_runtime_inputs. rewrite build_loop_get.
  destruct (dict_in k (wf_inputs wf)); reflexivity.
Qed.

Lemma test_context_nests_the_inputs_witness :
  resolve strict_env
          (TestStep.test_ctx two_step_workflow
                             [("user_text", VStr "pizza"); ("city", VStr "San Jose")] None)
          ["inputs"; "user_text"] = Found (VStr "pizza") /\
  resolve strict_env
          (TestStep.test_ctx two_step_workflow
                             [("user_text", VStr "pizza"); ("city", VStr "San Jose")] None)
          ["inputs"; "city"] = Undef "city".
Proof.
  split.
  - apply (test_context_nests_the_inputs strict_env two_step_workflow
             [("user_text", VStr "pizza"); ("city", VStr "San Jose")] None "user_text").
    reflexivity.
  - apply (test_context_nests_the_inputs strict_env two_step_workflow
             [("user_text", VStr "pizza"); ("city", VStr "San Jose")] None "city").
    reflexivity.
Defined.


(* ================================================================== *)
(** ** cli.py: what the commands start *)



(** The segmentation leaves alone what the requests and the sampling of the
    video leave alone. *)
Lemma segment_preserves (World : Type) (I : World -> Prop)
      (create : Request -> World -> result Response * World)
      (json_loads : string -> result pyval)
      (json_dumps : pyval -> string) (format_3f : spec_float -> string)
      (sample_video_frames :
         string -> Segmenter.SegmenterConfig -> World
         -> result (list (spec_float * string)) * World)
      (SYSTEM_VISUAL SYSTEM_ALIGN : string) (VISUAL_SCHEMA ALIGNED_SCHEMA : dict)
      (executor_catalog_text : string)
      (cfg : Segmenter.SegmenterConfig) (video_path : string)
      (user_text : option string) (w : World) :
  (forall rq w0 r w1, create rq w0 = (r, w1) -> I w0 -> I w1) ->
  (forall p c w0 r w1, sample_video_frames p c w0 = (r, w1) -> I w0 -> I w1) ->
  I w ->
  I (snd (fst (fst (Segmenter.segment World create json_loads json_dumps format_3f
                      sample_video_frames SYSTEM_VISUAL SYSTEM_ALIGN VISUAL_SCHEMA
                      ALIGNED_SCHEMA executor_catalog_text cfg video_path user_text w)))).
Proof.
  intros Hc Hs Hw. unfold Segmenter.segment, Segmenter._segment_visual.
  destruct (sample_video_frames video_path cfg w) as [[frames|e] w1] eqn:Hsample.
  2: { cbn. eapply Hs; eauto. }
  pose proof (Hs _ _ _ _ _ Hsample Hw) as Hw1.
  unfold call_json.
  match goal with
  | |- context [attempts ?W ?T ?c ?j ?cf ?sy ?uc ?sn ?js ?v ?ex None None 0 ?n w1] =>
      destruct (attempts W T c j cf sy uc sn js v ex None None 0 n w1)
        as [[r1 w2] tr1] eqn:H1;
      pose proof (attempts_preserve W T c j cf sy uc sn js v ex I Hc
                    (fun d w0 r w3 Heq Hi =>
                       eq_ind w0 I Hi w3 (f_equal snd Heq))
                    n 0 None None w1 w2 r1 tr1 H1 Hw1) as Hw2
  end.
  destruct r1 as [visual|e]; [|exact Hw2].
  unfold Segmenter._align_to_executors, call_json.
  match goal with
  | |- context [attempts ?W ?T ?c ?j ?cf ?sy ?uc ?sn ?js ?v ?ex None None 0 ?n w2] =>
      destruct (attempts W T c j cf sy uc sn js v ex None None 0 n w2)
        as [[r2 w3] tr2] eqn:H2;
      pose proof (attempts_preserve W T c j cf sy uc sn js v ex I Hc
                    (fun d w0 r w4 Heq Hi =>
                       eq_ind w0 I Hi w4 (f_equal snd Heq))
                    n 0 None None w2 w3 r2 tr2 H2 Hw2) as Hw3
  end.
  exact Hw3.
Qed.

(** Compiling in a run directory without [segments.json]: the segmentation
    returns its segments and nothing writes them, so, as long as neither
    making the directory nor the requests nor the reading of the video put
    the file there, the command fails before the preprocessing, whether the
    segmentation was skipped, failed or succeeded; what comes after the test
    for the file is never run. *)
Theorem compile_needs_the_segments_file (RT : Runtime) (H : Cli.Host RT)
        (args : Cli.CompileArgs)
        (rest rest' : string -> W RT -> outcome unit * W RT) (w : W RT) :
  let segments_path := Cli.join H (Cli.compile_run args) "segments.json" in
  Cli.path_exists H segments_path w = false ->
  (forall p w0 r w1, Cli.ensure_dir H p w0 = (r, w1) ->
                     Cli.path_exists H segments_path w0 = false ->
                     Cli.path_exists H segments_path w1 = false) ->
  (forall rq w0 r w1, Cli.responses_create H rq w0 = (r, w1) ->
                      Cli.path_exists H segments_path w0 = false ->
                      Cli.path_exists H segments_path w1 = false) ->
  (forall p c w0 r w1, Cli.sample_video_frames H p c w0 = (r, w1) ->
                       Cli.path_exists H segments_path w0 = false ->
                       Cli.path_exists H segments_path w1 = false) ->
  (forall u, fst (Cli.cmd_compile RT H args rest w) <> Ok u) /\
  Cli.cmd_compile RT H args rest w = Cli.cmd_compile RT H args rest' w.
Proof.
  cbn zeta. intros Hw He Hc Hs. unfold Cli.cmd_compile.
  destruct (Cli.ensure_dir H (Cli.compile_run args) w) as [[u|e|] w1] eqn:Hdir;
    try (split; [discriminate | reflexivity]).
  pose proof (He _ _ _ _ Hdir Hw) as Hw1.
  destruct (negb (Cli.path_exists H (Cli.join H (Cli.compile_run args) "screen.mp4") w1));
    [split; [discriminate | reflexivity]|].
  destruct (negb (Cli.skip_segment args)).
  - destruct (Cli.compile_cfg RT H args) as [cfg|e|];
      try (split; [discriminate | reflexivity]).
    unfold Cli.segment_video.
    pose proof (segment_preserves (W RT)
                  (fun w0 => Cli.path_exists H
                               (Cli.join H (Cli.compile_run args) "segments.json") w0
                             = false)
                  (Cli.responses_create H) (Cli.response_loads H) (Cli.segment_dumps H)
                  (Cli.format_3f H) (Cli.sample_video_frames H) (Cli.SYSTEM_VISUAL H)
                  (Cli.SYSTEM_ALIGN H) (Cli.VISUAL_SCHEMA H) (Cli.ALIGNED_SCHEMA H)
                  (Cli.executor_catalog_text H) cfg
                  (Cli.join H (Cli.compile_run args) "screen.mp4")
                  (Cli.compile_text args) w1 Hc Hs Hw1) as Hseg.
    destruct (Segmenter.segment _ _ _ _ _ _ _ _ _ _ _ _ _ _ w1)
      as [[[r w2] tr1] tr2]. cbn [fst snd] in Hseg.
    destruct r as [d|e]; [|split; [discriminate | reflexivity]].
    rewrite Hseg. cbn [negb]. split; [discriminate | reflexivity].
  - rewrite Hw1. cbn [negb]. split; [discriminate | reflexivity].
Qed.

Lemma compile_needs_the_segments_file_witness :
  let args := Cli.mkCompileArgs "runs/demo1" false "gpt" "0.5" "60" "640" None in
  let H := Cli.lab_host (Some Cli.one_segment) in
  let rest := fun (_ : string) (w : unit) => (Ok tt, w) in
  Cli.cmd_compile Cli.reading_runtime H args rest tt =
  (Raise (mk_exn (External ("Missing runs/demo1/segments.json. "
                            ++ "Run 'segment' or compile without --skip-segment."))), tt) /\
  Cli.cmd_compile Cli.reading_runtime H args rest tt
  = Cli.cmd_compile Cli.reading_runtime H args (fun _ w => (OutOfModel, w)) tt.
Proof.
  intros args H rest. split.
  - vm_compute. reflexivity.
  - apply (compile_needs_the_segments_file Cli.reading_runtime H args rest
             (fun _ w => (OutOfModel, w)) tt).
    + reflexivity.
    + intros p [] r [] _ _. reflexivity.
    + intros rq [] r [] _ _. reflexivity.
    + intros p c [] r [] _ _. reflexivity.
Defined.


(* ================================================================== *)
(** ** compiler_llm.py: normalising the templates *)

Module NormalFacts.
Import CompilerLlm.

Lemma append_cons (c : ascii) (a b : string) :
  (String c a ++ b)%string = String c (a ++ b)%string.
Proof. reflexivity. Qed.

Lemma length_append (a b : string) :
  String.length (a ++ b) = (String.length a + String.length b)%nat.
Proof. induction a as [|c a IH]; cbn; [reflexivity | now rewrite IH]. Qed.

Lemma no_brace_append (a b : string) :
  no_brace (a ++ b) = andb (no_brace a) (no_brace b).
Proof.
  unfold no_brace. induction a as [|c a IH]; cbn; [reflexivity|].
  rewrite IH. now rewrite Bool.andb_assoc.
Qed.

(** *** What a match consumes *)

Lemma lstrip_split (s : string) :
  exists a, s = (a ++ lstrip s)%string /\ no_brace a = true.
Proof.
  induction s as [|c r IH]; [exists EmptyString; auto|].
  cbn [lstrip]. destruct (isspace c) eqn:Hs.
  - destruct IH as (a & Ha & Hn). exists (String c a). split.
    + cbn. now rewrite <- Ha.
    + unfold no_brace in *. cbn. rewrite Hn.
      destruct (Ascii.eqb c "{") eqn:He; [|reflexivity].
      apply Ascii.eqb_eq in He. subst. discriminate.
  - exists EmptyString. auto.
Qed.

Lemma after_prefix_split (p s s1 : string) :
  after_prefix p s = Some s1 -> s = (p ++ s1)%string.
Proof.
  revert s. induction p as [|a p IH]; intros s; cbn [after_prefix].
  - intros H. now inversion H.
  - destruct s as [|b s']; [discriminate|].
    destruct (Ascii.eqb a b) eqn:He; [|discriminate].
    apply Ascii.eqb_eq in He. subst. intros H. cbn. now rewrite (IH _ H).
Qed.

Lemma is_word_not_brace (c : ascii) : is_word c = true -> Ascii.eqb c "{" = false.
Proof.
  intros Hw. destruct (Ascii.eqb c "{") eqn:He; [|reflexivity].
  apply Ascii.eqb_eq in He. subst. discriminate.
Qed.

Lemma dotted_split (s : string) :
  forall b p rest,
    dotted s b = (p, rest) -> s = (p ++ rest)%string /\ no_brace p = true.
Proof.
  induction s as [|c r IH]; intros b p rest; cbn [dotted].
  - intros H. inversion H. auto.
  - destruct (is_word c) eqn:Hw.
    + destruct (dotted r true) as [p1 rest1] eqn:Hd. intros H. inversion H. subst.
      destruct (IH _ _ _ Hd) as [Hs Hn]. split; [cbn; now rewrite <- Hs|].
      unfold no_brace in *. cbn. now rewrite Hn, (is_word_not_brace c Hw).
    + destruct (andb (Ascii.eqb c ".") b) eqn:Hdot.
      * destruct r as [|d r'].
        { intros H. inversion H. auto. }
        destruct (is_word d) eqn:Hwd.
        -- destruct (dotted (String d r') false) as [p1 rest1] eqn:Hd.
           intros H. inversion H. subst.
           destruct (IH _ _ _ Hd) as [Hs Hn]. split; [cbn; now rewrite <- Hs|].
           apply andb_prop in Hdot. destruct Hdot as [Hc _].
           apply Ascii.eqb_eq in Hc. subst c.
           unfold no_brace in *. cbn [all_chars]. now rewrite Hn.
        -- intros H. inversion H. auto.
      * intros H. inversion H. auto.
Qed.

Lemma closing_split (s rest : string) :
  closing s = Some rest ->
  exists a, s = (a ++ String "}" rest)%string /\ no_brace a = true.
Proof.
  unfold closing. destruct (lstrip_split s) as (a & Ha & Hn).
  destruct (lstrip s) as [|c r]; [discriminate|].
  destruct (Ascii.eqb c "}") eqn:Hc; [|discriminate].
  apply Ascii.eqb_eq in Hc. subst c.
  intros H. exists a. split; [|exact Hn].
  destruct r as [|d r'].
  - injection H as <-. exact Ha.
  - destruct (Ascii.eqb d "}"); [discriminate|]. injection H as <-. exact Ha.
Qed.

(** A match after the brace: the text it passes over ends in the closing
    brace and holds no opening brace, and neither does the group. *)
Lemma token_split (r inner rest : string) :
  token r = Some (inner, rest) ->
  (exists m, r = (m ++ String "}" rest)%string) /\ no_brace inner = true.
Proof.
  unfold token. destruct (lstrip_split r) as (a & Ha & Hna).
  destruct (user_text_token (lstrip r)) as [[i1 r1]|] eqn:Hu.
  - intros H. inversion H. subst. unfold user_text_token in Hu.
    destruct (after_prefix "user_text" (lstrip r)) as [s1|] eqn:Hp; [|discriminate].
    destruct (closing s1) as [rest1|] eqn:Hc; [|discriminate].
    inversion Hu. subst.
    apply after_prefix_split in Hp. apply closing_split in Hc.
    destruct Hc as (b & Hb & _). split; [|reflexivity].
    exists (a ++ "user_text" ++ b)%string.
    rewrite Ha at 1. rewrite Hp, Hb. now rewrite !append_assoc.
  - unfold steps_token.
    destruct (after_prefix "steps." (lstrip r)) as [s1|] eqn:Hp; [|discriminate].
    destruct (dotted s1 false) as [p s2] eqn:Hd.
    destruct (has_dot p); [|discriminate].
    destruct (closing s2) as [rest1|] eqn:Hc; [|discriminate].
    intros H. inversion H. subst.
    apply after_prefix_split in Hp. apply dotted_split in Hd. destruct Hd as [Hd Hnp].
    apply closing_split in Hc. destruct Hc as (b & Hb & _). split.
    + exists (a ++ "steps." ++ p ++ b)%string.
      rewrite Ha at 1. rewrite Hp, Hd, Hb. now rewrite !append_assoc.
    + unfold no_brace in *. cbn. exact Hnp.
Qed.

Lemma no_brace_lstrip (s : string) : no_brace s = true -> no_brace (lstrip s) = true.
Proof.
  unfold no_brace. induction s as [|c r IH]; [reflexivity|].
  cbn [lstrip all_chars]. intros H. apply andb_prop in H. destruct H as [Hc Hr].
  destruct (isspace c); [now apply IH|]. cbn. now rewrite Hc, Hr.
Qed.

Lemma no_brace_rstrip (s : string) : no_brace s = true -> no_brace (rstrip s) = true.
Proof.
  unfold no_brace. induction s as [|c r IH]; [reflexivity|].
  cbn [rstrip all_chars]. intros H. apply andb_prop in H. destruct H as [Hc Hr].
  specialize (IH Hr).
  destruct (rstrip r) as [|d r'].
  - destruct (isspace c); [reflexivity|]. cbn. now rewrite Hc.
  - cbn [all_chars] in *. now rewrite Hc, IH.
Qed.

Lemma no_brace_strip (s : string) : no_brace s = true -> no_brace (strip s) = true.
Proof. intros H. unfold strip. now apply no_brace_rstrip, no_brace_lstrip. Qed.

(** *** The pass, one step at a time *)

Lemma sub_skip (m rest : string) (x : ascii) :
  forall prev,
    sub (m ++ String x rest) prev (S (String.length m)) = sub rest (Some x) 0.
Proof.
  induction m as [|c m IH]; intros prev; [reflexivity|].
  cbn [append String.length sub]. apply IH.
Qed.

Lemma sub_cons (c : ascii) (r : string) (prev : option ascii) :
  sub (String c r) prev 0 =
  if andb (Ascii.eqb c "{") (negb (looks_back prev)) then
    match token r with
    | Some (inner, rest) =>
        ("{{ " ++ strip inner ++ " }}" ++ sub rest (Some "}"%char) 0)%string
    | None => String c (sub r (Some c) 0)
    end
  else String c (sub r (Some c) 0).
Proof.
  cbn [sub]. fold (looks_back prev).
  destruct (andb (Ascii.eqb c "{") (negb (looks_back prev))); [|reflexivity].
  destruct (token r) as [[inner rest]|] eqn:Ht; [|reflexivity].
  destruct (token_split r inner rest Ht) as [(m & Hm) _].
  assert (Hlen : (String.length r - String.length rest = S (String.length m))%nat).
  { rewrite Hm, length_append. cbn [String.length]. lia. }
  rewrite Hlen. rewrite Hm at 1. now rewrite sub_skip.
Qed.

(** Text without an opening brace is copied. *)
Lemma sub_copy (a : string) :
  forall (c : ascii) (b : string) (prev : option ascii),
    no_brace a = true -> Ascii.eqb c "{" = false ->
    sub (a ++ String c b) prev 0 = (a ++ String c (sub b (Some c) 0))%string.
Proof.
  induction a as [|x a IH]; intros c b prev Ha Hc.
  - cbn [append]. rewrite sub_cons. now rewrite Hc.
  - unfold no_brace in Ha. cbn [all_chars] in Ha. apply andb_prop in Ha.
    destruct Ha as [Hx Ha]. apply Bool.negb_true_iff in Hx.
    cbn [append]. rewrite sub_cons, Hx. cbn [andb]. now rewrite IH.
Qed.

(** *** What a match attempt sees *)

Lemma same_head_refl (s : string) : same_head s s.
Proof.
  induction s as [|c r IH]; [constructor|].
  destruct (Ascii.eqb c "{") eqn:He.
  - apply Ascii.eqb_eq in He. subst. constructor.
  - now constructor.
Qed.

Lemma lstrip_same_head (r r' : string) :
  same_head r r' -> same_head (lstrip r) (lstrip r').
Proof.
  induction 1 as [|r r'|c r r' Hc Hr IH].
  - constructor.
  - cbn. constructor.
  - cbn [lstrip]. destruct (isspace c); [exact IH | now constructor].
Qed.

Lemma after_prefix_same_head (p : string) :
  no_brace p = true ->
  forall r r',
    same_head r r' ->
    match after_prefix p r, after_prefix p r' with
    | Some a, Some a' => same_head a a'
    | None, None => True
    | _, _ => False
    end.
Proof.
  induction p as [|a p IH]; intros Hp r r' Hr; [exact Hr|].
  unfold no_brace in Hp. cbn [all_chars] in Hp. apply andb_prop in Hp.
  destruct Hp as [Ha Hp]. apply Bool.negb_true_iff in Ha.
  cbn [after_prefix]. destruct Hr as [|r r'|c r r' Hc Hr].
  - exact I.
  - now rewrite Ha.
  - destruct (Ascii.eqb a c); [now apply IH | exact I].
Qed.

Lemma dotted_same_head (r r' : string) :
  same_head r r' ->
  forall b,
    fst (dotted r b) = fst (dotted r' b) /\
    same_head (snd (dotted r b)) (snd (dotted r' b)).
Proof.
  induction 1 as [|r r'|c r r' Hc Hr IH]; intros b.
  - split; [reflexivity | constructor].
  - cbn. split; [reflexivity | constructor].
  - cbn [dotted]. destruct (is_word c).
    + destruct (IH true) as [E1 E2].
      destruct (dotted r true) as [p1 s1], (dotted r' true) as [p2 s2].
      cbn [fst snd] in *. split; [now f_equal | exact E2].
    + destruct (andb (Ascii.eqb c ".") b).
      * destruct Hr as [|r r'|d r r' Hd Hr].
        -- split; [reflexivity|]. constructor; [exact Hc | constructor].
        -- cbn. split; [reflexivity|]. constructor; [exact Hc | constructor].
        -- destruct (is_word d).
           ++ destruct (IH false) as [E1 E2].
              destruct (dotted (String d r) false) as [p1 s1],
                (dotted (String d r') false) as [p2 s2].
              cbn [fst snd] in *. split; [now f_equal | exact E2].
           ++ split; [reflexivity|]. constructor; [exact Hc|]. now constructor.
      * split; [reflexivity|]. now constructor.
Qed.

Lemma closing_same_head (r r' : string) :
  same_head r r' ->
  match closing r, closing r' with
  | Some a, Some a' => same_head a a'
  | None, None => True
  | _, _ => False
  end.
Proof.
  intros Hr. apply lstrip_same_head in Hr. unfold closing.
  destruct Hr as [|s s'|c s s' Hc Hs].
  - exact I.
  - cbn. exact I.
  - destruct (Ascii.eqb c "}"); [|exact I].
    destruct Hs as [|t t'|d t t' Hd Ht].
    + constructor.
    + cbn. constructor.
    + destruct (Ascii.eqb d "}"); [exact I | now constructor].
Qed.

(** A match attempt that fails on a text fails on every text that is the same
    up to its first opening brace. *)
Lemma token_same_head (r r' : string) :
  same_head r r' -> token r = None -> token r' = None.
Proof.
  intros Hr. apply lstrip_same_head in Hr. unfold token.
  assert (Hu : user_text_token (lstrip r) = None -> user_text_token (lstrip r') = None).
  { unfold user_text_token.
    pose proof (after_prefix_same_head "user_text" eq_refl _ _ Hr) as Hp.
    destruct (after_prefix "user_text" (lstrip r)) as [s1|],
      (after_prefix "user_text" (lstrip r')) as [s1'|]; try contradiction; auto.
    pose proof (closing_same_head _ _ Hp) as Hc.
    destruct (closing s1), (closing s1'); try contradiction; auto. discriminate. }
  assert (Hs : steps_token (lstrip r) = None -> steps_token (lstrip r') = None).
  { unfold steps_token.
    pose proof (after_prefix_same_head "steps." eq_refl _ _ Hr) as Hp.
    destruct (after_prefix "steps." (lstrip r)) as [s1|],
      (after_prefix "steps." (lstrip r')) as [s1'|]; try contradiction; auto.
    destruct (dotted_same_head _ _ Hp false) as [E1 E2].
    destruct (dotted s1 false) as [p s2], (dotted s1' false) as [p' s2'].
    cbn [fst snd] in *. subst p'.
    destruct (has_dot p); auto.
    pose proof (closing_same_head _ _ E2) as Hc.
    destruct (closing s2), (closing s2'); try contradiction; auto. discriminate. }
  destruct (user_text_token (lstrip r)) as [m|]; [discriminate|].
  intros H. rewrite (Hu eq_refl). now apply Hs.
Qed.

(** The pass leaves a text the same up to its first opening brace. *)
Lemma sub_same_head (s : string) : forall prev, same_head s (sub s prev 0).
Proof.
  induction s as [|c r IH]; intros prev; [constructor|].
  rewrite sub_cons.
  destruct (Ascii.eqb c "{") eqn:Hc.
  - apply Ascii.eqb_eq in Hc. subst c.
    destruct (andb true (negb (looks_back prev))); [|constructor].
    destruct (token r) as [[inner rest]|]; constructor.
  - cbn [andb]. constructor; [exact Hc | apply IH].
Qed.

(** What the pass writes for a match is passed over by a second pass. *)
Lemma sub_replacement (inner x : string) (prev : option ascii) :
  no_brace inner = true ->
  sub ("{{ " ++ inner ++ " }}" ++ x) prev 0
  = ("{{ " ++ inner ++ " }}" ++ sub x (Some "}"%char) 0)%string.
Proof.
  intros Hn. cbn [append].
  rewrite sub_cons.
  replace (token (String "{" (String " " (inner ++ String " " (String "}" (String "}" x))))))
    with (@None (string * string)) by reflexivity.
  rewrite (sub_cons "{" _ (Some "{"%char)).
  cbn [looks_back Ascii.eqb Bool.eqb andb negb].
  assert (Hshape : String " " (inner ++ String " " (String "}" (String "}" x)))
                   = ((String " " (inner ++ String " " (String "}" EmptyString)))
                        ++ String "}" x)%string).
  { cbn [append]. now rewrite append_assoc. }
  assert (Hcopy : forall y,
             String " " (inner ++ String " " (String "}" (String "}" y)))
             = ((String " " (inner ++ String " " (String "}" EmptyString)))
                  ++ String "}" y)%string).
  { intros y. cbn [append]. now rewrite append_assoc. }
  assert (Hna : no_brace (String " " (inner ++ String " " (String "}" EmptyString))) = true).
  { change (String " " (inner ++ String " " (String "}" EmptyString)))
      with (String " " EmptyString ++ inner ++ String " " (String "}" EmptyString))%string.
    rewrite !no_brace_append, Hn. reflexivity. }
  rewrite (Hcopy x), (sub_copy _ "}" x (Some "{"%char) Hna eq_refl), <- Hcopy.
  destruct (negb (looks_back prev)); reflexivity.
Qed.

(** *** A second pass changes nothing *)

Lemma sub_idempotent (n : nat) :
  forall (s : string) (prev : option ascii),
    (String.length s <= n)%nat ->
    sub (sub s prev 0) prev 0 = sub s prev 0.
Proof.
  induction n as [|n IH]; intros s prev Hlen.
  - destruct s; [reflexivity | cbn in Hlen; lia].
  - destruct s as [|c r]; [reflexivity|].
    cbn [String.length] in Hlen.
    assert (Hplain : (token r = None \/
                      andb (Ascii.eqb c "{") (negb (looks_back prev)) = false) ->
                     sub (String c (sub r (Some c) 0)) prev 0
                     = String c (sub r (Some c) 0)).
    { intros Hno. rewrite sub_cons.
      rewrite (IH r (Some c)) by lia.
      destruct (andb (Ascii.eqb c "{") (negb (looks_back prev))) eqn:Hc;
        [|reflexivity].
      destruct Hno as [Hno | Hno]; [|discriminate].
      now rewrite (token_same_head r _ (sub_same_head r (Some c)) Hno). }
    rewrite sub_cons.
    destruct (andb (Ascii.eqb c "{") (negb (looks_back prev))) eqn:Hc.
    + destruct (token r) as [[inner rest]|] eqn:Ht.
      * destruct (token_split r inner rest Ht) as [(m & Hm) Hn].
        rewrite (sub_replacement _ _ prev (no_brace_strip _ Hn)).
        rewrite (IH rest (Some "}"%char)); [reflexivity|].
        rewrite Hm, length_append in Hlen. cbn [String.length] in Hlen. lia.
      * apply Hplain. now left.
    + apply Hplain. now right.
Qed.

Lemma normalize_idempotent (s : string) :
  _normalize_templates_in_str (_normalize_templates_in_str s)
  = _normalize_templates_in_str s.
Proof.
  unfold _normalize_templates_in_str.
  now apply (sub_idempotent (String.length s)).
Qed.

Lemma walk_idempotent (v : pyval) :
  _walk_and_normalize (_walk_and_normalize v) = _walk_and_normalize v.
Proof.
  induction v as [ | | | |x|l IH|d IH] using pyval_nested_ind;
    cbn [_walk_and_normalize]; try reflexivity.
  - now rewrite normalize_idempotent.
  - f_equal. rewrite map_map. apply map_ext_in. intros y Hy.
    rewrite Forall_forall in IH. now apply IH.
  - f_equal. rewrite map_map. apply map_ext_in. intros kv Hkv.
    rewrite Forall_forall in IH. cbn [fst snd]. now rewrite (IH kv Hkv).
Qed.

Section CompileCall.
Variable World : Type.
Variable create : Request -> World -> result Response * World.
Variable json_loads : string -> result pyval.
Variable model_validate : pyval -> result WorkflowSpec.
Variable iso_now : World -> string * World.

Lemma validator_compiled (workflow_name : string) (d : dict) (w w' : World)
      (spec : WorkflowSpec) :
  validator World model_validate iso_now workflow_name d w = (Return spec, w') ->
  compiled World model_validate iso_now workflow_name spec.
Proof.
  unfold compiled.
  unfold validator, _validate_workflow.
  destruct (model_validate (_walk_and_normalize (VDict d))) as [spec0|e] eqn:Hm;
    [|discriminate].
  destruct (String.eqb (created_at_iso spec0) "") eqn:He;
    [|destruct (String.eqb (created_at_iso spec0) epoch) eqn:Hp]; cbn [orb].
  - destruct (iso_now w) as [created w1] eqn:Hn. intros H. inversion H. subst.
    split; [reflexivity|]. exists (_walk_and_normalize (VDict d)), spec0.
    split; [exact Hm|]. split; [apply walk_idempotent|]. cbn.
    split; [reflexivity|]. split; [reflexivity|]. right.
    apply String.eqb_eq in He. split; [now left|]. exists w. now rewrite Hn.
  - destruct (iso_now w) as [created w1] eqn:Hn. intros H. inversion H. subst.
    split; [reflexivity|]. exists (_walk_and_normalize (VDict d)), spec0.
    split; [exact Hm|]. split; [apply walk_idempotent|]. cbn.
    split; [reflexivity|]. split; [reflexivity|]. right.
    apply String.eqb_eq in Hp. split; [now right|]. exists w. now rewrite Hn.
  - intros H. inversion H. subst.
    split; [reflexivity|]. exists (_walk_and_normalize (VDict d)), spec0.
    split; [exact Hm|]. split; [apply walk_idempotent|]. cbn.
    split; [reflexivity|]. split; [reflexivity|]. left.
    apply String.eqb_neq in He. apply String.eqb_neq in Hp. auto.
Qed.

End CompileCall.

End NormalFacts.

(** X23 (compiler_llm.py, [_normalize_templates_in_str] and
    [_walk_and_normalize]): normalising is idempotent.  A text in which the
    single-brace tokens have been rewritten holds no single-brace token any
    more, so a second pass returns it as it is, and so does a second walk
    over a value whose strings have been normalised (texts being strings of
    bytes, with the whitespace of [isspace]). *)
Theorem normalising_twice_changes_nothing :
  (forall s : string,
      CompilerLlm._normalize_templates_in_str
        (CompilerLlm._normalize_templates_in_str s)
      = CompilerLlm._normalize_templates_in_str s) /\
  (forall v : pyval,
      CompilerLlm._walk_and_normalize (CompilerLlm._walk_and_normalize v)
      = CompilerLlm._walk_and_normalize v).
Proof.
  split; [exact NormalFacts.normalize_idempotent | exact NormalFacts.walk_idempotent].
Qed.

(** X24 (compiler_llm.py, [Compiler.compile_from_preprocessed] with
    [_validate_workflow]): compiling sends at most three requests, and a
    workflow it returns bears the name asked for, whatever name the answer
    gave it, so the fallback name of [_validate_workflow] is never seen; its
    steps and inputs are those pydantic made of a value that normalising
    leaves as it is, one without single-brace tokens; and its creation time
    is the validated one unless that is empty or the epoch, in which case it
    is a reading of the clock. *)
Theorem compiled_workflow_is_named_and_normal (World : Type)
        (create : Request -> World -> result Response * World)
        (json_loads : string -> result pyval)
        (json_dumps : pyval -> string)
        (model_validate : pyval -> result WorkflowSpec)
        (iso_now : World -> string * World)
        (ensure_dir : string -> World -> result unit * World)
        (SYSTEM : string) (workflow_spec_json_schema : pyval)
        (executor_catalog_text : string)
        (model : string) (compile_input : pyval) (workflow_name : string)
        (debug_dir : option string) (w : World) :
  let '(res, w', tr) :=
    CompilerLlm.compile_from_preprocessed
      World create json_loads json_dumps model_validate iso_now ensure_dir SYSTEM
      workflow_spec_json_schema executor_catalog_text model compile_input
      workflow_name debug_dir w in
  (List.length tr <= 3)%nat /\
  match res with
  | Return spec =>
      name spec = workflow_name /\
      exists (v : pyval) (spec0 : WorkflowSpec),
        model_validate v = Return spec0 /\
        CompilerLlm._walk_and_normalize v = v /\
        steps spec = steps spec0 /\
        wf_inputs spec = wf_inputs spec0 /\
        ((created_at_iso spec = created_at_iso spec0 /\
          created_at_iso spec0 <> EmptyString /\
          created_at_iso spec0 <> CompilerLlm.epoch) \/
         ((created_at_iso spec0 = EmptyString \/
           created_at_iso spec0 = CompilerLlm.epoch) /\
          exists w0, created_at_iso spec = fst (iso_now w0)))
  | Throw _ => True
  end.
Proof.
  unfold CompilerLlm.compile_from_preprocessed.
  assert (Hcall : forall now w1,
             let '(res, w', tr) :=
               call_json World WorkflowSpec create json_loads
                 (mkJSONCallConfig model 2 true None None None) SYSTEM
                 (UCStr (json_dumps
                           (CompilerLlm.user_payload workflow_spec_json_schema
                              executor_catalog_text workflow_name now compile_input)))
                 None None
                 (CompilerLlm.validator World model_validate iso_now workflow_name)
                 (Some CompilerLlm.extra_repair_instructions) w1 in
             (List.length tr <= 3)%nat /\
             match res with
             | Return spec => CompilerLlm.compiled World model_validate iso_now
                                                   workflow_name spec
             | Throw _ => True
             end).
  { intros now w1. unfold call_json.
    match goal with
    | |- context [attempts ?W ?T ?c ?j ?cf ?sy ?uc ?sn ?js ?v ?ex None None 0 ?n w1] =>
        destruct (attempts W T c j cf sy uc sn js v ex None None 0 n w1)
          as [[r1 w2] tr1] eqn:H1;
        pose proof (attempts_spec W T c j cf sy uc sn js v ex n 0 None None w1 w2 r1 tr1 H1)
          as (Hlen1 & _ & _ & _)
    end.
    cbn in Hlen1. split; [exact Hlen1|].
    destruct r1 as [spec|e].
    - apply attempts_returns in H1. destruct H1 as (_ & d & wa & wb & Hv).
      exact (NormalFacts.validator_compiled _ _ _ _ _ _ _ _ Hv).
    - exact I. }
  destruct debug_dir as [[|c d]|].
  - destruct (iso_now w) as [now w1]. specialize (Hcall now w1).
    destruct (call_json _ _ _ _ _ _ _ _ _ _ _ w1) as [[res w'] tr].
    destruct Hcall as [Hlen Hres]. split; [exact Hlen|].
    destruct res; [exact Hres | exact I].
  - destruct (ensure_dir (String c d) w) as [[u|e] w0].
    + destruct (iso_now w0) as [now w1]. specialize (Hcall now w1).
      destruct (call_json _ _ _ _ _ _ _ _ _ _ _ w1) as [[res w'] tr].
      destruct Hcall as [Hlen Hres]. split; [exact Hlen|].
      destruct res; [exact Hres | exact I].
    + cbn. split; [lia | exact I].
  - destruct (iso_now w) as [now w1]. specialize (Hcall now w1).
    destruct (call_json _ _ _ _ _ _ _ _ _ _ _ w1) as [[res w'] tr].
    destruct Hcall as [Hlen Hres]. split; [exact Hlen|].
    destruct res; [exact Hres | exact I].
Qed.
